(** * Gmail Subscription Cleaner: the sync, aggregation and delete core

    A shallow embedding of [src/utils/parser.js], [src/utils/gmail-api.js]
    and [src/background/background.js], and the properties of the sender
    aggregation, the paginated enumeration, the retry wrapper, the chunking
    utility and the delete flow.

    Conventions.
    - A JavaScript string is a [string]; a character of a header value is a
      UTF-16 code unit below 256, so [toLowerCase] and [trim] are the
      JavaScript ones on that range.  The Russian message literals of the
      source are kept as their UTF-8 bytes; only equality and [includes] are
      used on them, and substring search on UTF-8 agrees with substring
      search on code units.
    - A JavaScript number that counts something is a [Z].
    - [null] and [undefined] are [None].
    - [console.log], [console.error] and the progress port are not modelled. *)

From Stdlib Require Import ZArith List String Ascii Bool Arith Lia.
From Stdlib Require Import DecimalString.
From Stdlib Require Import Permutation Sorted.
Import ListNotations.

Open Scope string_scope.
Open Scope Z_scope.

(* ================================================================= *)
(** ** JavaScript strings and the regular expressions of the source *)

Module Js.

(** [!!s] for a string: the empty string is falsy. *)
Definition truthy (s : string) : bool :=
  match s with
  | EmptyString => false
  | String _ _ => true
  end.

(** [!!v] for a value that is a string or [null]. *)
Definition truthyOpt (v : option string) : bool :=
  match v with
  | Some s => truthy s
  | None => false
  end.

(** LineTerminator code units below 256: LF and CR.  The [.] of a regular
    expression matches every character but these. *)
Definition isLineTerminator (c : ascii) : bool :=
  let n := nat_of_ascii c in
  (Nat.eqb n 10 || Nat.eqb n 13)%bool.

(** White space as [trim] and [\s] see it, below 256: TAB, LF, VT, FF, CR,
    SPACE and NBSP. *)
Definition isWhiteSpace (c : ascii) : bool :=
  let n := nat_of_ascii c in
  ((Nat.leb 9 n && Nat.leb n 13) || Nat.eqb n 32 || Nat.eqb n 160)%bool.

(** The double quote, code unit 34. *)
Definition dquote : ascii := "034"%char.

(** The class of the two quote characters, double and single. *)
Definition isQuote (c : ascii) : bool :=
  (Ascii.eqb c dquote || Ascii.eqb c "'")%bool.

(** [toLowerCase] on one code unit: A-Z and the Latin-1 capitals
    U+00C0..U+00DE (U+00D7, the multiplication sign, apart). *)
Definition toLowerChar (c : ascii) : ascii :=
  let n := nat_of_ascii c in
  if ((Nat.leb 65 n && Nat.leb n 90)
      || (Nat.leb 192 n && Nat.leb n 222 && negb (Nat.eqb n 215)))%bool
  then ascii_of_nat (n + 32)
  else c.

Fixpoint toLowerCase (s : string) : string :=
  match s with
  | EmptyString => EmptyString
  | String c r => String (toLowerChar c) (toLowerCase r)
  end.

Fixpoint trimStart (s : string) : string :=
  match s with
  | EmptyString => EmptyString
  | String c r => if isWhiteSpace c then trimStart r else s
  end.

Fixpoint trimEnd (s : string) : string :=
  match s with
  | EmptyString => EmptyString
  | String c r =>
      match trimEnd r with
      | EmptyString => if isWhiteSpace c then EmptyString else String c EmptyString
      | r' => String c r'
      end
  end.

Definition trim (s : string) : string := trimEnd (trimStart s).

(** [hay.includes(needle)] *)
Fixpoint includes (hay needle : string) : bool :=
  match hay with
  | EmptyString => prefix needle EmptyString
  | String _ r => (prefix needle hay || includes r needle)%bool
  end.

(** [s.slice(n)] for [0 <= n] *)
Fixpoint drop (n : nat) (s : string) : string :=
  match n, s with
  | O, _ => s
  | S n', String _ r => drop n' r
  | S _, EmptyString => EmptyString
  end.

(** The longest prefix without [>], and what follows it: what a greedy
    [[^>]+] or [[^>]*] consumes. *)
Fixpoint spanNotGt (s : string) : string * string :=
  match s with
  | EmptyString => (EmptyString, EmptyString)
  | String c r =>
      if Ascii.eqb c ">" then (EmptyString, s)
      else let (body, rest) := spanNotGt r in (String c body, rest)
  end.

(** The leftmost-match search of an unanchored regular expression that
    starts with a literal [<]: [after] is tried on what follows each [<],
    from left to right, and the first success is the match. *)
Fixpoint firstAfterLt (after : string -> option string) (s : string)
  : option string :=
  match s with
  | EmptyString => None
  | String c r =>
      if Ascii.eqb c "<" then
        match after r with
        | Some m => Some m
        | None => firstAfterLt after r
        end
      else firstAfterLt after r
  end.

(** *** [/<(.+?)>/] *)

(** The lazy [.+?] after its first character: extend one character at a
    time until the next one is [>]; a line terminator or the end of the
    input fails this start position. *)
Fixpoint lazyUntilGt (s : string) : option string :=
  match s with
  | EmptyString => None
  | String c r =>
      if Ascii.eqb c ">" then Some EmptyString
      else if isLineTerminator c then None
      else option_map (String c) (lazyUntilGt r)
  end.

(** What follows a [<]: one character that [.] accepts, then the lazy
    extension. *)
Definition angleAfterLt (s : string) : option string :=
  match s with
  | EmptyString => None
  | String c r =>
      if isLineTerminator c then None
      else option_map (String c) (lazyUntilGt r)
  end.

(** Group 1 of [s.match(/<(.+?)>/)], [None] when there is no match. *)
Definition matchAngle (s : string) : option string :=
  firstAfterLt angleAfterLt s.

(** *** [/^(.+?)\s*</] *)

(** [\s*<] at the head of [s]. *)
Fixpoint wsThenLt (s : string) : bool :=
  match s with
  | EmptyString => false
  | String c r =>
      if Ascii.eqb c "<" then true
      else if isWhiteSpace c then wsThenLt r
      else false
  end.

(** The lazy [.+?] after its first character, followed by [\s*<]. *)
Fixpoint lazyUntilWsLt (s : string) : option string :=
  if wsThenLt s then Some EmptyString
  else
    match s with
    | EmptyString => None
    | String c r =>
        if isLineTerminator c then None
        else option_map (String c) (lazyUntilWsLt r)
    end.

(** Group 1 of [s.match(/^(.+?)\s*</)]; the anchor leaves one start
    position. *)
Definition matchNamePrefix (s : string) : option string :=
  match s with
  | EmptyString => None
  | String c r =>
      if isLineTerminator c then None
      else option_map (String c) (lazyUntilWsLt r)
  end.

(** *** [.replace(/^[q]|[q]$/g, empty)], [q] the class of the two quotes *)

(** Remove the last character when it is a quote. *)
Fixpoint dropTrailingQuote (s : string) : string :=
  match s with
  | EmptyString => EmptyString
  | String c EmptyString => if isQuote c then EmptyString else s
  | String c r => String c (dropTrailingQuote r)
  end.

(** A quote at index 0 is consumed by the first alternative, so the second
    alternative only sees the characters after it. *)
Definition stripQuotes (s : string) : string :=
  match s with
  | EmptyString => EmptyString
  | String c r =>
      if isQuote c then dropTrailingQuote r
      else dropTrailingQuote s
  end.

(** *** [/<(https?:\/\/[^>]+)>/] and [/<mailto:([^>]+)>/] *)

(** What follows a [<]: the literal [lit], a non-empty run without [>],
    and a [>].  The result is the run. *)
Definition litBodyGt (lit : string) (s : string) : option string :=
  if prefix lit s then
    match spanNotGt (drop (String.length lit) s) with
    | (String c body, String _ _) => Some (String c body)
    | _ => None
    end
  else None.

(** [https?:\/\/[^>]+>] after a [<]: with the optional [s] first, without
    it on backtracking.  The result is group 1, scheme included. *)
Definition httpAfterLt (s : string) : option string :=
  match litBodyGt "https://" s with
  | Some body => Some ("https://" ++ body)
  | None => option_map (append "http://") (litBodyGt "http://" s)
  end.

(** Group 1 of [s.match(/<(https?:\/\/[^>]+)>/)]. *)
Definition matchHttp (s : string) : option string :=
  firstAfterLt httpAfterLt s.

(** Group 1 of [s.match(/<mailto:([^>]+)>/)]. *)
Definition matchMailto (s : string) : option string :=
  firstAfterLt (litBodyGt "mailto:") s.

(** [s.split(sep)] for a separator of one character. *)
Fixpoint split (sep : ascii) (s : string) : list string :=
  match s with
  | EmptyString => [EmptyString]
  | String c r =>
      if Ascii.eqb c sep then EmptyString :: split sep r
      else
        match split sep r with
        | p :: ps => String c p :: ps
        | [] => [String c EmptyString]
        end
  end.

End Js.

(* ================================================================= *)
(** ** The data the Gmail API returns *)

(** An element of [payload.headers]. *)
Record Header := mkHeader {
  name : string;
  value : string
}.

(** [message.payload]; [headers] may be missing. *)
Record Payload := mkPayload {
  headers : option (list Header)
}.

(** A number as [parseInt] returns it. *)
Inductive JsNumber :=
| NaN
| Num (z : Z).

(** A message of [users.messages.get].  [internalDate] holds what
    [parseInt(message.internalDate)] evaluates to. *)
Record Message := mkMessage {
  id : string;
  labelIds : option (list string);
  payload : option Payload;
  internalDate : JsNumber
}.

(** [message.labelIds?.includes('UNREAD')], as a condition. *)
Definition isUnread (message : Message) : bool :=
  match labelIds message with
  | Some ls => existsb (String.eqb "UNREAD") ls
  | None => false
  end.

(* ================================================================= *)
(** ** [Map]: insertion-ordered, keyed by string *)

Module JsMap.

Section Ops.
Context {V : Type}.

Definition t := list (string * V).

Fixpoint get (k : string) (m : list (string * V)) : option V :=
  match m with
  | [] => None
  | (k', v) :: m' => if String.eqb k k' then Some v else get k m'
  end.

Definition has (k : string) (m : list (string * V)) : bool :=
  match get k m with
  | Some _ => true
  | None => false
  end.

(** [m.set(k, v)]: an existing key keeps its place, a new key goes last.
    Mutating the object [m.get(k)] returned is [set] at an existing key. *)
Fixpoint set (k : string) (v : V) (m : list (string * V)) : list (string * V) :=
  match m with
  | [] => [(k, v)]
  | (k', v') :: m' =>
      if String.eqb k k' then (k', v) :: m' else (k', v') :: set k v m'
  end.

(** [Array.from(m.values())] *)
Definition values (m : list (string * V)) : list V := map snd m.

End Ops.

End JsMap.

(** [array.sort((a, b) => key b - key a)]: descending by [key], stable (an
    element stays ahead of the later ones with the same key). *)
Section SortDesc.
Context {A : Type} (key : A -> Z).

Fixpoint insertDesc (x : A) (l : list A) : list A :=
  match l with
  | [] => [x]
  | y :: l' => if key x <? key y then y :: insertDesc x l' else x :: l
  end.

Definition sortDesc (l : list A) : list A := fold_right insertDesc [] l.

End SortDesc.

(** [array.sort(compareFn)] for a [compareFn] that orders its arguments
    consistently: stable, and [b] goes ahead of [a] only when
    [compareFn(a, b) > 0]. *)
Section SortWith.
Context {A : Type} (compareFn : A -> A -> Z).

Fixpoint insertWith (x : A) (l : list A) : list A :=
  match l with
  | [] => [x]
  | y :: l' => if 0 <? compareFn x y then y :: insertWith x l' else x :: l
  end.

Definition sortWith (l : list A) : list A := fold_right insertWith [] l.

End SortWith.

(** A [Map] whose keys are strings or [undefined], as an association list
    in insertion order. *)
Module JsMapU.

Definition keyEqb (k k' : option string) : bool :=
  match k, k' with
  | Some s, Some s' => String.eqb s s'
  | None, None => true
  | _, _ => false
  end.

Section Ops.
Context {V : Type}.

Fixpoint get (k : option string) (m : list (option string * V)) : option V :=
  match m with
  | [] => None
  | (k', v) :: m' => if keyEqb k k' then Some v else get k m'
  end.

Definition has (k : option string) (m : list (option string * V)) : bool :=
  match get k m with
  | Some _ => true
  | None => false
  end.

Fixpoint set (k : option string) (v : V) (m : list (option string * V))
  : list (option string * V) :=
  match m with
  | [] => [(k, v)]
  | (k', v') :: m' =>
      if keyEqb k k' then (k', v) :: m' else (k', v') :: set k v m'
  end.

Definition values (m : list (option string * V)) : list V := map snd m.

End Ops.

End JsMapU.

(* ================================================================= *)
(** ** [src/utils/parser.js]: class [EmailParser] *)

Module Parser.

(** An entry of [sendersMap]. *)
Record Sender := mkSender {
  email : string;
  senderName : option string;
  totalCount : Z;
  unreadCount : Z;
  messageIds : list string;
  unsubscribeLink : option string;
  lastMessageDate : option JsNumber;
  isNewsletter : bool
}.

Record Stats := mkStats {
  totalEmails : Z;
  unreadEmails : Z;
  totalSenders : Z;
  newsletterSenders : Z
}.

Record Analysis := mkAnalysis {
  senders : list Sender;
  stats : Stats
}.

(** [getHeader(message, headerName)]: the value of the first header whose
    lowercased name is the lowercased [headerName]. *)
Definition getHeader (message : Message) (headerName : string) : option string :=
  match payload message with
  | None => None
  | Some p =>
      match headers p with
      | None => None
      | Some hs =>
          match find (fun h => String.eqb (Js.toLowerCase (name h))
                                          (Js.toLowerCase headerName)) hs with
          | Some h => Some (value h)
          | None => None
          end
      end
  end.

(** [extractEmail(fromString)] *)
Definition extractEmail (fromString : string) : option string :=
  match Js.matchAngle fromString with
  | Some m1 => Some (Js.trim (Js.toLowerCase m1))
  | None =>
      if Js.includes fromString "@"
      then Some (Js.toLowerCase (Js.trim fromString))
      else None
  end.

(** [extractName(fromString)] *)
Definition extractName (fromString : string) : option string :=
  match Js.matchNamePrefix fromString with
  | Some m1 => Some (Js.stripQuotes (Js.trim m1))
  | None => None
  end.

(** [extractSenderInfo(message)]: the pair [{email, name}]. *)
Definition extractSenderInfo (message : Message) : option string * option string :=
  match getHeader message "From" with
  | Some fromHeader =>
      if Js.truthy fromHeader
      then (extractEmail fromHeader, extractName fromHeader)
      else (None, None)
  | None => (None, None)
  end.

(** [parseUnsubscribeHeader(headerValue)] *)
Definition parseUnsubscribeHeader (headerValue : string) : option string :=
  match Js.matchHttp headerValue with
  | Some m1 => Some m1
  | None =>
      match Js.matchMailto headerValue with
      | Some m1 => Some ("mailto:" ++ m1)
      | None => None
      end
  end.

(** [extractUnsubscribeLink(message)]; after the [List-Unsubscribe] header
    the function returns [null] on both sides of its
    [List-Unsubscribe-Post] test. *)
Definition extractUnsubscribeLink (message : Message) : option string :=
  let afterHeader : option string :=
    if Js.truthyOpt (getHeader message "List-Unsubscribe-Post")
    then None else None in
  match getHeader message "List-Unsubscribe" with
  | Some unsubscribeHeader =>
      if Js.truthy unsubscribeHeader then
        match parseUnsubscribeHeader unsubscribeHeader with
        | Some link => if Js.truthy link then Some link else afterHeader
        | None => afterHeader
        end
      else afterHeader
  | None => afterHeader
  end.

Definition newsletterHeaders : list string :=
  ["List-Unsubscribe"; "List-Id"; "List-Post"; "Precedence"].

(** [isNewsletterMessage(message)] *)
Definition isNewsletterMessage (message : Message) : bool :=
  if existsb (fun headerName => Js.truthyOpt (getHeader message headerName))
             newsletterHeaders
  then true
  else
    match getHeader message "Precedence" with
    | Some precedence =>
        if (Js.truthy precedence
            && String.eqb (Js.toLowerCase precedence) "bulk")%bool
        then true else false
    | None => false
    end.

(** [!sender.lastMessageDate || messageDate > sender.lastMessageDate] *)
Definition dateIsNewer (messageDate : JsNumber) (last : option JsNumber) : bool :=
  match last with
  | None => true
  | Some NaN => true
  | Some (Num l) =>
      if l =? 0 then true
      else
        match messageDate with
        | Num d => l <? d
        | NaN => false
        end
  end.

(** The loop state of [analyzeMessages]. *)
Record Acc := mkAcc {
  sendersMap : list (string * Sender);
  accTotal : Z;
  accUnread : Z
}.

Definition newSender (e : string) (n : option string) : Sender :=
  mkSender e n 0 0 [] None None false.

(** What the loop body does to [sender] once it is fetched from the map. *)
Definition foldInto (message : Message) (unsubscribeLink' : option string)
    (sender : Sender) : Sender :=
  let total := totalCount sender + 1 in
  let unread := if isUnread message then unreadCount sender + 1
                else unreadCount sender in
  let ids := (messageIds sender ++ [id message])%list in
  let link := if (Js.truthyOpt unsubscribeLink'
                  && negb (Js.truthyOpt (unsubscribeLink sender)))%bool
              then unsubscribeLink' else unsubscribeLink sender in
  let date := if dateIsNewer (internalDate message) (lastMessageDate sender)
              then Some (internalDate message) else lastMessageDate sender in
  let news := if isNewsletterMessage message then true
              else isNewsletter sender in
  mkSender (email sender) (senderName sender) total unread ids link date news.

(** One iteration of the [for] loop; an element of [messages] may be
    [null]. *)
Definition step (acc : Acc) (m : option Message) : Acc :=
  match m with
  | None => acc
  | Some message =>
      match payload message with
      | None => acc
      | Some _ =>
          let total := accTotal acc + 1 in
          let unread := if isUnread message then accUnread acc + 1
                        else accUnread acc in
          let senderInfo := extractSenderInfo message in
          match fst senderInfo with
          | None => mkAcc (sendersMap acc) total unread
          | Some e =>
              if negb (Js.truthy e) then mkAcc (sendersMap acc) total unread
              else
                let unsubscribeLink' := extractUnsubscribeLink message in
                let map1 :=
                  if negb (JsMap.has e (sendersMap acc))
                  then JsMap.set e (newSender e (snd senderInfo)) (sendersMap acc)
                  else sendersMap acc in
                match JsMap.get e map1 with
                | Some sender =>
                    mkAcc (JsMap.set e (foldInto message unsubscribeLink' sender) map1)
                          total unread
                | None => mkAcc map1 total unread
                end
          end
      end
  end.

Definition emptyAcc : Acc := mkAcc [] 0 0.

(** The loop over [messages]. *)
Definition scan (messages : list (option Message)) : Acc :=
  fold_left step messages emptyAcc.

(** The result object built from the loop state. *)
Definition finish (acc : Acc) : Analysis :=
  let senders := sortDesc totalCount (JsMap.values (sendersMap acc)) in
  mkAnalysis senders
    (mkStats (accTotal acc) (accUnread acc)
             (Z.of_nat (List.length senders))
             (Z.of_nat (List.length (filter isNewsletter senders)))).

(** [analyzeMessages(messages)] *)
Definition analyzeMessages (messages : list (option Message)) : Analysis :=
  finish (scan messages).

(** [sortSenders(senders, sortBy, sortOrder)] for a [sortBy] that names a
    numeric property of the senders, given as its projection.  (A string
    property is compared with [localeCompare], which depends on the
    locale.)  A missing [sortOrder] is ['desc']. *)
Definition sortSenders (senders : list Sender) (sortBy : Sender -> Z)
    (sortOrder : string) : list Sender :=
  let multiplier := if String.eqb sortOrder "asc" then 1 else -1 in
  sortWith (fun a b => multiplier * (sortBy b - sortBy a)) senders.

(** The [filters] object: a flag is its truthiness, [minEmailCount] is 0
    when missing, [sortBy] names a numeric property. *)
Record Filters := mkFilters {
  searchQuery : option string;
  onlyUnread : bool;
  onlyNewsletters : bool;
  minEmailCount : Z;
  sortBy : option (Sender -> Z);
  sortOrder : option string
}.

(** The test of the search filter on one sender. *)
Definition matchesQuery (query : string) (sender : Sender) : bool :=
  (Js.includes (Js.toLowerCase (email sender)) query
   || match senderName sender with
      | Some n => Js.truthy n && Js.includes (Js.toLowerCase n) query
      | None => false
      end)%bool.

(** [filterSenders(senders, filters)] *)
Definition filterSenders (senders : list Sender) (filters : Filters)
  : list Sender :=
  let filtered := senders in
  let filtered :=
    match searchQuery filters with
    | Some q =>
        if Js.truthy q
        then filter (matchesQuery (Js.toLowerCase q)) filtered
        else filtered
    | None => filtered
    end in
  let filtered :=
    if onlyUnread filters
    then filter (fun sender => 0 <? unreadCount sender) filtered
    else filtered in
  let filtered :=
    if onlyNewsletters filters then filter isNewsletter filtered
    else filtered in
  let filtered :=
    if negb (minEmailCount filters =? 0)
    then filter (fun sender => minEmailCount filters <=? totalCount sender)
                filtered
    else filtered in
  match sortBy filters with
  | Some key =>
      sortSenders filtered key
        match sortOrder filters with
        | Some order => order
        | None => "desc"
        end
  | None => filtered
  end.

(** An entry of the [domains] map of [groupByDomain]. *)
Module Group.

Record t := mk {
  domain : option string;
  senders : list Sender;
  totalEmails : Z;
  totalUnread : Z
}.

End Group.

(** [sender.email.split('@')[1]] *)
Definition domainOf (sender : Sender) : option string :=
  nth_error (Js.split "@" (email sender)) 1.

(** One iteration of the loop of [groupByDomain]. *)
Definition groupStep (domains : list (option string * Group.t))
    (sender : Sender) : list (option string * Group.t) :=
  let domain := domainOf sender in
  let domains1 :=
    if negb (JsMapU.has domain domains)
    then JsMapU.set domain (Group.mk domain [] 0 0) domains
    else domains in
  match JsMapU.get domain domains1 with
  | Some domainGroup =>
      JsMapU.set domain
        (Group.mk (Group.domain domainGroup)
                  (Group.senders domainGroup ++ [sender])%list
                  (Group.totalEmails domainGroup + totalCount sender)
                  (Group.totalUnread domainGroup + unreadCount sender))
        domains1
  | None => domains1
  end.

(** [groupByDomain(senders)] *)
Definition groupByDomain (senders : list Sender) : list Group.t :=
  sortDesc Group.totalEmails (JsMapU.values (fold_left groupStep senders [])).

(** The object [getSendersStats] returns, but for
    [averageEmailsPerSender], a floating-point quotient. *)
Module SendersStats.

Record t := mk {
  totalSenders : Z;
  totalEmails : Z;
  totalUnread : Z;
  newsletterCount : Z;
  withUnsubscribe : Z
}.

End SendersStats.

(** [getSendersStats(senders)] *)
Definition getSendersStats (senders : list Sender) : SendersStats.t :=
  let totalEmails := fold_left (fun sum s => sum + totalCount s) senders 0 in
  let totalUnread := fold_left (fun sum s => sum + unreadCount s) senders 0 in
  let newsletterCount := Z.of_nat (List.length (filter isNewsletter senders)) in
  let withUnsubscribe :=
    Z.of_nat (List.length
                (filter (fun s => Js.truthyOpt (unsubscribeLink s)) senders)) in
  SendersStats.mk (Z.of_nat (List.length senders)) totalEmails totalUnread
                  newsletterCount withUnsubscribe.

End Parser.

(* ================================================================= *)
(** ** Calls to the provider, waiting and failing *)

(** A call of the Gmail REST API, by endpoint. *)
Inductive Request :=
| ListMessages (q : option string) (maxResults : Z) (pageToken : option string)
| GetMessage (messageId : string)
| BatchDelete (ids : list string).

(** The JSON a call resolves to.  A message reference [{id, threadId}] of a
    listing is kept as its [id]. *)
Inductive Response :=
| ListResult (messages : option (list string)) (nextPageToken : option string)
| MessageResult (message : Message)
| EmptyResult.

(** [data.messages] *)
Definition messagesOf (data : Response) : option (list string) :=
  match data with
  | ListResult ms _ => ms
  | _ => None
  end.

(** [data.nextPageToken] *)
Definition nextPageTokenOf (data : Response) : option string :=
  match data with
  | ListResult _ t => t
  | _ => None
  end.

(** A thrown value: an [Error] with its message, or [undefined]. *)
Inductive Thrown :=
| ThrownUndefined
| ThrownError (message : string).

(** What an operation is seen to do. *)
Inductive Event :=
| EvRequest (req : Request) (res : string + Response)
| EvSleep (ms : Z)
| EvAttempt (failure : option string).

Inductive Outcome (A : Type) :=
| Ret (a : A)
| Throw (e : Thrown)
| Diverge.

Arguments Ret {A} a.
Arguments Throw {A} e.
Arguments Diverge {A}.

(** What [chrome.identity.getAuthToken] hands to its callback: an error in
    [chrome.runtime.lastError], or a token, which may be [undefined]. *)
Inductive Identity :=
| IdentityError (message : string)
| IdentityToken (token : option string).

Module Eff.

Section Monad.
Context {Remote Store : Type}.

(** The provider's state, the local store, and what happened so far. *)
Record World := mkWorld {
  remote : Remote;
  store : Store;
  trace : list Event
}.

Definition M (A : Type) : Type := World -> Outcome A * World.

Definition ret {A} (a : A) : M A := fun w => (Ret a, w).

Definition throw {A} (e : Thrown) : M A := fun w => (Throw e, w).

Definition diverge {A} : M A := fun w => (Diverge, w).

Definition bind {A B} (c : M A) (k : A -> M B) : M B :=
  fun w =>
    match c w with
    | (Ret a, w') => k a w'
    | (Throw e, w') => (Throw e, w')
    | (Diverge, w') => (Diverge, w')
    end.

Definition emit (ev : Event) : M unit :=
  fun w => (Ret tt, mkWorld (remote w) (store w) (trace w ++ [ev])).

(** [await sleep(ms)] *)
Definition sleep (ms : Z) : M unit := emit (EvSleep ms).

Definition getStore : M Store := fun w => (Ret (store w), w).

Definition setStore (s : Store) : M unit :=
  fun w => (Ret tt, mkWorld (remote w) s (trace w)).

(** An awaited call through a transport that resolves or rejects with an
    [Error] of the given message. *)
Definition call (transport : Request -> Remote -> (string + Response) * Remote)
    (req : Request) : M Response :=
  fun w =>
    let (res, r') := transport req (remote w) in
    let w' := mkWorld r' (store w) (trace w ++ [EvRequest req res]) in
    match res with
    | inr data => (Ret data, w')
    | inl message => (Throw (ThrownError message), w')
    end.

(** [try { await fn() } catch (error) { ... }]: one invocation of an
    operation on the provider, with its result handed to the caller. *)
Definition attempt {A} (fn : Remote -> (string + A) * Remote) : M (string + A) :=
  fun w =>
    let (res, r') := fn (remote w) in
    let failure := match res with inl message => Some message | inr _ => None end in
    (Ret res, mkWorld r' (store w) (trace w ++ [EvAttempt failure])).

(** [try { ... } catch (error) { ... }] around [c]: what [c] throws is
    handed to the caller instead. *)
Definition try {A} (c : M A) : M (Thrown + A) :=
  fun w =>
    match c w with
    | (Ret a, w') => (Ret (inr a), w')
    | (Throw e, w') => (Ret (inl e), w')
    | (Diverge, w') => (Diverge, w')
    end.

End Monad.

Arguments World : clear implicits.
Arguments M : clear implicits.

End Eff.

Notation "x <- c ;; k" := (Eff.bind c (fun x => k))
  (at level 61, c at next level, right associativity).
Notation "c ;;; k" := (Eff.bind c (fun _ => k))
  (at level 61, right associativity).

(** [array.slice(i, j)] for [0 <= i <= j] *)
Definition slice {A} (i j : nat) (array : list A) : list A :=
  firstn (j - i) (skipn i array).

(* ================================================================= *)
(** ** [src/background/background.js]: the service worker *)

Module Background.

Definition BATCH_SIZE : Z := 100.
Definition RATE_LIMIT_DELAY : Z := 500.

(** An entry of [sendersMap]. *)
Record Sender := mkSender {
  email : string;
  senderName : option string;
  totalCount : Z;
  unreadCount : Z;
  messageIds : list string;
  unsubscribeLink : option string
}.

Record Stats := mkStats {
  totalEmails : Z;
  unreadEmails : Z;
  totalSenders : Z
}.

Record Analysis := mkAnalysis {
  senders : list Sender;
  stats : Stats
}.

(** [message.payload?.headers?.find(h => h.name === headerName)] *)
Definition findHeader (message : Message) (headerName : string) : option Header :=
  match payload message with
  | None => None
  | Some p =>
      match headers p with
      | None => None
      | Some hs => find (fun h => String.eqb (name h) headerName) hs
      end
  end.

(** [extractEmail(fromString)] *)
Definition extractEmail (fromString : string) : option string :=
  match Js.matchAngle fromString with
  | Some m1 => Some (Js.toLowerCase m1)
  | None =>
      if Js.includes fromString "@"
      then Some (Js.toLowerCase (Js.trim fromString))
      else None
  end.

(** [extractName(fromString)] *)
Definition extractName (fromString : string) : option string :=
  match Js.matchNamePrefix fromString with
  | Some m1 => Some (Js.stripQuotes (Js.trim m1))
  | None => None
  end.

(** [extractUnsubscribeLink(headerValue)] *)
Definition extractUnsubscribeLink (headerValue : string) : option string :=
  match Js.matchHttp headerValue with
  | Some m1 => Some m1
  | None => None
  end.

(** The loop state of [analyzeMessages]. *)
Record Acc := mkAcc {
  sendersMap : list (string * Sender);
  accTotal : Z;
  accUnread : Z
}.

(** What the loop body does to [sender] once it is fetched from the map. *)
Definition foldInto (message : Message) (unsubscribeLink' : option string)
    (sender : Sender) : Sender :=
  let total := totalCount sender + 1 in
  let unread := if isUnread message then unreadCount sender + 1
                else unreadCount sender in
  let ids := (messageIds sender ++ [id message])%list in
  let link := if (Js.truthyOpt unsubscribeLink'
                  && negb (Js.truthyOpt (unsubscribeLink sender)))%bool
              then unsubscribeLink' else unsubscribeLink sender in
  mkSender (email sender) (senderName sender) total unread ids link.

(** One iteration of the [for] loop. *)
Definition step (acc : Acc) (message : Message) : Acc :=
  let total := accTotal acc + 1 in
  let unread := if isUnread message then accUnread acc + 1
                else accUnread acc in
  match findHeader message "From" with
  | None => mkAcc (sendersMap acc) total unread
  | Some fromHeader =>
      match extractEmail (value fromHeader) with
      | None => mkAcc (sendersMap acc) total unread
      | Some e =>
          if negb (Js.truthy e) then mkAcc (sendersMap acc) total unread
          else
            let unsubscribeLink' :=
              match findHeader message "List-Unsubscribe" with
              | Some unsubscribeHeader =>
                  extractUnsubscribeLink (value unsubscribeHeader)
              | None => None
              end in
            let map1 :=
              if negb (JsMap.has e (sendersMap acc))
              then JsMap.set e
                     (mkSender e (extractName (value fromHeader)) 0 0 []
                               unsubscribeLink')
                     (sendersMap acc)
              else sendersMap acc in
            match JsMap.get e map1 with
            | Some sender =>
                mkAcc (JsMap.set e (foldInto message unsubscribeLink' sender) map1)
                      total unread
            | None => mkAcc map1 total unread
            end
      end
  end.

Definition emptyAcc : Acc := mkAcc [] 0 0.

(** The loop over [messages]. *)
Definition scan (messages : list Message) : Acc :=
  fold_left step messages emptyAcc.

(** The result object built from the loop state. *)
Definition finish (acc : Acc) : Analysis :=
  let senders := sortDesc totalCount (JsMap.values (sendersMap acc)) in
  mkAnalysis senders
    (mkStats (accTotal acc) (accUnread acc) (Z.of_nat (List.length senders))).

(** [analyzeMessages(messages)] *)
Definition analyzeMessages (messages : list Message) : Analysis :=
  finish (scan messages).

(** The message of the [Error] the delete flow throws when nothing matches
    the sender: the failure the design calls NothingToDelete. *)
Definition NothingToDelete : string := "Письма не найдены".

(** The cache patch at the end of [deleteEmailsFromSender]. *)
Definition patchCache (email' : string) (a : Analysis) : Analysis :=
  let sender := find (fun s => String.eqb (email s) email') (senders a) in
  let senders' :=
    filter (fun s => negb (String.eqb (email s) email')) (senders a) in
  match sender with
  | Some s =>
      mkAnalysis senders'
        (mkStats (totalEmails (stats a) - totalCount s)
                 (unreadEmails (stats a) - unreadCount s)
                 (totalSenders (stats a) - 1))
  | None => mkAnalysis senders' (stats a)
  end.

(** The variables [accessToken] and [tokenExpiresAt] of the worker. *)
Record TokenState := mkTokenState {
  accessToken : option string;
  tokenExpiresAt : option Z
}.

(** [accessToken && tokenExpiresAt && Date.now() < tokenExpiresAt], with
    [now] for what [Date.now()] returns. *)
Definition cachedTokenValid (now : Z) (state : TokenState) : bool :=
  (Js.truthyOpt (accessToken state)
   && match tokenExpiresAt state with
      | Some expiresAt => negb (expiresAt =? 0) && (now <? expiresAt)
      | None => false
      end)%bool.

(** [getAuthToken(interactive)]: [now] is the clock when the cache is
    looked at, [identity] what the identity service answers if asked, and
    [now'] the clock when its answer is cached.  The result is the token
    or the message of the [Error] thrown, with the variables afterwards. *)
Definition getAuthToken (interactive : bool) (now : Z) (identity : Identity)
    (now' : Z) (state : TokenState) : (string + option string) * TokenState :=
  if (negb interactive && cachedTokenValid now state)%bool
  then (inr (accessToken state), state)
  else
    let state1 := if interactive then mkTokenState None None else state in
    match identity with
    | IdentityError message => (inl message, state1)
    | IdentityToken token =>
        (inr token, mkTokenState token (Some (now' + 55 * 60 * 1000)))
    end.

(** [checkAuthentication()] *)
Definition checkAuthentication (now : Z) (identity : Identity) (now' : Z)
    (state : TokenState) : bool * TokenState :=
  match getAuthToken false now identity now' (mkTokenState None None) with
  | (inr token, state') => (Js.truthyOpt token, state')
  | (inl _, state') => (false, state')
  end.

(** [authenticate()] *)
Definition authenticate (now : Z) (identity : Identity) (now' : Z)
    (state : TokenState) : (string + bool) * TokenState :=
  match getAuthToken true now identity now' state with
  | (inr token, state') =>
      if negb (Js.truthyOpt token)
      then (inl "Не удалось получить токен авторизации", state')
      else (inr true, state')
  | (inl message, state') => (inl message, state')
  end.

Section Flows.
Context {Remote : Type}.

(** [chrome.storage.local], at the key [emailAnalysis]. *)
Local Abbreviation World := (Eff.World Remote (option Analysis)).
Local Abbreviation M := (Eff.M Remote (option Analysis)).

(** The transport, [gmailApiRequest(endpoint, options)], as a function of
    the provider: it resolves to JSON or rejects with an [Error]. *)
Variable transport : Request -> Remote -> (string + Response) * Remote.

Definition gmailApiRequest (req : Request) : M Response :=
  Eff.call transport req.

(** [...(pageToken && { pageToken })] *)
Definition tokenParam (pageToken : option string) : option string :=
  if Js.truthyOpt pageToken then pageToken else None.

(** [messageIds.push(...data.messages.map(m => m.id))] under
    [if (data.messages)] *)
Definition pushIds (messageIds' : list string) (data : Response) : list string :=
  match messagesOf data with
  | Some ms => (messageIds' ++ ms)%list
  | None => messageIds'
  end.

(** The [while] loop of [getAllMessageIds]; [fuel] bounds the number of
    iterations. *)
Fixpoint getAllLoop (fuel : nat) (maxResults : Z) (messageIds' : list string)
    (pageToken : option string) : M (list string) :=
  if negb (Z.of_nat (List.length messageIds') <? maxResults)
  then Eff.ret messageIds'
  else
    match fuel with
    | O => Eff.diverge
    | S fuel' =>
        data <- gmailApiRequest
                  (ListMessages None
                     (Z.min BATCH_SIZE (maxResults - Z.of_nat (List.length messageIds')))
                     (tokenParam pageToken)) ;;
        let ids := pushIds messageIds' data in
        if (negb (Js.truthyOpt (nextPageTokenOf data))
            || (maxResults <=? Z.of_nat (List.length ids)))%bool
        then Eff.ret ids
        else
          Eff.sleep RATE_LIMIT_DELAY ;;;
          getAllLoop fuel' maxResults ids (nextPageTokenOf data)
    end.

(** [getAllMessageIds(maxResults)] *)
Definition getAllMessageIds (fuel : nat) (maxResults : Z) : M (list string) :=
  getAllLoop fuel maxResults [] None.

(** The [do ... while (pageToken)] loop of [deleteEmailsFromSender]. *)
Fixpoint findAllFrom (fuel : nat) (email' : string) (allMessageIds : list string)
    (pageToken : option string) : M (list string) :=
  match fuel with
  | O => Eff.diverge
  | S fuel' =>
      data <- gmailApiRequest
                (ListMessages (Some ("from:" ++ email')) 500 (tokenParam pageToken)) ;;
      let ids := pushIds allMessageIds data in
      let pageToken' := nextPageTokenOf data in
      if Js.truthyOpt pageToken'
      then Eff.sleep RATE_LIMIT_DELAY ;;; findAllFrom fuel' email' ids pageToken'
      else Eff.ret ids
  end.

(** The [for] loop that deletes [allMessageIds] in batches of 1000; it
    needs at most one iteration per id. *)
Fixpoint deleteBatches (fuel : nat) (i : nat) (allMessageIds : list string)
    : M unit :=
  if negb (Nat.ltb i (List.length allMessageIds)) then Eff.ret tt
  else
    match fuel with
    | O => Eff.diverge
    | S fuel' =>
        let batchSize := 1000%nat in
        let batch := slice i (i + batchSize) allMessageIds in
        gmailApiRequest (BatchDelete batch) ;;;
        (if Nat.ltb (i + batchSize) (List.length allMessageIds)
         then Eff.sleep RATE_LIMIT_DELAY else Eff.ret tt) ;;;
        deleteBatches fuel' (i + batchSize)%nat allMessageIds
    end.

(** The cache update: read [emailAnalysis], patch it, write it back. *)
Definition updateCache (email' : string) : M unit :=
  cached <- Eff.getStore ;;
  match cached with
  | Some emailAnalysis => Eff.setStore (Some (patchCache email' emailAnalysis))
  | None => Eff.ret tt
  end.

(** [deleteEmailsFromSender(email)]; the [catch] rethrows. *)
Definition deleteEmailsFromSender (fuel : nat) (email' : string) : M bool :=
  allMessageIds <- findAllFrom fuel email' [] None ;;
  if Nat.eqb (List.length allMessageIds) 0
  then Eff.throw (ThrownError NothingToDelete)
  else
    deleteBatches (List.length allMessageIds) 0 allMessageIds ;;;
    updateCache email' ;;;
    Eff.ret true.

(** What [error.message] throws when [error] is [undefined]. *)
Definition noMessageOfUndefined : string :=
  "Cannot read properties of undefined (reading 'message')".

(** The inner [for (const id of batch)] loop of [loadMessagesBatch]: each
    message is asked for with the metadata format and the three headers;
    a failure is logged and skipped, after a longer wait when its message
    names the rate limit. *)
Fixpoint loadEach (batch : list string) (messages : list Response)
    : M (list Response) :=
  match batch with
  | [] => Eff.ret messages
  | id' :: rest =>
      res <- Eff.try (gmailApiRequest (GetMessage id')) ;;
      match res with
      | inr message =>
          Eff.sleep 200 ;;;
          loadEach rest (messages ++ [message])%list
      | inl (ThrownError message) =>
          (if Js.includes message "лимит" then Eff.sleep 2000 else Eff.ret tt) ;;;
          loadEach rest messages
      | inl ThrownUndefined => Eff.throw (ThrownError noMessageOfUndefined)
      end
  end.

(** The outer [for] loop of [loadMessagesBatch], in batches of 10; it
    needs at most one iteration per id.  The progress it reports to the
    popup through [sendProgress] is no part of the trace. *)
Fixpoint loadBatches (fuel : nat) (i : nat) (messageIds' : list string)
    (messages : list Response) : M (list Response) :=
  if negb (Nat.ltb i (List.length messageIds')) then Eff.ret messages
  else
    match fuel with
    | O => Eff.diverge
    | S fuel' =>
        let batchSize := 10%nat in
        let batch := slice i (i + batchSize) messageIds' in
        messages' <- loadEach batch messages ;;
        (if Nat.ltb (i + batchSize) (List.length messageIds')
         then Eff.sleep RATE_LIMIT_DELAY else Eff.ret tt) ;;;
        loadBatches fuel' (i + batchSize)%nat messageIds' messages'
    end.

(** [loadMessagesBatch(messageIds)] *)
Definition loadMessagesBatch (messageIds' : list string) : M (list Response) :=
  loadBatches (List.length messageIds') 0 messageIds' [].

(** The JSON of a response read as a message: an object that is not a
    message has none of [labelIds], [payload] and [internalDate], and
    [analyzeMessages] never reads the [id] of a message without payload. *)
Definition asMessage (data : Response) : Message :=
  match data with
  | MessageResult message => message
  | _ => mkMessage EmptyString None None NaN
  end.

(** [cacheAnalysis(analysis)], at the key [emailAnalysis]; the
    [lastUpdated] stamp it writes beside it is a key this store does not
    hold.  The write is taken to succeed; a failure of it would be logged
    and swallowed. *)
Definition cacheAnalysis (analysis : Analysis) : M unit :=
  Eff.setStore (Some analysis).

(** [loadAndAnalyzeEmails(maxResults)]; the [catch] rethrows, and the
    progress reports are no part of the trace. *)
Definition loadAndAnalyzeEmails (fuel : nat) (maxResults : Z) : M Analysis :=
  messageIds' <- getAllMessageIds fuel maxResults ;;
  messages <- loadMessagesBatch messageIds' ;;
  let analysis := analyzeMessages (map asMessage messages) in
  cacheAnalysis analysis ;;;
  Eff.ret analysis.

End Flows.

End Background.

(* ================================================================= *)
(** ** [src/utils/gmail-api.js]: class [GmailAPI] *)

Module GmailAPI.

Definition rateLimitDelay : Z := 100.

(** The cached token of the instance. *)
Record TokenCache := mkTokenCache {
  accessToken : option string;
  tokenExpiresAt : option Z
}.

(** [resetToken()] *)
Definition resetToken (_ : TokenCache) : TokenCache := mkTokenCache None None.

(** The messages of the errors [handleError] throws. *)
Definition msgAuthRequired : string := "Требуется повторная авторизация".
Definition msgPermissionDenied : string := "Недостаточно прав доступа".
Definition msgRateLimited : string := "Превышен лимит запросов. Попробуйте позже.".
Definition msgServiceUnavailable : string :=
  "Сервер Gmail временно недоступен. Попробуйте позже.".

(** [`HTTP ${response.status}`] *)
Definition httpStatusText (status : Z) : string :=
  "HTTP " ++ NilEmpty.string_of_int (Z.to_int status).

(** [handleError(response)]: the message of the [Error] thrown for a
    response of the given status, and the token cache afterwards.
    [bodyMessage] is [error.error?.message] of the JSON body. *)
Definition handleError (status : Z) (bodyMessage : option string)
    (cache : TokenCache) : string * TokenCache :=
  let errorMessage :=
    if Js.truthyOpt bodyMessage
    then match bodyMessage with Some m => m | None => httpStatusText status end
    else httpStatusText status in
  if status =? 401 then (msgAuthRequired, resetToken cache)
  else if status =? 403 then (msgPermissionDenied, cache)
  else if status =? 429 then (msgRateLimited, cache)
  else if ((status =? 500) || (status =? 502) || (status =? 503))%bool
  then (msgServiceUnavailable, cache)
  else (errorMessage, cache).

(** [this.accessToken && this.tokenExpiresAt && Date.now() <
    this.tokenExpiresAt], with [now] for what [Date.now()] returns. *)
Definition cachedTokenValid (now : Z) (cache : TokenCache) : bool :=
  (Js.truthyOpt (accessToken cache)
   && match tokenExpiresAt cache with
      | Some expiresAt => negb (expiresAt =? 0) && (now <? expiresAt)
      | None => false
      end)%bool.

Definition msgNoToken : string := "Не удалось получить токен".

(** [getAuthToken(interactive)]: [now] is the clock when the cache is
    looked at, [identity] what the identity service answers if asked, and
    [now'] the clock when its answer is cached.  The result is the token
    or the message of the [Error] of the rejection, with the cache
    afterwards. *)
Definition getAuthToken (now : Z) (identity : Identity) (now' : Z)
    (cache : TokenCache) : (string + option string) * TokenCache :=
  if cachedTokenValid now cache then (inr (accessToken cache), cache)
  else
    match identity with
    | IdentityError message => (inl message, cache)
    | IdentityToken token =>
        if negb (Js.truthyOpt token) then (inl msgNoToken, cache)
        else (inr token, mkTokenCache token (Some (now' + 55 * 60 * 1000)))
    end.

(** The loop of [chunkArray]; [fuel] bounds the number of iterations. *)
Fixpoint chunkLoop {A} (fuel : nat) (array : list A) (size : nat) (i : nat)
    (chunks : list (list A)) : option (list (list A)) :=
  if negb (Nat.ltb i (List.length array)) then Some chunks
  else
    match fuel with
    | O => None
    | S fuel' =>
        chunkLoop fuel' array size (i + size)%nat
                  (chunks ++ [slice i (i + size) array])%list
    end.

(** [chunkArray(array, size)]; [None] when [fuel] iterations do not end the
    loop. *)
Definition chunkArray {A} (fuel : nat) (array : list A) (size : nat)
  : option (list (list A)) :=
  chunkLoop fuel array size 0 [].

(** The condition under which [retryWithBackoff] rethrows at once. *)
Definition rethrowsAtOnce (message : string) : bool :=
  (Js.includes message "авторизации" || Js.includes message "прав доступа")%bool.

Section Flows.
Context {Remote : Type}.

Local Abbreviation World := (Eff.World Remote TokenCache).
Local Abbreviation M := (Eff.M Remote TokenCache).

(** [this.request(endpoint, options)] as a function of the provider: it
    resolves to JSON or rejects with an [Error]. *)
Variable transport : Request -> Remote -> (string + Response) * Remote.

Definition request (req : Request) : M Response :=
  Eff.call transport req.

(** [getMessages(params)]: the query string it builds. *)
Definition getMessages (q : option string) (maxResults : Z)
    (pageToken : option string) : M Response :=
  request
    (ListMessages (if Js.truthyOpt q then q else None)
                  (if maxResults =? 0 then 100 else maxResults)
                  (if Js.truthyOpt pageToken then pageToken else None)).

(** [messages.push(...response.messages)] under [if (response.messages)] *)
Definition pushMessages (messages : list string) (response : Response)
  : list string :=
  match messagesOf response with
  | Some ms => (messages ++ ms)%list
  | None => messages
  end.

(** The [while] loop of [searchMessages]. *)
Fixpoint searchLoop (fuel : nat) (query : string) (maxResults : Z)
    (messages : list string) (pageToken : option string) : M (list string) :=
  if negb (Z.of_nat (List.length messages) <? maxResults)
  then Eff.ret messages
  else
    match fuel with
    | O => Eff.diverge
    | S fuel' =>
        response <- getMessages (Some query)
                      (Z.min 100 (maxResults - Z.of_nat (List.length messages)))
                      pageToken ;;
        let messages' := pushMessages messages response in
        if (negb (Js.truthyOpt (nextPageTokenOf response))
            || (maxResults <=? Z.of_nat (List.length messages')))%bool
        then Eff.ret messages'
        else
          Eff.sleep rateLimitDelay ;;;
          searchLoop fuel' query maxResults messages' (nextPageTokenOf response)
    end.

(** [searchMessages(query, maxResults)] *)
Definition searchMessages (fuel : nat) (query : string) (maxResults : Z)
  : M (list string) :=
  searchLoop fuel query maxResults [] None.

(** The [for (const chunk of chunks)] loop of [batchDelete]. *)
Fixpoint deleteChunks (several : bool) (chunks : list (list string)) : M unit :=
  match chunks with
  | [] => Eff.ret tt
  | chunk :: rest =>
      request (BatchDelete chunk) ;;;
      (if several then Eff.sleep rateLimitDelay else Eff.ret tt) ;;;
      deleteChunks several rest
  end.

Definition msgNothingGiven : string := "Не указаны письма для удаления".

(** [batchDelete(messageIds)] *)
Definition batchDelete (messageIds : list string) : M unit :=
  if Nat.eqb (List.length messageIds) 0
  then Eff.throw (ThrownError msgNothingGiven)
  else
    match chunkArray (List.length messageIds) messageIds 1000 with
    | Some chunks => deleteChunks (Nat.ltb 1 (List.length chunks)) chunks
    | None => Eff.diverge
    end.

(** The [for] loop of [retryWithBackoff]: [n] iterations are left, [i] is
    the loop counter. *)
Fixpoint retryLoop {A} (fn : Remote -> (string + A) * Remote) (n : nat) (i : Z)
    (lastError : Thrown) : M A :=
  match n with
  | O => Eff.throw lastError
  | S n' =>
      res <- Eff.attempt fn ;;
      match res with
      | inr a => Eff.ret a
      | inl message =>
          if rethrowsAtOnce message then Eff.throw (ThrownError message)
          else
            Eff.sleep (2 ^ i * 1000) ;;;
            retryLoop fn n' (i + 1) (ThrownError message)
      end
  end.

(** [retryWithBackoff(fn, maxRetries)] *)
Definition retryWithBackoff {A} (fn : Remote -> (string + A) * Remote)
    (maxRetries : Z) : M A :=
  retryLoop fn (Z.to_nat maxRetries) 0 ThrownUndefined.

End Flows.

End GmailAPI.

(* ================================================================= *)
(** ** Vocabulary of the properties *)

(** [list.reduce((sum, x) => sum + f x, 0)] *)
Definition sumZ {A} (f : A -> Z) (l : list A) : Z :=
  fold_right (fun x acc => f x + acc) 0 l.

(** The number of elements of [l] that satisfy [p]. *)
Definition countZ {A} (p : A -> bool) (l : list A) : Z :=
  Z.of_nat (List.length (filter p l)).

(** The element of [messages] reaches the counters of [parser.js]: it is
    not [null] and has a payload. *)
Definition Parser_scanned (m : option Message) : bool :=
  match m with
  | Some message =>
      match payload message with
      | Some _ => true
      | None => false
      end
  | None => false
  end.

(** The sender [parser.js] files the element under, if any. *)
Definition Parser_senderOf (m : option Message) : option string :=
  match m with
  | Some message =>
      match payload message with
      | Some _ =>
          match fst (Parser.extractSenderInfo message) with
          | Some e => if Js.truthy e then Some e else None
          | None => None
          end
      | None => None
      end
  | None => None
  end.

(** Counted by [parser.js], filed under no sender. *)
Definition Parser_skipped (m : option Message) : bool :=
  (Parser_scanned m
   && match Parser_senderOf m with Some _ => false | None => true end)%bool.

Definition Parser_unread (m : option Message) : bool :=
  match m with
  | Some message => isUnread message
  | None => false
  end.

(** The sender [background.js] files the message under, if any. *)
Definition Background_senderOf (message : Message) : option string :=
  match Background.findHeader message "From" with
  | Some fromHeader =>
      match Background.extractEmail (value fromHeader) with
      | Some e => if Js.truthy e then Some e else None
      | None => None
      end
  | None => None
  end.

(** Counted by [background.js], filed under no sender. *)
Definition Background_skipped (message : Message) : bool :=
  match Background_senderOf message with Some _ => false | None => true end.

(** [0 <= unreadCount <= totalCount] *)
Definition Parser_countsOk (s : Parser.Sender) : Prop :=
  0 <= Parser.unreadCount s <= Parser.totalCount s.

Definition Background_countsOk (s : Background.Sender) : Prop :=
  0 <= Background.unreadCount s <= Background.totalCount s.

(** The link [background.js] reads off the message. *)
Definition Background_linkOf (message : Message) : option string :=
  match Background.findHeader message "List-Unsubscribe" with
  | Some unsubscribeHeader =>
      Background.extractUnsubscribeLink (value unsubscribeHeader)
  | None => None
  end.

(** [unsubscribeLink] is [null] or a non-empty string. *)
Definition linkOk (link : option string) : Prop :=
  link = None \/ Js.truthyOpt link = true.

(** Every record of the map has a link that is [null] or non-empty. *)
Definition Parser_linksOk (acc : Parser.Acc) : Prop :=
  Forall (fun s => linkOk (Parser.unsubscribeLink s))
         (JsMap.values (Parser.sendersMap acc)).

Definition Background_linksOk (acc : Background.Acc) : Prop :=
  Forall (fun s => linkOk (Background.unsubscribeLink s))
         (JsMap.values (Background.sendersMap acc)).

(** A chunk is non-empty and no longer than [size]. *)
Definition chunkOk {A} (size : nat) (chunk : list A) : Prop :=
  chunk <> [] /\ (List.length chunk <= size)%nat.

(** The id lists of the batch-delete requests in a trace, in order. *)
Fixpoint deletedIn (evs : list Event) : list (list string) :=
  match evs with
  | [] => []
  | EvRequest (BatchDelete ids) _ :: evs' => ids :: deletedIn evs'
  | _ :: evs' => deletedIn evs'
  end.

(** [c] occurs in [s]. *)
Fixpoint hasChar (c : ascii) (s : string) : bool :=
  match s with
  | EmptyString => false
  | String d r => (Ascii.eqb d c || hasChar c r)%bool
  end.



(** What follows the first [c] of [s]; [None] when [s] has no [c]. *)
Fixpoint afterFirst (c : ascii) (s : string) : option string :=
  match s with
  | EmptyString => None
  | String d r => if Ascii.eqb d c then Some r else afterFirst c r
  end.

(** What precedes the first [c] of [s]; [None] when [s] has no [c]. *)
Fixpoint beforeFirst (c : ascii) (s : string) : option string :=
  match s with
  | EmptyString => None
  | String d r =>
      if Ascii.eqb d c then Some EmptyString
      else option_map (String d) (beforeFirst c r)
  end.





(** The texts enclosed in angle brackets: for each [<] of the header, from
    left to right, what lies between it and the next [>]. *)
Fixpoint bracketed (headerValue : string) : list string :=
  match headerValue with
  | EmptyString => []
  | String c r =>
      if Ascii.eqb c "<" then
        match beforeFirst ">" r with
        | Some u => u :: bracketed r
        | None => bracketed r
        end
      else bracketed r
  end.

(** [u] is [scheme] followed by something. *)
Definition hasScheme (scheme u : string) : bool :=
  (prefix scheme u && Js.truthy (Js.drop (String.length scheme) u))%bool.

(** An [http://] or [https://] URI. *)
Definition isHttpUri (u : string) : bool :=
  (hasScheme "https://" u || hasScheme "http://" u)%bool.

(** A [mailto:] URI. *)
Definition isMailtoUri (u : string) : bool := hasScheme "mailto:" u.

(** The unsubscribe-link rule in the words of the design: the first
    http(s) URI in angle brackets; if none, the first mailto URI in angle
    brackets; if neither, no link. *)
Definition Spec_unsubscribeLink (headerValue : string) : option string :=
  match find isHttpUri (bracketed headerValue) with
  | Some u => Some u
  | None => find isMailtoUri (bracketed headerValue)
  end.

(** The outcomes of the invocations in a trace, in order: [None] for a
    success, the message for a failure. *)
Fixpoint attemptsIn (evs : list Event) : list (option string) :=
  match evs with
  | [] => []
  | EvAttempt failure :: evs' => failure :: attemptsIn evs'
  | _ :: evs' => attemptsIn evs'
  end.

(** The waits in a trace, in order, in milliseconds. *)
Fixpoint sleepsIn (evs : list Event) : list Z :=
  match evs with
  | [] => []
  | EvSleep ms :: evs' => ms :: sleepsIn evs'
  | _ :: evs' => sleepsIn evs'
  end.

(** [1000 * 2^i] for [i = from, from + 1, ..., from + n - 1] *)
Fixpoint backoffDelays (from : Z) (n : nat) : list Z :=
  match n with
  | O => []
  | S n' => (2 ^ from * 1000) :: backoffDelays (from + 1) n'
  end.

(** What a run of the retry wrapper looks like, with [n] attempts left at
    attempt number [i]: no attempt left surfaces the last failure; a
    success ends the run with its value; a failure of the at-once kind
    ends the run with that failure; any other failure is followed by a
    wait of [2^i] seconds and the rest of the run. *)
Inductive RetryRun {A : Type}
  : Z -> nat -> Thrown -> list Event -> Outcome A -> Prop :=
| run_exhausted i last :
    RetryRun i 0 last [] (Throw last)
| run_success i n last a :
    RetryRun i (S n) last [EvAttempt None] (Ret a)
| run_at_once i n last message :
    GmailAPI.rethrowsAtOnce message = true ->
    RetryRun i (S n) last [EvAttempt (Some message)] (Throw (ThrownError message))
| run_retry i n last message evs out :
    GmailAPI.rethrowsAtOnce message = false ->
    RetryRun (i + 1) n (ThrownError message) evs out ->
    RetryRun i (S n) last
      (EvAttempt (Some message) :: EvSleep (2 ^ i * 1000) :: evs) out.

(** The last failure among the outcomes of the invocations. *)
Definition lastFailure (attempts : list (option string)) : option string :=
  last attempts None.

(** The invocation failed, and not with a failure of the at-once kind. *)
Definition failedRetryably (attempt : option string) : bool :=
  match attempt with
  | Some message => negb (GmailAPI.rethrowsAtOnce message)
  | None => false
  end.

(** The ids of a page; a response without [messages] has none. *)
Definition idsOf (data : Response) : list string :=
  match messagesOf data with
  | Some ms => ms
  | None => []
  end.

(** The response has no continuation cursor. *)
Definition cursorAbsent (data : Response) : bool :=
  negb (Js.truthyOpt (nextPageTokenOf data)).



(** A provider that answers from a script, one response per call. *)
Definition scripted (req : Request) (script : list Response)
  : (string + Response) * list Response :=
  match script with
  | [] => (inl "HTTP 404", [])
  | data :: rest => (inr data, rest)
  end.


(** The messages [parser.js] files under the sender [e], in input order. *)
Fixpoint Parser_filedUnder (e : string) (messages : list (option Message))
  : list Message :=
  match messages with
  | [] => []
  | m :: rest =>
      match m, Parser_senderOf m with
      | Some message, Some e' =>
          if String.eqb e' e then message :: Parser_filedUnder e rest
          else Parser_filedUnder e rest
      | _, _ => Parser_filedUnder e rest
      end
  end.

(** The messages [background.js] files under the sender [e], in input
    order. *)
Fixpoint Background_filedUnder (e : string) (messages : list Message)
  : list Message :=
  match messages with
  | [] => []
  | message :: rest =>
      match Background_senderOf message with
      | Some e' =>
          if String.eqb e' e then message :: Background_filedUnder e rest
          else Background_filedUnder e rest
      | None => Background_filedUnder e rest
      end
  end.

(** The first link of the list that is neither [null] nor empty. *)
Definition firstLink (links : list (option string)) : option string :=
  match find Js.truthyOpt links with
  | Some link => link
  | None => None
  end.

(** The record [parser.js] holds for the sender [e] once the messages
    [filed] have been filed under it. *)
Definition Parser_recordOf (e : string) (filed : list Message)
    (r : Parser.Sender) : Prop :=
  Parser.email r = e
  /\ Parser.senderName r
     = match filed with
       | first :: _ => snd (Parser.extractSenderInfo first)
       | [] => None
       end
  /\ Parser.totalCount r = Z.of_nat (List.length filed)
  /\ Parser.unreadCount r = countZ isUnread filed
  /\ Parser.messageIds r = map id filed
  /\ Parser.unsubscribeLink r
     = firstLink (map Parser.extractUnsubscribeLink filed)
  /\ Parser.isNewsletter r = existsb Parser.isNewsletterMessage filed.

(** The record [background.js] holds for the sender [e] once the messages
    [filed] have been filed under it. *)
Definition Background_recordOf (e : string) (filed : list Message)
    (r : Background.Sender) : Prop :=
  Background.email r = e
  /\ Background.senderName r
     = match filed with
       | first :: _ =>
           match Background.findHeader first "From" with
           | Some fromHeader => Background.extractName (value fromHeader)
           | None => None
           end
       | [] => None
       end
  /\ Background.totalCount r = Z.of_nat (List.length filed)
  /\ Background.unreadCount r = countZ isUnread filed
  /\ Background.messageIds r = map id filed
  /\ Background.unsubscribeLink r = firstLink (map Background_linkOf filed).

(** The enumeration of the delete flow in words: every call asks for up
    to 500 matches of the query at the cursor in hand; a page without a
    cursor is the last one; after any other page the enumeration waits
    the inter-page delay and goes on from the cursor of that page.  The
    ids are those of all the pages, in order. *)
Inductive AllPages (q : option string)
  : option string -> list Event -> list string -> Prop :=
| pages_last cursor data :
    cursorAbsent data = true ->
    AllPages q cursor
      [EvRequest (ListMessages q 500 cursor) (inr data)]
      (idsOf data)
| pages_more cursor data evs ids :
    cursorAbsent data = false ->
    AllPages q (nextPageTokenOf data) evs ids ->
    AllPages q cursor
      (EvRequest (ListMessages q 500 cursor) (inr data)
       :: EvSleep Background.RATE_LIMIT_DELAY :: evs)
      (idsOf data ++ ids).

(** The requests in a trace, in order. *)
Fixpoint requestsIn (evs : list Event) : list Request :=
  match evs with
  | [] => []
  | EvRequest req _ :: evs' => req :: requestsIn evs'
  | _ :: evs' => requestsIn evs'
  end.

(** The JSON of the requests of a trace that succeeded, in order. *)
Fixpoint answersIn (evs : list Event) : list Response :=
  match evs with
  | [] => []
  | EvRequest _ (inr data) :: evs' => data :: answersIn evs'
  | _ :: evs' => answersIn evs'
  end.

(** A listing never returns more ids than it was asked for. *)
Definition honoursLimit {Remote : Type}
    (transport : Request -> Remote -> (string + Response) * Remote) : Prop :=
  forall q maxResults pageToken r,
    match fst (transport (ListMessages q maxResults pageToken) r) with
    | inr data => Z.of_nat (List.length (idsOf data)) <= Z.max 0 maxResults
    | inl _ => True
    end.

(** The waits of a run that last [ms] milliseconds. *)
Definition waitsOf (ms : Z) (evs : list Event) : Z :=
  countZ (fun d => d =? ms) (sleepsIn evs).

(** The messages of the requests of a trace that failed, in order. *)
Fixpoint failuresIn (evs : list Event) : list string :=
  match evs with
  | [] => []
  | EvRequest _ (inl message) :: evs' => message :: failuresIn evs'
  | _ :: evs' => failuresIn evs'
  end.

(** The failure names the rate limit. *)
Definition namesLimit (message : string) : bool := Js.includes message "лимит".

(** What a run of the fetch loops over [batch] leaves behind, when it
    started from [w] with [messages] already fetched: the cache as it was,
    one request per id, the answers appended, [gaps] waits between batches,
    one short wait per answer and one long wait per failure that names the
    rate limit. *)
Definition fetched {Remote : Type} (batch : list string)
    (messages : list Response) (gaps : Z)
    (w : Eff.World Remote (option Background.Analysis))
    (out : Outcome (list Response))
    (w' : Eff.World Remote (option Background.Analysis)) : Prop :=
  Eff.store w' = Eff.store w
  /\ exists evs,
       Eff.trace w' = (Eff.trace w ++ evs)%list
       /\ out = Ret (messages ++ answersIn evs)%list
       /\ requestsIn evs = map GetMessage batch
       /\ waitsOf Background.RATE_LIMIT_DELAY evs = gaps
       /\ waitsOf 200 evs = Z.of_nat (List.length (answersIn evs))
       /\ waitsOf 2000 evs = countZ namesLimit (failuresIn evs).

(** A request for a page of the listing. *)
Definition isListing (req : Request) : bool :=
  match req with
  | ListMessages _ _ _ => true
  | _ => false
  end.

(** The senders of [senders] whose address has the domain [d], in order. *)
Definition Parser_ofDomain (d : option string) (senders : list Parser.Sender)
  : list Parser.Sender :=
  filter (fun s => JsMapU.keyEqb (Parser.domainOf s) d) senders.

(** The group of the domain [d] once [senders] have been grouped. *)
Definition Parser_groupOf (d : option string) (senders : list Parser.Sender)
  : Parser.Group.t :=
  Parser.Group.mk d (Parser_ofDomain d senders)
    (sumZ Parser.totalCount (Parser_ofDomain d senders))
    (sumZ Parser.unreadCount (Parser_ofDomain d senders)).

(** The sender passes every filter that [filters] switches on. *)
Definition Parser_passes (filters : Parser.Filters) (sender : Parser.Sender)
  : bool :=
  (match Parser.searchQuery filters with
   | Some q =>
       if Js.truthy q then Parser.matchesQuery (Js.toLowerCase q) sender
       else true
   | None => true
   end
   && (if Parser.onlyUnread filters then 0 <? Parser.unreadCount sender
       else true)
   && (if Parser.onlyNewsletters filters then Parser.isNewsletter sender
       else true)
   && (if Parser.minEmailCount filters =? 0 then true
       else Parser.minEmailCount filters <=? Parser.totalCount sender))%bool.

(** The order [filterSenders] hands to [sortSenders]. *)
Definition Parser_orderOf (filters : Parser.Filters) : string :=
  match Parser.sortOrder filters with
  | Some order => order
  | None => "desc"
  end.

(* ================================================================= *)
(** ** Sample inputs *)

Module Sample.

(** A message with a payload and no [From] header. *)
Definition noFrom : Message :=
  mkMessage "m0" (Some ["UNREAD"])
    (Some (mkPayload (Some [mkHeader "Subject" "hello"]))) (Num 1).

(** Two messages of one sender, each with its own unsubscribe link. *)
Definition news1 : Message :=
  mkMessage "m1" (Some ["UNREAD"; "INBOX"])
    (Some (mkPayload (Some [mkHeader "From" "News <news@x.com>";
                            mkHeader "List-Unsubscribe" "<https://x.com/u1>"])))
    (Num 10).

Definition news2 : Message :=
  mkMessage "m2" (Some ["INBOX"])
    (Some (mkPayload (Some [mkHeader "From" "News <news@x.com>";
                            mkHeader "List-Unsubscribe" "<https://x.com/u2>"])))
    (Num 20).

(** A message whose only list header is a [Precedence] other than bulk. *)
Definition precedenceList : Message :=
  mkMessage "m3" (Some ["INBOX"])
    (Some (mkPayload (Some [mkHeader "From" "Ann <ann@x.com>";
                            mkHeader "Precedence" "list"])))
    (Num 30).

(** An operation that fails with the error of a 404 response, each time. *)
Definition notFound : unit -> (string + unit) * unit :=
  fun r =>
    (inl (fst (GmailAPI.handleError 404 None (GmailAPI.mkTokenCache None None))), r).

(** An operation that fails with the error of a 403 response, each time. *)
Definition forbidden : unit -> (string + unit) * unit :=
  fun r =>
    (inl (fst (GmailAPI.handleError 403 None (GmailAPI.mkTokenCache None None))), r).

(** A world with nothing cached and nothing done yet. *)
Definition freshApi : Eff.World unit GmailAPI.TokenCache :=
  Eff.mkWorld tt (GmailAPI.mkTokenCache None None) [].





(** The service worker with an analysis cached, facing a mailbox where the
    search for a sender finds nothing. *)
Definition nothingFound : Eff.World (list Response) (option Background.Analysis) :=
  Eff.mkWorld [ListResult None None]
    (Some (Background.analyzeMessages [news1; news2])) [].

(** The service worker with an analysis cached, facing a mailbox where the
    search for a sender finds two messages and the delete succeeds. *)
Definition twoFound : Eff.World (list Response) (option Background.Analysis) :=
  Eff.mkWorld [ListResult (Some ["m1"; "m2"]) None; EmptyResult]
    (Some (Background.analyzeMessages [news1; news2; precedenceList])) [].

(** A provider whose listing returns the first ids of a mailbox of three
    messages, up to the number asked for, and whose other calls succeed. *)
Definition smallMailbox (req : Request) (r : unit) : (string + Response) * unit :=
  match req with
  | ListMessages _ maxResults _ =>
      (inr (ListResult (Some (firstn (Z.to_nat maxResults) ["m1"; "m2"; "m3"]))
                       None), r)
  | GetMessage messageId =>
      (inr (MessageResult
              (mkMessage messageId (Some ["UNREAD"])
                 (Some (mkPayload (Some [mkHeader "From" "News <news@x.com>"])))
                 (Num 1))), r)
  | BatchDelete _ => (inr EmptyResult, r)
  end.

(** The service worker with nothing cached, facing that provider. *)
Definition freshWorker : Eff.World unit (option Background.Analysis) :=
  Eff.mkWorld tt None [].

End Sample.

(* ================================================================= *)
(** ** The regular expressions on sample values *)

Example matchAngle_quoted_name :
  Js.matchAngle (String Js.dquote ("A" ++ String Js.dquote " <a@b.com>"))
  = Some "a@b.com".
Proof. reflexivity. Qed.
Example matchAngle_empty_brackets : Js.matchAngle "<>a@b>" = Some ">a@b".
Proof. reflexivity. Qed.
Example matchNamePrefix_quoted_name :
  Js.matchNamePrefix (String Js.dquote ("A" ++ String Js.dquote " <a@b.com>"))
  = Some (String Js.dquote ("A" ++ String Js.dquote EmptyString)).
Proof. reflexivity. Qed.
Example stripQuotes_pair :
  Js.stripQuotes (String Js.dquote ("A" ++ String Js.dquote EmptyString)) = "A".
Proof. reflexivity. Qed.
Example matchHttp_after_mailto :
  Js.matchHttp "<mailto:x@y.com>, <https://y.com/u>" = Some "https://y.com/u".
Proof. reflexivity. Qed.
Example matchMailto_before_http :
  Js.matchMailto "<mailto:x@y.com>, <https://y.com/u>" = Some "x@y.com".
Proof. reflexivity. Qed.
Example trim_both_ends : Js.trim "  a b  " = "a b".
Proof. reflexivity. Qed.
Example toLowerCase_address : Js.toLowerCase "A@B.Com" = "a@b.com".
Proof. reflexivity. Qed.
Example matchNamePrefix_leading_bracket :
  Js.matchNamePrefix "<a> <b>" = Some "<a>".
Proof. reflexivity. Qed.

(* ================================================================= *)
(** ** Facts about the insertion-ordered map and the sort *)

Section JsMapFacts.
Context {V : Type}.
Implicit Types (m : list (string * V)) (k : string) (v : V).

Lemma JsMap_get_set_same k v m : JsMap.get k (JsMap.set k v m) = Some v.
Proof.
  induction m as [|[k' v'] m IH]; simpl.
  - now rewrite String.eqb_refl.
  - destruct (String.eqb k k') eqn:E; simpl; rewrite E; auto.
Qed.

Lemma JsMap_get_set_other k k' v m :
  k <> k' -> JsMap.get k' (JsMap.set k v m) = JsMap.get k' m.
Proof.
  intros Hne. induction m as [|[k0 v0] m IH]; simpl.
  - destruct (String.eqb k' k) eqn:E; auto.
    apply String.eqb_eq in E. congruence.
  - destruct (String.eqb k k0) eqn:E; simpl.
    + apply String.eqb_eq in E. subst k0.
      destruct (String.eqb k' k) eqn:E'; auto.
      apply String.eqb_eq in E'. congruence.
    + now rewrite IH.
Qed.

Lemma JsMap_has_false k m : JsMap.has k m = false -> JsMap.get k m = None.
Proof. unfold JsMap.has. now destruct (JsMap.get k m). Qed.

Lemma JsMap_has_true k m :
  JsMap.has k m = true -> exists v, JsMap.get k m = Some v.
Proof. unfold JsMap.has. destruct (JsMap.get k m); eauto; discriminate. Qed.

Lemma JsMap_sum_set_new (f : V -> Z) k v m :
  JsMap.get k m = None ->
  sumZ f (JsMap.values (JsMap.set k v m)) = sumZ f (JsMap.values m) + f v.
Proof.
  unfold JsMap.values.
  induction m as [|[k' v'] m IH]; simpl; intros H.
  - lia.
  - destruct (String.eqb k k') eqn:E; [discriminate|].
    simpl. rewrite (IH H). lia.
Qed.

Lemma JsMap_sum_set_old (f : V -> Z) k v v0 m :
  JsMap.get k m = Some v0 ->
  sumZ f (JsMap.values (JsMap.set k v m)) = sumZ f (JsMap.values m) - f v0 + f v.
Proof.
  unfold JsMap.values.
  induction m as [|[k' v'] m IH]; simpl; intros H.
  - discriminate.
  - destruct (String.eqb k k') eqn:E; simpl.
    + inversion H; subst. lia.
    + rewrite (IH H). lia.
Qed.

Lemma JsMap_Forall_set (P : V -> Prop) k v m :
  Forall P (JsMap.values m) -> P v -> Forall P (JsMap.values (JsMap.set k v m)).
Proof.
  induction m as [|[k' v'] m IH]; simpl; intros H Hv.
  - constructor; auto.
  - inversion H; subst.
    destruct (String.eqb k k'); simpl; constructor; auto.
Qed.

Lemma JsMap_get_Forall (P : V -> Prop) k v m :
  Forall P (JsMap.values m) -> JsMap.get k m = Some v -> P v.
Proof.
  induction m as [|[k' v'] m IH]; simpl; intros H Hg.
  - discriminate.
  - inversion H; subst. destruct (String.eqb k k').
    + now inversion Hg; subst.
    + auto.
Qed.

Lemma JsMap_get_In k v m : JsMap.get k m = Some v -> In v (JsMap.values m).
Proof.
  induction m as [|[k' v'] m IH]; simpl; intros Hg.
  - discriminate.
  - destruct (String.eqb k k').
    + left. now inversion Hg.
    + right. auto.
Qed.

End JsMapFacts.

Section SortFacts.
Context {A : Type} (key : A -> Z).

Lemma insertDesc_In x y l : In x (insertDesc key y l) <-> x = y \/ In x l.
Proof.
  induction l as [|z l IH]; simpl.
  - intuition.
  - destruct (key y <? key z); simpl; rewrite ?IH; intuition.
Qed.

Lemma sortDesc_In x l : In x (sortDesc key l) <-> In x l.
Proof.
  induction l as [|y l IH]; simpl.
  - tauto.
  - rewrite insertDesc_In, IH. intuition.
Qed.

Lemma sortDesc_Forall (P : A -> Prop) l :
  Forall P l -> Forall P (sortDesc key l).
Proof.
  rewrite !Forall_forall. intros H x Hx. apply H. now apply sortDesc_In.
Qed.

Lemma sumZ_insertDesc (f : A -> Z) x l :
  sumZ f (insertDesc key x l) = f x + sumZ f l.
Proof.
  induction l as [|y l IH]; simpl; auto.
  destruct (key x <? key y); simpl; auto. rewrite IH. lia.
Qed.

Lemma sumZ_sortDesc (f : A -> Z) l : sumZ f (sortDesc key l) = sumZ f l.
Proof.
  induction l as [|y l IH]; simpl; auto.
  rewrite sumZ_insertDesc. now rewrite IH.
Qed.

End SortFacts.

(* ================================================================= *)
(** ** The aggregation loop, one iteration at a time *)

Lemma Parser_step_skip acc m :
  Parser_senderOf m = None ->
  Parser.sendersMap (Parser.step acc m) = Parser.sendersMap acc
  /\ Parser.accTotal (Parser.step acc m)
     = Parser.accTotal acc + (if Parser_scanned m then 1 else 0)
  /\ Parser.accUnread (Parser.step acc m)
     = Parser.accUnread acc
       + (if (Parser_scanned m && Parser_unread m)%bool then 1 else 0).
Proof.
  unfold Parser_senderOf, Parser_scanned, Parser_unread, Parser.step.
  destruct m as [message|]; [|intros _; simpl; repeat split; lia].
  destruct (payload message); [|intros _; simpl; repeat split; lia].
  destruct (fst (Parser.extractSenderInfo message)) as [e|].
  - destruct (Js.truthy e); [discriminate|]. intros _. simpl.
    destruct (isUnread message); repeat split; lia.
  - intros _. simpl. destruct (isUnread message); repeat split; lia.
Qed.

Lemma Parser_step_file acc m e :
  Parser_senderOf m = Some e ->
  exists message sender0,
    m = Some message
    /\ (JsMap.get e (Parser.sendersMap acc) = Some sender0
        /\ Parser.sendersMap (Parser.step acc m)
           = JsMap.set e
               (Parser.foldInto message (Parser.extractUnsubscribeLink message) sender0)
               (Parser.sendersMap acc)
        \/
        JsMap.get e (Parser.sendersMap acc) = None
        /\ sender0 = Parser.newSender e (snd (Parser.extractSenderInfo message))
        /\ Parser.sendersMap (Parser.step acc m)
           = JsMap.set e
               (Parser.foldInto message (Parser.extractUnsubscribeLink message) sender0)
               (JsMap.set e sender0 (Parser.sendersMap acc)))
    /\ Parser.accTotal (Parser.step acc m) = Parser.accTotal acc + 1
    /\ Parser.accUnread (Parser.step acc m)
       = Parser.accUnread acc + (if isUnread message then 1 else 0).
Proof.
  unfold Parser_senderOf, Parser.step.
  destruct m as [message|]; [|discriminate].
  destruct (payload message); [|discriminate].
  destruct (fst (Parser.extractSenderInfo message)) as [e'|]; [|discriminate].
  destruct (Js.truthy e') eqn:Ht; [|discriminate].
  intros H; inversion H; subst e'. simpl.
  destruct (JsMap.has e (Parser.sendersMap acc)) eqn:Hh; simpl.
  - destruct (JsMap_has_true _ _ Hh) as [s0 Hs0]. rewrite Hs0. simpl.
    exists message, s0. split; [reflexivity|]. split; [left; auto|].
    destruct (isUnread message); split; lia.
  - rewrite JsMap_get_set_same. simpl.
    exists message, (Parser.newSender e (snd (Parser.extractSenderInfo message))).
    split; [reflexivity|]. split.
    + right. split; [now apply JsMap_has_false|]. split; reflexivity.
    + destruct (isUnread message); split; lia.
Qed.

Lemma Background_step_skip acc message :
  Background_senderOf message = None ->
  Background.sendersMap (Background.step acc message) = Background.sendersMap acc
  /\ Background.accTotal (Background.step acc message) = Background.accTotal acc + 1
  /\ Background.accUnread (Background.step acc message)
     = Background.accUnread acc + (if isUnread message then 1 else 0).
Proof.
  unfold Background_senderOf, Background.step.
  destruct (Background.findHeader message "From") as [h|].
  - destruct (Background.extractEmail (value h)) as [e|].
    + destruct (Js.truthy e); [discriminate|]. intros _. simpl.
      destruct (isUnread message); repeat split; lia.
    + intros _. simpl. destruct (isUnread message); repeat split; lia.
  - intros _. simpl. destruct (isUnread message); repeat split; lia.
Qed.

Lemma Background_step_file acc message e :
  Background_senderOf message = Some e ->
  exists sender0,
    (JsMap.get e (Background.sendersMap acc) = Some sender0
     /\ Background.sendersMap (Background.step acc message)
        = JsMap.set e
            (Background.foldInto message (Background_linkOf message) sender0)
            (Background.sendersMap acc)
     \/
     JsMap.get e (Background.sendersMap acc) = None
     /\ (exists n, sender0 = Background.mkSender e n 0 0 [] (Background_linkOf message))
     /\ Background.sendersMap (Background.step acc message)
        = JsMap.set e
            (Background.foldInto message (Background_linkOf message) sender0)
            (JsMap.set e sender0 (Background.sendersMap acc)))
    /\ Background.accTotal (Background.step acc message) = Background.accTotal acc + 1
    /\ Background.accUnread (Background.step acc message)
       = Background.accUnread acc + (if isUnread message then 1 else 0).
Proof.
  unfold Background_senderOf, Background.step, Background_linkOf.
  destruct (Background.findHeader message "From") as [h|]; [|discriminate].
  destruct (Background.extractEmail (value h)) as [e'|]; [|discriminate].
  destruct (Js.truthy e') eqn:Ht; [|discriminate].
  intros H; inversion H; subst e'. simpl.
  destruct (JsMap.has e (Background.sendersMap acc)) eqn:Hh; simpl.
  - destruct (JsMap_has_true _ _ Hh) as [s0 Hs0]. rewrite Hs0. simpl.
    exists s0. split; [left; auto|].
    destruct (isUnread message); split; lia.
  - rewrite JsMap_get_set_same. simpl.
    eexists. split.
    + right. split; [now apply JsMap_has_false|]. split; [eexists; reflexivity|reflexivity].
    + destruct (isUnread message); split; lia.
Qed.

Lemma countZ_cons {A} (p : A -> bool) x l :
  countZ p (x :: l) = (if p x then 1 else 0) + countZ p l.
Proof.
  unfold countZ. cbn [filter]. destruct (p x); cbn [List.length]; lia.
Qed.

Lemma Parser_step_totals acc m :
  Parser.accTotal (Parser.step acc m)
  - sumZ Parser.totalCount (JsMap.values (Parser.sendersMap (Parser.step acc m)))
  = Parser.accTotal acc
    - sumZ Parser.totalCount (JsMap.values (Parser.sendersMap acc))
    + (if Parser_skipped m then 1 else 0)
  /\
  Parser.accUnread (Parser.step acc m)
  - sumZ Parser.unreadCount (JsMap.values (Parser.sendersMap (Parser.step acc m)))
  = Parser.accUnread acc
    - sumZ Parser.unreadCount (JsMap.values (Parser.sendersMap acc))
    + (if (Parser_skipped m && Parser_unread m)%bool then 1 else 0).
Proof.
  unfold Parser_skipped.
  destruct (Parser_senderOf m) as [e|] eqn:Hs.
  - destruct (Parser_step_file acc m e Hs)
      as (message & s0 & Hm & Hmap & Ht & Hu).
    rewrite Ht, Hu, andb_false_r.
    destruct Hmap as [[Hg Hmap] | (Hg & Hs0 & Hmap)]; rewrite Hmap.
    + rewrite !(JsMap_sum_set_old _ _ _ _ _ Hg).
      cbn [Parser.foldInto Parser.totalCount Parser.unreadCount andb].
      destruct (isUnread message); lia.
    + rewrite !(JsMap_sum_set_old _ _ _ _ _ (JsMap_get_set_same _ _ _)).
      rewrite !(JsMap_sum_set_new _ _ _ _ Hg). subst s0.
      cbn [Parser.foldInto Parser.newSender Parser.totalCount Parser.unreadCount andb].
      destruct (isUnread message); lia.
  - destruct (Parser_step_skip acc m Hs) as (Hmap & Ht & Hu).
    rewrite Hmap, Ht, Hu, andb_true_r. lia.
Qed.

Lemma Parser_scan_totals ms : forall acc,
  Parser.accTotal (fold_left Parser.step ms acc)
  - sumZ Parser.totalCount
      (JsMap.values (Parser.sendersMap (fold_left Parser.step ms acc)))
  = Parser.accTotal acc
    - sumZ Parser.totalCount (JsMap.values (Parser.sendersMap acc))
    + countZ Parser_skipped ms
  /\
  Parser.accUnread (fold_left Parser.step ms acc)
  - sumZ Parser.unreadCount
      (JsMap.values (Parser.sendersMap (fold_left Parser.step ms acc)))
  = Parser.accUnread acc
    - sumZ Parser.unreadCount (JsMap.values (Parser.sendersMap acc))
    + countZ (fun m => (Parser_skipped m && Parser_unread m)%bool) ms.
Proof.
  induction ms as [|m ms IH]; intros acc.
  - unfold countZ; simpl. lia.
  - cbn [fold_left]. rewrite !countZ_cons.
    destruct (IH (Parser.step acc m)) as [IHt IHu].
    destruct (Parser_step_totals acc m) as [Ht Hu]. lia.
Qed.

Lemma Background_step_totals acc m :
  Background.accTotal (Background.step acc m)
  - sumZ Background.totalCount
      (JsMap.values (Background.sendersMap (Background.step acc m)))
  = Background.accTotal acc
    - sumZ Background.totalCount (JsMap.values (Background.sendersMap acc))
    + (if Background_skipped m then 1 else 0)
  /\
  Background.accUnread (Background.step acc m)
  - sumZ Background.unreadCount
      (JsMap.values (Background.sendersMap (Background.step acc m)))
  = Background.accUnread acc
    - sumZ Background.unreadCount (JsMap.values (Background.sendersMap acc))
    + (if (Background_skipped m && isUnread m)%bool then 1 else 0).
Proof.
  unfold Background_skipped.
  destruct (Background_senderOf m) as [e|] eqn:Hs.
  - destruct (Background_step_file acc m e Hs) as (s0 & Hmap & Ht & Hu).
    rewrite Ht, Hu. cbn [andb].
    destruct Hmap as [[Hg Hmap] | (Hg & [n Hs0] & Hmap)]; rewrite Hmap.
    + rewrite !(JsMap_sum_set_old _ _ _ _ _ Hg).
      cbn [Background.foldInto Background.totalCount Background.unreadCount].
      destruct (isUnread m); lia.
    + rewrite !(JsMap_sum_set_old _ _ _ _ _ (JsMap_get_set_same _ _ _)).
      rewrite !(JsMap_sum_set_new _ _ _ _ Hg). subst s0.
      cbn [Background.foldInto Background.totalCount Background.unreadCount].
      destruct (isUnread m); lia.
  - destruct (Background_step_skip acc m Hs) as (Hmap & Ht & Hu).
    rewrite Hmap, Ht, Hu. cbn [andb]. lia.
Qed.

Lemma Background_scan_totals ms : forall acc,
  Background.accTotal (fold_left Background.step ms acc)
  - sumZ Background.totalCount
      (JsMap.values (Background.sendersMap (fold_left Background.step ms acc)))
  = Background.accTotal acc
    - sumZ Background.totalCount (JsMap.values (Background.sendersMap acc))
    + countZ Background_skipped ms
  /\
  Background.accUnread (fold_left Background.step ms acc)
  - sumZ Background.unreadCount
      (JsMap.values (Background.sendersMap (fold_left Background.step ms acc)))
  = Background.accUnread acc
    - sumZ Background.unreadCount (JsMap.values (Background.sendersMap acc))
    + countZ (fun m => (Background_skipped m && isUnread m)%bool) ms.
Proof.
  induction ms as [|m ms IH]; intros acc.
  - unfold countZ; simpl. lia.
  - cbn [fold_left]. rewrite !countZ_cons.
    destruct (IH (Background.step acc m)) as [IHt IHu].
    destruct (Background_step_totals acc m) as [Ht Hu]. lia.
Qed.

(** C1 (as amended).  In both implementations the number of senders in
    the stats is the length of the sender sequence, and in [parser.js] the
    number of newsletter senders is the number of records flagged; but the
    message totals are counted while scanning: [totalEmails] is the sum of
    [totalCount] over the sender records plus the number of scanned
    summaries filed under no sender, and [unreadEmails] is the sum of
    [unreadCount] plus the number of those that are unread. *)
Theorem stats_follow_senders_and_skipped :
  (forall messages : list (option Message),
     let r := Parser.analyzeMessages messages in
     Parser.totalEmails (Parser.stats r)
       = sumZ Parser.totalCount (Parser.senders r)
         + countZ Parser_skipped messages
     /\ Parser.unreadEmails (Parser.stats r)
       = sumZ Parser.unreadCount (Parser.senders r)
         + countZ (fun m => (Parser_skipped m && Parser_unread m)%bool) messages
     /\ Parser.totalSenders (Parser.stats r)
       = Z.of_nat (List.length (Parser.senders r))
     /\ Parser.newsletterSenders (Parser.stats r)
       = countZ Parser.isNewsletter (Parser.senders r))
  /\
  (forall messages : list Message,
     let r := Background.analyzeMessages messages in
     Background.totalEmails (Background.stats r)
       = sumZ Background.totalCount (Background.senders r)
         + countZ Background_skipped messages
     /\ Background.unreadEmails (Background.stats r)
       = sumZ Background.unreadCount (Background.senders r)
         + countZ (fun m => (Background_skipped m && isUnread m)%bool) messages
     /\ Background.totalSenders (Background.stats r)
       = Z.of_nat (List.length (Background.senders r))).
Proof.
  split; intros messages r; subst r.
  - unfold Parser.analyzeMessages, Parser.finish, Parser.scan.
    cbn [Parser.stats Parser.senders Parser.totalEmails Parser.unreadEmails
         Parser.totalSenders Parser.newsletterSenders].
    rewrite !sumZ_sortDesc.
    destruct (Parser_scan_totals messages Parser.emptyAcc) as [Ht Hu].
    cbn in Ht, Hu. repeat split; try reflexivity; lia.
  - unfold Background.analyzeMessages, Background.finish, Background.scan.
    cbn [Background.stats Background.senders Background.totalEmails
         Background.unreadEmails Background.totalSenders].
    rewrite !sumZ_sortDesc.
    destruct (Background_scan_totals messages Background.emptyAcc) as [Ht Hu].
    cbn in Ht, Hu. repeat split; try reflexivity; lia.
Qed.

(** C1 (counterexample).  One summary without a [From] header: it is
    counted in [totalEmails], and no sender record holds it. *)
Lemma stats_total_counts_skipped_summary :
  Parser.totalEmails (Parser.stats (Parser.analyzeMessages [Some Sample.noFrom]))
  <> sumZ Parser.totalCount
       (Parser.senders (Parser.analyzeMessages [Some Sample.noFrom])).
Proof. vm_compute. discriminate. Qed.

(* ================================================================= *)
(** ** Invariants of the sender records *)

Lemma Parser_scan_app pre suf :
  Parser.scan (pre ++ suf) = fold_left Parser.step suf (Parser.scan pre).
Proof. unfold Parser.scan. apply fold_left_app. Qed.

Lemma Background_scan_app pre suf :
  Background.scan (pre ++ suf) = fold_left Background.step suf (Background.scan pre).
Proof. unfold Background.scan. apply fold_left_app. Qed.

Lemma Parser_foldInto_counts message link s :
  Parser_countsOk s -> Parser_countsOk (Parser.foldInto message link s).
Proof.
  unfold Parser_countsOk. cbn [Parser.foldInto Parser.totalCount Parser.unreadCount].
  destruct (isUnread message); lia.
Qed.

Lemma Background_foldInto_counts message link s :
  Background_countsOk s -> Background_countsOk (Background.foldInto message link s).
Proof.
  unfold Background_countsOk.
  cbn [Background.foldInto Background.totalCount Background.unreadCount].
  destruct (isUnread message); lia.
Qed.

Lemma Parser_step_counts acc m :
  Forall Parser_countsOk (JsMap.values (Parser.sendersMap acc)) ->
  Forall Parser_countsOk (JsMap.values (Parser.sendersMap (Parser.step acc m))).
Proof.
  intros Hinv. destruct (Parser_senderOf m) as [e|] eqn:Hs.
  - destruct (Parser_step_file acc m e Hs) as (message & s0 & _ & Hmap & _).
    destruct Hmap as [[Hg Hmap] | (Hg & Hs0 & Hmap)]; rewrite Hmap.
    + apply JsMap_Forall_set; auto. apply Parser_foldInto_counts.
      eapply JsMap_get_Forall; eauto.
    + assert (Parser_countsOk s0) by (subst s0; unfold Parser_countsOk; simpl; lia).
      apply JsMap_Forall_set; [apply JsMap_Forall_set; auto|].
      now apply Parser_foldInto_counts.
  - destruct (Parser_step_skip acc m Hs) as (Hmap & _). now rewrite Hmap.
Qed.

Lemma Background_step_counts acc m :
  Forall Background_countsOk (JsMap.values (Background.sendersMap acc)) ->
  Forall Background_countsOk
    (JsMap.values (Background.sendersMap (Background.step acc m))).
Proof.
  intros Hinv. destruct (Background_senderOf m) as [e|] eqn:Hs.
  - destruct (Background_step_file acc m e Hs) as (s0 & Hmap & _).
    destruct Hmap as [[Hg Hmap] | (Hg & [n Hs0] & Hmap)]; rewrite Hmap.
    + apply JsMap_Forall_set; auto. apply Background_foldInto_counts.
      eapply JsMap_get_Forall; eauto.
    + assert (Background_countsOk s0)
        by (subst s0; unfold Background_countsOk; simpl; lia).
      apply JsMap_Forall_set; [apply JsMap_Forall_set; auto|].
      now apply Background_foldInto_counts.
  - destruct (Background_step_skip acc m Hs) as (Hmap & _). now rewrite Hmap.
Qed.

Lemma Parser_fold_counts ms : forall acc,
  Forall Parser_countsOk (JsMap.values (Parser.sendersMap acc)) ->
  Forall Parser_countsOk
    (JsMap.values (Parser.sendersMap (fold_left Parser.step ms acc))).
Proof.
  induction ms as [|m ms IH]; intros acc H; cbn [fold_left]; auto.
  apply IH. now apply Parser_step_counts.
Qed.

Lemma Background_fold_counts ms : forall acc,
  Forall Background_countsOk (JsMap.values (Background.sendersMap acc)) ->
  Forall Background_countsOk
    (JsMap.values (Background.sendersMap (fold_left Background.step ms acc))).
Proof.
  induction ms as [|m ms IH]; intros acc H; cbn [fold_left]; auto.
  apply IH. now apply Background_step_counts.
Qed.

(** C9.  After any prefix of the input has been folded in, and in the
    final result, every sender record has
    [0 <= unreadCount <= totalCount]; in [parser.js] and in
    [background.js]. *)
Theorem unread_at_most_total :
  (forall pre suf : list (option Message),
     Forall Parser_countsOk (JsMap.values (Parser.sendersMap (Parser.scan pre)))
     /\ Forall Parser_countsOk (Parser.senders (Parser.analyzeMessages (pre ++ suf))))
  /\
  (forall pre suf : list Message,
     Forall Background_countsOk
       (JsMap.values (Background.sendersMap (Background.scan pre)))
     /\ Forall Background_countsOk
          (Background.senders (Background.analyzeMessages (pre ++ suf)))).
Proof.
  split; intros pre suf; split.
  - apply Parser_fold_counts. constructor.
  - apply sortDesc_Forall. apply Parser_fold_counts. constructor.
  - apply Background_fold_counts. constructor.
  - apply sortDesc_Forall. apply Background_fold_counts. constructor.
Qed.

Lemma firstAfterLt_sound after s m :
  Js.firstAfterLt after s = Some m ->
  exists pre r, s = pre ++ String "<" r /\ after r = Some m.
Proof.
  induction s as [|c s IH]; simpl; [discriminate|].
  destruct (Ascii.eqb c "<") eqn:E.
  - apply Ascii.eqb_eq in E. subst c.
    destruct (after s) as [m'|] eqn:Ha.
    + intros H; inversion H; subst. exists "", s. auto.
    + intros H. destruct (IH H) as (pre & r & -> & Hr).
      exists (String "<" pre), r. auto.
  - intros H. destruct (IH H) as (pre & r & -> & Hr).
    exists (String c pre), r. auto.
Qed.

Lemma matchHttp_truthy s m : Js.matchHttp s = Some m -> Js.truthy m = true.
Proof.
  intros H. apply firstAfterLt_sound in H. destruct H as (pre & r & _ & H).
  unfold Js.httpAfterLt in H.
  destruct (Js.litBodyGt "https://" r).
  - inversion H; reflexivity.
  - destruct (Js.litBodyGt "http://" r); inversion H; reflexivity.
Qed.

Lemma Background_linkOf_ok message : linkOk (Background_linkOf message).
Proof.
  unfold Background_linkOf, Background.extractUnsubscribeLink.
  destruct (Background.findHeader message "List-Unsubscribe") as [h|];
    [|now left].
  destruct (Js.matchHttp (value h)) as [m|] eqn:E; [|now left].
  right. simpl. eapply matchHttp_truthy; eauto.
Qed.

Lemma Parser_foldInto_link_keep message link s :
  Js.truthyOpt (Parser.unsubscribeLink s) = true ->
  Parser.unsubscribeLink (Parser.foldInto message link s) = Parser.unsubscribeLink s.
Proof.
  intros H. cbn [Parser.foldInto Parser.unsubscribeLink].
  rewrite H, andb_false_r. reflexivity.
Qed.

Lemma Parser_foldInto_linkOk message link s :
  linkOk (Parser.unsubscribeLink s) ->
  linkOk (Parser.unsubscribeLink (Parser.foldInto message link s)).
Proof.
  intros H. cbn [Parser.foldInto Parser.unsubscribeLink].
  destruct (Js.truthyOpt link) eqn:El; cbn [andb]; auto.
  destruct (Js.truthyOpt (Parser.unsubscribeLink s)); cbn [negb]; auto.
  now right.
Qed.

Lemma Background_foldInto_link_keep message link s :
  Js.truthyOpt (Background.unsubscribeLink s) = true ->
  Background.unsubscribeLink (Background.foldInto message link s)
  = Background.unsubscribeLink s.
Proof.
  intros H. cbn [Background.foldInto Background.unsubscribeLink].
  rewrite H, andb_false_r. reflexivity.
Qed.

Lemma Background_foldInto_linkOk message link s :
  linkOk (Background.unsubscribeLink s) ->
  linkOk (Background.unsubscribeLink (Background.foldInto message link s)).
Proof.
  intros H. cbn [Background.foldInto Background.unsubscribeLink].
  destruct (Js.truthyOpt link) eqn:El; cbn [andb]; auto.
  destruct (Js.truthyOpt (Background.unsubscribeLink s)); cbn [negb]; auto.
  now right.
Qed.

Lemma Parser_step_linksOk acc m :
  Parser_linksOk acc -> Parser_linksOk (Parser.step acc m).
Proof.
  unfold Parser_linksOk. intros Hinv.
  destruct (Parser_senderOf m) as [e|] eqn:Hs.
  - destruct (Parser_step_file acc m e Hs) as (message & s0 & _ & Hmap & _).
    destruct Hmap as [[Hg Hmap] | (Hg & Hs0 & Hmap)]; rewrite Hmap.
    + apply JsMap_Forall_set; auto. apply Parser_foldInto_linkOk.
      apply (JsMap_get_Forall _ _ _ _ Hinv Hg).
    + assert (linkOk (Parser.unsubscribeLink s0)) by (subst s0; now left).
      apply JsMap_Forall_set; [apply JsMap_Forall_set; auto|].
      now apply Parser_foldInto_linkOk.
  - destruct (Parser_step_skip acc m Hs) as (Hmap & _). now rewrite Hmap.
Qed.

Lemma Background_step_linksOk acc m :
  Background_linksOk acc -> Background_linksOk (Background.step acc m).
Proof.
  unfold Background_linksOk. intros Hinv.
  destruct (Background_senderOf m) as [e|] eqn:Hs.
  - destruct (Background_step_file acc m e Hs) as (s0 & Hmap & _).
    destruct Hmap as [[Hg Hmap] | (Hg & [n Hs0] & Hmap)]; rewrite Hmap.
    + apply JsMap_Forall_set; auto. apply Background_foldInto_linkOk.
      apply (JsMap_get_Forall _ _ _ _ Hinv Hg).
    + assert (linkOk (Background.unsubscribeLink s0))
        by (subst s0; apply Background_linkOf_ok).
      apply JsMap_Forall_set; [apply JsMap_Forall_set; auto|].
      now apply Background_foldInto_linkOk.
  - destruct (Background_step_skip acc m Hs) as (Hmap & _). now rewrite Hmap.
Qed.

Lemma Parser_scan_linksOk ms : Parser_linksOk (Parser.scan ms).
Proof.
  unfold Parser.scan.
  assert (H : Parser_linksOk Parser.emptyAcc) by constructor.
  revert H. generalize Parser.emptyAcc.
  induction ms as [|m ms IH]; intros acc H; cbn [fold_left]; auto.
  apply IH. now apply Parser_step_linksOk.
Qed.

Lemma Background_scan_linksOk ms : Background_linksOk (Background.scan ms).
Proof.
  unfold Background.scan.
  assert (H : Background_linksOk Background.emptyAcc) by constructor.
  revert H. generalize Background.emptyAcc.
  induction ms as [|m ms IH]; intros acc H; cbn [fold_left]; auto.
  apply IH. now apply Background_step_linksOk.
Qed.

Lemma Parser_step_link_stable acc m e r l :
  Parser_linksOk acc ->
  JsMap.get e (Parser.sendersMap acc) = Some r ->
  Parser.unsubscribeLink r = Some l ->
  exists r', JsMap.get e (Parser.sendersMap (Parser.step acc m)) = Some r'
             /\ Parser.unsubscribeLink r' = Some l.
Proof.
  intros Hinv Hg Hl.
  assert (Ht : Js.truthyOpt (Parser.unsubscribeLink r) = true).
  { destruct (JsMap_get_Forall _ _ _ _ Hinv Hg) as [H|H]; congruence. }
  destruct (Parser_senderOf m) as [e'|] eqn:Hs.
  - destruct (Parser_step_file acc m e' Hs) as (message & s0 & _ & Hmap & _).
    destruct (string_dec e' e) as [->|Hne].
    + destruct Hmap as [[Hg' Hmap] | (Hg' & _)]; [|congruence].
      rewrite Hmap, JsMap_get_set_same. eexists; split; [reflexivity|].
      assert (s0 = r) by congruence. subst s0.
      now rewrite Parser_foldInto_link_keep.
    + exists r. split; auto.
      destruct Hmap as [[_ Hmap] | (_ & _ & Hmap)]; rewrite Hmap;
        now rewrite ?JsMap_get_set_other by auto.
  - destruct (Parser_step_skip acc m Hs) as (Hmap & _). rewrite Hmap. eauto.
Qed.

Lemma Background_step_link_stable acc m e r l :
  Background_linksOk acc ->
  JsMap.get e (Background.sendersMap acc) = Some r ->
  Background.unsubscribeLink r = Some l ->
  exists r', JsMap.get e (Background.sendersMap (Background.step acc m)) = Some r'
             /\ Background.unsubscribeLink r' = Some l.
Proof.
  intros Hinv Hg Hl.
  assert (Ht : Js.truthyOpt (Background.unsubscribeLink r) = true).
  { destruct (JsMap_get_Forall _ _ _ _ Hinv Hg) as [H|H]; congruence. }
  destruct (Background_senderOf m) as [e'|] eqn:Hs.
  - destruct (Background_step_file acc m e' Hs) as (s0 & Hmap & _).
    destruct (string_dec e' e) as [->|Hne].
    + destruct Hmap as [[Hg' Hmap] | (Hg' & _)]; [|congruence].
      rewrite Hmap, JsMap_get_set_same. eexists; split; [reflexivity|].
      assert (s0 = r) by congruence. subst s0.
      now rewrite Background_foldInto_link_keep.
    + exists r. split; auto.
      destruct Hmap as [[_ Hmap] | (_ & _ & Hmap)]; rewrite Hmap;
        now rewrite ?JsMap_get_set_other by auto.
  - destruct (Background_step_skip acc m Hs) as (Hmap & _). rewrite Hmap. eauto.
Qed.

Lemma Parser_fold_link_stable suf : forall acc e r l,
  Parser_linksOk acc ->
  JsMap.get e (Parser.sendersMap acc) = Some r ->
  Parser.unsubscribeLink r = Some l ->
  exists r', JsMap.get e (Parser.sendersMap (fold_left Parser.step suf acc)) = Some r'
             /\ Parser.unsubscribeLink r' = Some l.
Proof.
  induction suf as [|m suf IH]; intros acc e r l Hinv Hg Hl; cbn [fold_left].
  - eauto.
  - destruct (Parser_step_link_stable acc m e r l Hinv Hg Hl) as (r1 & Hg1 & Hl1).
    eapply IH; eauto using Parser_step_linksOk.
Qed.

Lemma Background_fold_link_stable suf : forall acc e r l,
  Background_linksOk acc ->
  JsMap.get e (Background.sendersMap acc) = Some r ->
  Background.unsubscribeLink r = Some l ->
  exists r',
    JsMap.get e (Background.sendersMap (fold_left Background.step suf acc)) = Some r'
    /\ Background.unsubscribeLink r' = Some l.
Proof.
  induction suf as [|m suf IH]; intros acc e r l Hinv Hg Hl; cbn [fold_left].
  - eauto.
  - destruct (Background_step_link_stable acc m e r l Hinv Hg Hl) as (r1 & Hg1 & Hl1).
    eapply IH; eauto using Background_step_linksOk.
Qed.

(** C8.  Once the record of a sender holds a non-null [unsubscribeLink]
    after some prefix of the input, the record of that sender holds the
    same link after any further summaries are folded in; in [parser.js]
    and in [background.js]. *)
Theorem unsubscribeLink_first_write_wins :
  (forall (pre suf : list (option Message)) e r l,
     JsMap.get e (Parser.sendersMap (Parser.scan pre)) = Some r ->
     Parser.unsubscribeLink r = Some l ->
     exists r',
       JsMap.get e (Parser.sendersMap (Parser.scan (pre ++ suf))) = Some r'
       /\ Parser.unsubscribeLink r' = Some l)
  /\
  (forall (pre suf : list Message) e r l,
     JsMap.get e (Background.sendersMap (Background.scan pre)) = Some r ->
     Background.unsubscribeLink r = Some l ->
     exists r',
       JsMap.get e (Background.sendersMap (Background.scan (pre ++ suf))) = Some r'
       /\ Background.unsubscribeLink r' = Some l).
Proof.
  split; intros pre suf e r l Hg Hl.
  - rewrite Parser_scan_app.
    eapply Parser_fold_link_stable; eauto using Parser_scan_linksOk.
  - rewrite Background_scan_app.
    eapply Background_fold_link_stable; eauto using Background_scan_linksOk.
Qed.

Lemma unsubscribeLink_first_write_wins_witness :
  (exists r',
     JsMap.get "news@x.com"
       (Parser.sendersMap (Parser.scan ([Some Sample.news1] ++ [Some Sample.news2])))
     = Some r'
     /\ Parser.unsubscribeLink r' = Some "https://x.com/u1")
  /\
  (exists r',
     JsMap.get "news@x.com"
       (Background.sendersMap (Background.scan ([Sample.news1] ++ [Sample.news2])))
     = Some r'
     /\ Background.unsubscribeLink r' = Some "https://x.com/u1").
Proof.
  split.
  - eapply (proj1 unsubscribeLink_first_write_wins
              [Some Sample.news1] [Some Sample.news2] "news@x.com");
      reflexivity.
  - eapply (proj2 unsubscribeLink_first_write_wins
              [Sample.news1] [Sample.news2] "news@x.com");
      reflexivity.
Defined.

(* ================================================================= *)
(** ** Running a computation, one step at a time *)

Section EffFacts.
Context {Remote Store : Type}.
Implicit Types (w : Eff.World Remote Store).

Lemma bind_inv {A B} (c : Eff.M Remote Store A) (k : A -> Eff.M Remote Store B)
    w out w' :
  Eff.bind c k w = (out, w') ->
  (exists a w1, c w = (Ret a, w1) /\ k a w1 = (out, w'))
  \/ (exists e, c w = (Throw e, w') /\ out = Throw e)
  \/ (c w = (Diverge, w') /\ out = Diverge).
Proof.
  unfold Eff.bind. destruct (c w) as [[a|e|] w1]; intros H.
  - left. eauto.
  - right. left. inversion H; subst. eauto.
  - right. right. inversion H; subst. eauto.
Qed.

Lemma call_inv transport req w out w' :
  Eff.call transport req w = (out, w') ->
  exists res r',
    transport req (Eff.remote w) = (res, r')
    /\ w' = Eff.mkWorld r' (Eff.store w) (Eff.trace w ++ [EvRequest req res])
    /\ out = match res with
             | inr data => Ret data
             | inl message => Throw (ThrownError message)
             end.
Proof.
  unfold Eff.call. destruct (transport req (Eff.remote w)) as [res r'].
  intros H. exists res, r'. destruct res; inversion H; subst; auto.
Qed.

Lemma sleep_inv ms w out w' :
  Eff.sleep ms w = (out, w') ->
  out = Ret tt
  /\ w' = Eff.mkWorld (Eff.remote w) (Eff.store w) (Eff.trace w ++ [EvSleep ms]).
Proof. unfold Eff.sleep, Eff.emit. intros H; inversion H; auto. Qed.

Lemma ret_inv {A} (a : A) w out w' :
  Eff.ret a w = (out, w') -> out = Ret a /\ w' = w.
Proof. unfold Eff.ret. intros H; inversion H; auto. Qed.

Lemma throw_inv {A} e w (out : Outcome A) w' :
  Eff.throw e w = (out, w') -> out = Throw e /\ w' = w.
Proof. unfold Eff.throw. intros H; inversion H; auto. Qed.

End EffFacts.

(* ================================================================= *)
(** ** Chunking and batch delete *)

Section Chunking.
Context {A : Type}.
Implicit Types (array : list A) (chunks : list (list A)).

Lemma slice_firstn i size array :
  slice i (i + size) array = firstn size (skipn i array).
Proof. unfold slice. f_equal. lia. Qed.

Lemma slice_ok i size array :
  (1 <= size)%nat -> (i < List.length array)%nat ->
  chunkOk size (slice i (i + size) array).
Proof.
  intros Hs Hi. rewrite slice_firstn. split.
  - intros H. apply (f_equal (@List.length A)) in H.
    rewrite length_firstn, length_skipn in H. simpl in H. lia.
  - rewrite length_firstn. lia.
Qed.

Lemma slice_then_rest i size array :
  (slice i (i + size) array ++ skipn (i + size) array)%list = skipn i array.
Proof.
  rewrite slice_firstn, Nat.add_comm, <- skipn_skipn. apply firstn_skipn.
Qed.

Lemma chunkLoop_spec fuel : forall array size i chunks,
  (1 <= size)%nat ->
  (List.length array - i <= fuel)%nat ->
  exists rest,
    GmailAPI.chunkLoop fuel array size i chunks = Some (chunks ++ rest)%list
    /\ List.concat rest = skipn i array
    /\ Forall (chunkOk size) rest.
Proof.
  induction fuel as [|fuel IH]; intros array size i chunks Hs Hf;
    cbn [GmailAPI.chunkLoop].
  - destruct (Nat.ltb i (List.length array)) eqn:E.
    + apply Nat.ltb_lt in E. lia.
    + apply Nat.ltb_ge in E. exists []. cbn [negb]. rewrite app_nil_r.
      repeat split; auto. simpl. symmetry. now apply skipn_all2.
  - destruct (Nat.ltb i (List.length array)) eqn:E; cbn [negb].
    + apply Nat.ltb_lt in E.
      destruct (IH array size (i + size)%nat
                   (chunks ++ [slice i (i + size) array])%list Hs)
        as (rest & Hr & Hc & Ho); [lia|].
      exists (slice i (i + size) array :: rest). split; [|split].
      * rewrite Hr, <- app_assoc. reflexivity.
      * cbn [List.concat]. rewrite Hc. apply slice_then_rest.
      * constructor; auto. now apply slice_ok.
    + apply Nat.ltb_ge in E. exists []. rewrite app_nil_r.
      repeat split; auto. simpl. symmetry. now apply skipn_all2.
Qed.

Lemma chunkLoop_more_fuel fuel : forall array size i chunks r,
  GmailAPI.chunkLoop fuel array size i chunks = Some r ->
  forall fuel', (fuel <= fuel')%nat ->
  GmailAPI.chunkLoop fuel' array size i chunks = Some r.
Proof.
  induction fuel as [|fuel IH]; intros array size i chunks r H fuel' Hle;
    cbn [GmailAPI.chunkLoop] in H.
  - destruct fuel'; cbn [GmailAPI.chunkLoop];
      destruct (Nat.ltb i (List.length array)); cbn [negb] in *;
      congruence.
  - destruct fuel' as [|fuel']; [lia|]. cbn [GmailAPI.chunkLoop].
    destruct (Nat.ltb i (List.length array)); cbn [negb] in *; auto.
    apply (IH _ _ _ _ _ H). lia.
Qed.

Lemma chunkArray_total array size :
  (1 <= size)%nat ->
  exists chunks,
    GmailAPI.chunkArray (List.length array) array size = Some chunks
    /\ List.concat chunks = array
    /\ Forall (chunkOk size) chunks.
Proof.
  intros Hs. unfold GmailAPI.chunkArray.
  destruct (chunkLoop_spec (List.length array) array size 0 [] Hs)
    as (rest & Hr & Hc & Ho); [lia|].
  exists rest. auto.
Qed.

Lemma chunkArray_any_fuel fuel array size chunks :
  (1 <= size)%nat ->
  GmailAPI.chunkArray fuel array size = Some chunks ->
  List.concat chunks = array /\ Forall (chunkOk size) chunks.
Proof.
  intros Hs H. destruct (chunkArray_total array size Hs) as (c & Hc & Hcat & Ho).
  unfold GmailAPI.chunkArray in *.
  destruct (Nat.le_ge_cases fuel (List.length array)) as [Hle|Hge].
  - rewrite (chunkLoop_more_fuel _ _ _ _ _ _ H _ Hle) in Hc.
    inversion Hc; subst. auto.
  - rewrite (chunkLoop_more_fuel _ _ _ _ _ _ Hc _ Hge) in H.
    inversion H; subst. auto.
Qed.

End Chunking.

Lemma deletedIn_app evs1 evs2 :
  deletedIn (evs1 ++ evs2) = (deletedIn evs1 ++ deletedIn evs2)%list.
Proof.
  induction evs1 as [|ev evs1 IH]; simpl; auto.
  destruct ev as [[q mr pt|mid|ids] res|ms|f]; simpl; auto.
  now rewrite IH.
Qed.

Section BatchDelete.
Context {Remote : Type}.
Variable transport : Request -> Remote -> (string + Response) * Remote.

Lemma deleteChunks_trace several chunks :
  forall (w : Eff.World Remote GmailAPI.TokenCache) out w',
  GmailAPI.deleteChunks transport several chunks w = (out, w') ->
  exists evs,
    Eff.trace w' = (Eff.trace w ++ evs)%list
    /\ (exists unsent, chunks = (deletedIn evs ++ unsent)%list)
    /\ (out = Ret tt -> deletedIn evs = chunks).
Proof.
  induction chunks as [|chunk rest IH]; intros w out w' H.
  - apply ret_inv in H. destruct H as [-> ->].
    exists []. rewrite app_nil_r. repeat split; auto. now exists [].
  - cbn [GmailAPI.deleteChunks] in H.
    apply bind_inv in H.
    destruct H as [(data & w1 & Hc & H) | [(e & Hc & ->) | (Hc & ->)]];
      apply call_inv in Hc; destruct Hc as (res & r' & _ & Hw & Ho).
    + assert (Hw2 : exists evs0 w2,
                 Eff.trace w2
                 = (Eff.trace w ++ EvRequest (BatchDelete chunk) res :: evs0)%list
                 /\ deletedIn evs0 = []
                 /\ GmailAPI.deleteChunks transport several rest w2 = (out, w')).
      { apply bind_inv in H.
        destruct H as [(u & w2 & Hs & H) | [(e & Hs & ->) | (Hs & ->)]];
          destruct several;
          try (apply sleep_inv in Hs; destruct Hs as [Hs ->]);
          try (apply ret_inv in Hs; destruct Hs as [Hs ->]);
          try discriminate.
        - exists [EvSleep GmailAPI.rateLimitDelay]. eexists. split; [|split; [|exact H]].
          + subst w1. cbn [Eff.trace]. now rewrite <- app_assoc.
          + reflexivity.
        - exists []. eexists. split; [|split; [|exact H]].
          + subst w1. reflexivity.
          + reflexivity. }
      destruct Hw2 as (evs0 & w2 & Ht2 & Hd0 & H2).
      destruct (IH _ _ _ H2) as (evs & Ht & [unsent Hu] & Hr).
      exists (EvRequest (BatchDelete chunk) res :: evs0 ++ evs)%list.
      split; [|split].
      * rewrite Ht, Ht2. rewrite <- app_assoc. reflexivity.
      * exists unsent. cbn [deletedIn]. rewrite deletedIn_app, Hd0.
        cbn [app]. now rewrite <- Hu.
      * intros Hret. cbn [deletedIn]. rewrite deletedIn_app, Hd0.
        cbn [app]. f_equal. auto.
    + exists [EvRequest (BatchDelete chunk) res]. subst w'. cbn [Eff.trace].
      repeat split; auto.
      * now exists rest.
      * discriminate.
    + destruct res; discriminate.
Qed.

Lemma Forall_app_l {A} (P : A -> Prop) l1 l2 :
  Forall P (l1 ++ l2) -> Forall P l1.
Proof. intros H. apply Forall_app in H. tauto. Qed.

Lemma batchDelete_trace messageIds (w : Eff.World Remote GmailAPI.TokenCache) :
  exists evs,
    Eff.trace (snd (GmailAPI.batchDelete transport messageIds w))
    = (Eff.trace w ++ evs)%list
    /\ Forall (chunkOk 1000) (deletedIn evs)
    /\ (exists unsent, messageIds = (List.concat (deletedIn evs) ++ unsent)%list)
    /\ (fst (GmailAPI.batchDelete transport messageIds w) = Ret tt ->
        List.concat (deletedIn evs) = messageIds).
Proof.
  unfold GmailAPI.batchDelete.
  destruct (Nat.eqb (List.length messageIds) 0) eqn:E.
  - exists []. simpl. rewrite app_nil_r. repeat split; auto.
    + now exists messageIds.
    + discriminate.
  - destruct (chunkArray_total messageIds 1000) as (chunks & Hc & Hcat & Hok); [lia|].
    rewrite Hc.
    destruct (GmailAPI.deleteChunks transport (Nat.ltb 1 (List.length chunks)) chunks w)
      as [out w'] eqn:Hrun.
    destruct (deleteChunks_trace _ _ _ _ _ Hrun) as (evs & Ht & [unsent Hu] & Hr).
    exists evs. cbn [fst snd]. split; [exact Ht|]. split; [|split].
    + rewrite Hu in Hok. now apply Forall_app_l in Hok.
    + exists (List.concat unsent). rewrite <- Hcat, Hu at 1.
      now rewrite concat_app.
    + intros H. rewrite (Hr H). exact Hcat.
Qed.

End BatchDelete.

(** C10.  For a chunk size of at least 1, [chunkArray] ends (within one
    iteration per element) and its chunks, concatenated in order, are the
    array, each chunk non-empty and no longer than the size; whatever
    bound on the iterations lets the loop end gives these chunks.  So the
    id lists [batchDelete] sends are non-empty, hold at most 1000 ids,
    make up a prefix of [messageIds] when concatenated, and all of
    [messageIds] when [batchDelete] returns. *)
Theorem chunkArray_partitions :
  (forall (A : Type) (array : list A) (size : nat),
     (1 <= size)%nat ->
     (exists chunks,
        GmailAPI.chunkArray (List.length array) array size = Some chunks)
     /\ (forall fuel chunks,
           GmailAPI.chunkArray fuel array size = Some chunks ->
           List.concat chunks = array /\ Forall (chunkOk size) chunks))
  /\
  (forall (Remote : Type)
          (transport : Request -> Remote -> (string + Response) * Remote)
          (messageIds : list string)
          (w : Eff.World Remote GmailAPI.TokenCache),
     exists evs,
       Eff.trace (snd (GmailAPI.batchDelete transport messageIds w))
       = (Eff.trace w ++ evs)%list
       /\ Forall (chunkOk 1000) (deletedIn evs)
       /\ (exists unsent,
             messageIds = (List.concat (deletedIn evs) ++ unsent)%list)
       /\ (fst (GmailAPI.batchDelete transport messageIds w) = Ret tt ->
           List.concat (deletedIn evs) = messageIds)).
Proof.
  split.
  - intros A array size Hs. split.
    + destruct (chunkArray_total array size Hs) as (chunks & Hc & _). eauto.
    + intros fuel chunks H. now apply chunkArray_any_fuel with (fuel := fuel).
  - intros. apply batchDelete_trace.
Qed.

Lemma chunkArray_partitions_witness :
  (1 <= 3)%nat
  /\ (exists chunks,
        GmailAPI.chunkArray 7 ["a"; "b"; "c"; "d"; "e"; "f"; "g"] 3 = Some chunks)
  /\ List.concat [["a"; "b"; "c"]; ["d"; "e"; "f"]; ["g"]]
     = ["a"; "b"; "c"; "d"; "e"; "f"; "g"]
  /\ Forall (chunkOk 3) [["a"; "b"; "c"]; ["d"; "e"; "f"]; ["g"]].
Proof.
  assert (H3 : (1 <= 3)%nat) by lia.
  split; [exact H3|].
  destruct (proj1 chunkArray_partitions string
              ["a"; "b"; "c"; "d"; "e"; "f"; "g"] 3%nat H3) as [Hex Hall].
  split; [exact Hex|].
  apply (Hall 7%nat). reflexivity.
Defined.

(* ================================================================= *)
(** ** The sender-address and display-name rules *)










(** *** [trim] and trailing white space *)





(** *** The name prefix *)













(** The two sample headers of the design. *)
Example quoted_name_and_address :
  let fromValue := String Js.dquote ("A" ++ String Js.dquote " <a@b.com>") in
  Parser.extractEmail fromValue = Some "a@b.com"
  /\ Parser.extractName fromValue = Some "A"
  /\ Background.extractEmail fromValue = Some "a@b.com"
  /\ Background.extractName fromValue = Some "A".
Proof. repeat split. Qed.

Example bare_address :
  Parser.extractEmail "a@b.com" = Some "a@b.com"
  /\ Parser.extractName "a@b.com" = None.
Proof. repeat split. Qed.




(* ================================================================= *)
(** ** The unsubscribe-link rule *)

Lemma spanNotGt_beforeFirst s :
  match Js.spanNotGt s with
  | (b, EmptyString) => beforeFirst ">" s = None
  | (b, String c post) => beforeFirst ">" s = Some b
  end.
Proof.
  induction s as [|d s IH]; simpl; auto.
  destruct (Ascii.eqb d ">") eqn:E; auto.
  destruct (Js.spanNotGt s) as [b rest]. destruct rest; now rewrite IH.
Qed.

Lemma prefix_nil r : prefix EmptyString r = true.
Proof. now destruct r. Qed.

Lemma litBodyGt_bracket lit : forall r,
  hasChar ">" lit = false ->
  Js.litBodyGt lit r
  = match beforeFirst ">" r with
    | Some u =>
        if hasScheme lit u then Some (Js.drop (String.length lit) u) else None
    | None => None
    end.
Proof.
  unfold Js.litBodyGt, hasScheme.
  induction lit as [|l lit IH]; intros r Hl.
  - cbn [Js.drop String.length]. rewrite prefix_nil.
    pose proof (spanNotGt_beforeFirst r) as H.
    destruct (Js.spanNotGt r) as [b rest].
    destruct rest; rewrite H; destruct b; try rewrite prefix_nil; reflexivity.
  - simpl in Hl. apply orb_false_iff in Hl. destruct Hl as [Hl Hlit].
    destruct r as [|d r]; [reflexivity|].
    cbn [prefix String.length Js.drop beforeFirst].
    destruct (ascii_dec l d) as [<-|Hne].
    + rewrite Hl. rewrite (IH r Hlit).
      destruct (beforeFirst ">" r) as [u|]; cbn [option_map]; auto.
      cbn [prefix Js.drop]. destruct (ascii_dec l l) as [e|n]; [reflexivity|now elim n].
    + destruct (Ascii.eqb d ">"); [reflexivity|].
      destruct (beforeFirst ">" r) as [u|]; cbn [option_map prefix]; auto.
      destruct (ascii_dec l d) as [e|n]; [contradiction|reflexivity].
Qed.

Lemma prefix_drop lit : forall u,
  prefix lit u = true -> lit ++ Js.drop (String.length lit) u = u.
Proof.
  induction lit as [|l lit IH]; intros u H; [reflexivity|].
  destruct u as [|d u]; simpl in H; [discriminate|].
  destruct (ascii_dec l d) as [<-|]; [|discriminate].
  simpl. now rewrite IH.
Qed.

Lemma httpAfterLt_bracket r :
  Js.httpAfterLt r
  = match beforeFirst ">" r with
    | Some u => if isHttpUri u then Some u else None
    | None => None
    end.
Proof.
  unfold Js.httpAfterLt, isHttpUri.
  rewrite !litBodyGt_bracket by reflexivity.
  destruct (beforeFirst ">" r) as [u|]; auto.
  destruct (hasScheme "https://" u) eqn:E1.
  - cbn [orb]. unfold hasScheme in E1. apply andb_true_iff in E1.
    destruct E1 as [E1 _]. now rewrite (prefix_drop "https://" u E1).
  - cbn [orb]. destruct (hasScheme "http://" u) eqn:E2; auto.
    unfold hasScheme in E2. apply andb_true_iff in E2.
    destruct E2 as [E2 _]. cbn [option_map].
    now rewrite (prefix_drop "http://" u E2).
Qed.

Lemma firstAfterLt_find after (P : string -> bool) (g : string -> string) :
  (forall r, after r = match beforeFirst ">" r with
                       | Some u => if P u then Some (g u) else None
                       | None => None
                       end) ->
  forall s, Js.firstAfterLt after s = option_map g (find P (bracketed s)).
Proof.
  intros Hafter. induction s as [|c s IH]; simpl; auto.
  destruct (Ascii.eqb c "<"); auto.
  rewrite Hafter. destruct (beforeFirst ">" s) as [u|]; auto.
  cbn [find]. destruct (P u); auto.
Qed.

Lemma matchHttp_find s : Js.matchHttp s = find isHttpUri (bracketed s).
Proof.
  unfold Js.matchHttp.
  rewrite (firstAfterLt_find Js.httpAfterLt isHttpUri (fun u => u)).
  - now destruct (find isHttpUri (bracketed s)).
  - apply httpAfterLt_bracket.
Qed.

Lemma matchMailto_find s :
  Js.matchMailto s = option_map (Js.drop 7) (find isMailtoUri (bracketed s)).
Proof.
  unfold Js.matchMailto. apply firstAfterLt_find.
  intros r. now rewrite litBodyGt_bracket.
Qed.

Lemma Parser_parseUnsubscribeHeader_rule headerValue :
  Parser.parseUnsubscribeHeader headerValue = Spec_unsubscribeLink headerValue.
Proof.
  unfold Parser.parseUnsubscribeHeader, Spec_unsubscribeLink.
  rewrite matchHttp_find, matchMailto_find.
  destruct (find isHttpUri (bracketed headerValue)); auto.
  destruct (find isMailtoUri (bracketed headerValue)) as [u|] eqn:E; auto.
  cbn [option_map]. f_equal.
  apply find_some in E. destruct E as [_ E].
  unfold isMailtoUri, hasScheme in E. apply andb_true_iff in E.
  destruct E as [E _]. apply (prefix_drop "mailto:" u E).
Qed.

Lemma Background_extractUnsubscribeLink_http headerValue :
  Background.extractUnsubscribeLink headerValue
  = find isHttpUri (bracketed headerValue).
Proof.
  unfold Background.extractUnsubscribeLink. rewrite matchHttp_find.
  now destruct (find isHttpUri (bracketed headerValue)).
Qed.

(** C4 (the failing input).  On a header with a mailto URI only, the
    extraction of [background.js] gives no link, where the rule and
    [parser.js] give the mailto link. *)
Theorem background_ignores_mailto_link :
  Background.extractUnsubscribeLink "<mailto:x@y.com>" = None
  /\ Spec_unsubscribeLink "<mailto:x@y.com>" = Some "mailto:x@y.com"
  /\ Parser.parseUnsubscribeHeader "<mailto:x@y.com>" = Some "mailto:x@y.com"
  /\ Parser.parseUnsubscribeHeader "<mailto:x@y.com>, <https://y.com/u>"
     = Some "https://y.com/u".
Proof. repeat split. Qed.

(* ================================================================= *)
(** ** Bulk-mail indicators *)

Lemma isNewsletterMessage_presence message :
  Parser.isNewsletterMessage message
  = existsb (fun headerName => Js.truthyOpt (Parser.getHeader message headerName))
            Parser.newsletterHeaders.
Proof.
  unfold Parser.isNewsletterMessage.
  destruct (existsb _ Parser.newsletterHeaders) eqn:E; auto.
  unfold Parser.newsletterHeaders in E. cbn [existsb] in E.
  repeat (apply orb_false_iff in E; destruct E as [? E]).
  destruct (Parser.getHeader message "Precedence") as [p|]; auto.
  match goal with H : Js.truthyOpt (Some p) = false |- _ => simpl in H; rewrite H end.
  reflexivity.
Qed.

(** C5 (the failing input).  A summary whose only list header is
    [Precedence: list] counts as a newsletter message, and its sender is
    flagged. *)
Theorem precedence_of_any_value_flags_sender :
  Parser.isNewsletterMessage Sample.precedenceList = true
  /\ map (fun s => (Parser.email s, Parser.isNewsletter s))
         (Parser.senders (Parser.analyzeMessages [Some Sample.precedenceList]))
     = [("ann@x.com", true)].
Proof. split; reflexivity. Qed.

(* ================================================================= *)
(** ** The retry wrapper *)

Section RetryRunFacts.
Context {A : Type}.

Lemma RetryRun_attempts i n last evs (out : Outcome A) :
  RetryRun i n last evs out -> (List.length (attemptsIn evs) <= n)%nat.
Proof. induction 1; simpl; lia. Qed.

Lemma RetryRun_not_diverge i n last evs (out : Outcome A) :
  RetryRun i n last evs out -> out <> Diverge.
Proof. induction 1; auto; discriminate. Qed.

Lemma RetryRun_sleeps i n last evs (out : Outcome A) :
  RetryRun i n last evs out ->
  sleepsIn evs = backoffDelays i (List.length (sleepsIn evs)).
Proof. induction 1; simpl; auto. now f_equal. Qed.

Lemma RetryRun_surfaces_last i n last evs (out : Outcome A) :
  RetryRun i n last evs out ->
  forall e, out = Throw e ->
  match attemptsIn evs with
  | [] => e = last
  | _ => exists message,
           e = ThrownError message
           /\ lastFailure (attemptsIn evs) = Some message
  end.
Proof.
  unfold lastFailure.
  induction 1; intros e He.
  - simpl. congruence.
  - discriminate.
  - simpl. inversion He; subst. eauto.
  - specialize (IHRetryRun e He). cbn [attemptsIn].
    destruct (attemptsIn evs) as [|a l] eqn:Ea.
    + subst e. exists message. simpl. auto.
    + destruct IHRetryRun as (m & -> & Hl). exists m. split; auto.
Qed.

Lemma RetryRun_all_retried i n last evs (out : Outcome A) :
  RetryRun i n last evs out ->
  forallb failedRetryably (attemptsIn evs) = true ->
  List.length (attemptsIn evs) = n /\ sleepsIn evs = backoffDelays i n.
Proof.
  induction 1; cbn [attemptsIn sleepsIn forallb failedRetryably backoffDelays
                    List.length]; intros Hall.
  - auto.
  - discriminate.
  - rewrite H in Hall. discriminate.
  - apply andb_true_iff in Hall. destruct Hall as [_ Hall].
    destruct (IHRetryRun Hall) as [-> ->]. auto.
Qed.

End RetryRunFacts.

Section RetryFacts.
Context {Remote A : Type}.
Variable fn : Remote -> (string + A) * Remote.
Implicit Types (w : Eff.World Remote GmailAPI.TokenCache).

Lemma attempt_inv w out w1 :
  Eff.attempt fn w = (out, w1) ->
  exists res r',
    fn (Eff.remote w) = (res, r')
    /\ out = Ret res
    /\ w1 = Eff.mkWorld r' (Eff.store w)
              (Eff.trace w
               ++ [EvAttempt match res with
                             | inl message => Some message
                             | inr _ => None
                             end]).
Proof.
  unfold Eff.attempt. destruct (fn (Eff.remote w)) as [res r'].
  intros H; inversion H; subst. eauto.
Qed.

Lemma retryLoop_run n : forall i last w out w',
  GmailAPI.retryLoop fn n i last w = (out, w') ->
  exists evs,
    Eff.trace w' = (Eff.trace w ++ evs)%list /\ RetryRun i n last evs out.
Proof.
  induction n as [|n IH]; intros i last w out w' H; cbn [GmailAPI.retryLoop] in H.
  - apply throw_inv in H. destruct H as [-> ->].
    exists []. rewrite app_nil_r. split; auto. constructor.
  - apply bind_inv in H.
    destruct H as [(res & w1 & Ha & H) | [(e & Ha & ->) | (Ha & ->)]];
      apply attempt_inv in Ha; destruct Ha as (res' & r' & Hfn & Hout & ->);
      try discriminate.
    inversion Hout; subst res'. destruct res as [message|a].
    + destruct (GmailAPI.rethrowsAtOnce message) eqn:Hm.
      * apply throw_inv in H. destruct H as [-> ->].
        exists [EvAttempt (Some message)]. split; auto. now constructor.
      * apply bind_inv in H.
        destruct H as [(u & w2 & Hs & H) | [(e & Hs & ->) | (Hs & ->)]];
          apply sleep_inv in Hs; destruct Hs as [Hs ->]; try discriminate.
        destruct (IH _ _ _ _ _ H) as (evs & Ht & Hrun).
        exists (EvAttempt (Some message) :: EvSleep (2 ^ i * 1000) :: evs).
        split; [|now constructor].
        rewrite Ht. cbn [Eff.trace]. now rewrite <- !app_assoc.
    + apply ret_inv in H. destruct H as [-> ->].
      exists [EvAttempt None]. split; auto. constructor.
Qed.

Lemma retry_at_once maxRetries w message r' :
  1 <= maxRetries ->
  fn (Eff.remote w) = (inl message, r') ->
  GmailAPI.rethrowsAtOnce message = true ->
  GmailAPI.retryWithBackoff fn maxRetries w
  = (Throw (ThrownError message),
     Eff.mkWorld r' (Eff.store w) (Eff.trace w ++ [EvAttempt (Some message)])).
Proof.
  intros Hn Hfn Hm. unfold GmailAPI.retryWithBackoff.
  destruct (Z.to_nat maxRetries) as [|n] eqn:En; [lia|].
  cbn [GmailAPI.retryLoop]. unfold Eff.bind, Eff.attempt.
  rewrite Hfn, Hm. reflexivity.
Qed.

End RetryFacts.

(** C2 (as amended).  A run of [retryWithBackoff(fn, maxRetries)] invokes
    [fn] at most [maxRetries] times and does not hang.  A failure whose
    message has the at-once mark, as the one of a 403 response has
    (PermissionDenied), ends the run after that single invocation, with
    no wait.  After a failure of any other kind in attempt [i] (counted
    from 0), such as the ones of the 429, 500, 502 and 503 responses
    (RateLimited, ServiceUnavailable) but also any other request failure,
    the run waits [2^i] seconds (1s, 2s, 4s, ..., also after the final
    attempt) and invokes [fn] again while attempts remain; when every
    invocation fails this way there are exactly [maxRetries] of them.  An
    error the run throws is the last failure observed. *)
Theorem retry_backs_off_unless_rethrown_at_once :
  (forall (Remote A : Type) (fn : Remote -> (string + A) * Remote)
          (maxRetries : Z) (w : Eff.World Remote GmailAPI.TokenCache),
     exists evs,
       Eff.trace (snd (GmailAPI.retryWithBackoff fn maxRetries w))
       = (Eff.trace w ++ evs)%list
       /\ RetryRun 0 (Z.to_nat maxRetries) ThrownUndefined evs
            (fst (GmailAPI.retryWithBackoff fn maxRetries w))
       /\ (List.length (attemptsIn evs) <= Z.to_nat maxRetries)%nat
       /\ fst (GmailAPI.retryWithBackoff fn maxRetries w) <> Diverge
       /\ sleepsIn evs = backoffDelays 0 (List.length (sleepsIn evs))
       /\ (forall message,
             fst (GmailAPI.retryWithBackoff fn maxRetries w)
             = Throw (ThrownError message) ->
             lastFailure (attemptsIn evs) = Some message)
       /\ (forallb failedRetryably (attemptsIn evs) = true ->
           List.length (attemptsIn evs) = Z.to_nat maxRetries
           /\ sleepsIn evs = backoffDelays 0 (Z.to_nat maxRetries)))
  /\ (forall (Remote A : Type) (fn : Remote -> (string + A) * Remote)
             (maxRetries : Z) (w : Eff.World Remote GmailAPI.TokenCache)
             message r',
        1 <= maxRetries ->
        fn (Eff.remote w) = (inl message, r') ->
        GmailAPI.rethrowsAtOnce message = true ->
        GmailAPI.retryWithBackoff fn maxRetries w
        = (Throw (ThrownError message),
           Eff.mkWorld r' (Eff.store w)
             (Eff.trace w ++ [EvAttempt (Some message)])))
  /\ (forall body cache,
        GmailAPI.rethrowsAtOnce (fst (GmailAPI.handleError 403 body cache)) = true
        /\ GmailAPI.rethrowsAtOnce (fst (GmailAPI.handleError 429 body cache)) = false
        /\ GmailAPI.rethrowsAtOnce (fst (GmailAPI.handleError 500 body cache)) = false
        /\ GmailAPI.rethrowsAtOnce (fst (GmailAPI.handleError 502 body cache)) = false
        /\ GmailAPI.rethrowsAtOnce (fst (GmailAPI.handleError 503 body cache)) = false).
Proof.
  split; [|split].
  - intros Remote A fn maxRetries w.
    destruct (GmailAPI.retryWithBackoff fn maxRetries w) as [out w'] eqn:Hrun.
    unfold GmailAPI.retryWithBackoff in Hrun.
    destruct (retryLoop_run fn _ _ _ _ _ _ Hrun) as (evs & Ht & Hr).
    exists evs. cbn [fst snd]. split; [exact Ht|]. split; [exact Hr|].
    split; [eapply RetryRun_attempts; eauto|].
    split; [eapply RetryRun_not_diverge; eauto|].
    split; [eapply RetryRun_sleeps; eauto|].
    split; [|eapply RetryRun_all_retried; eauto].
    intros message Hout.
    pose proof (RetryRun_surfaces_last _ _ _ _ _ Hr _ Hout) as Hl.
    destruct (attemptsIn evs); [discriminate|].
    destruct Hl as (m & Hm & Hl). congruence.
  - intros. now apply retry_at_once.
  - intros body cache. repeat split.
Qed.

(** A 403 ends the run at once; a 404 each time gives the three waits. *)
Lemma retry_backs_off_unless_rethrown_at_once_witness :
  GmailAPI.retryWithBackoff Sample.forbidden 3 Sample.freshApi
  = (Throw (ThrownError GmailAPI.msgPermissionDenied),
     Eff.mkWorld tt (GmailAPI.mkTokenCache None None)
       [EvAttempt (Some GmailAPI.msgPermissionDenied)])
  /\ sleepsIn (Eff.trace (snd (GmailAPI.retryWithBackoff Sample.notFound 3
                                 Sample.freshApi)))
     = [1000; 2000; 4000].
Proof.
  split.
  - apply (proj1 (proj2 retry_backs_off_unless_rethrown_at_once)
             unit unit Sample.forbidden 3 Sample.freshApi
             GmailAPI.msgPermissionDenied tt).
    + lia.
    + reflexivity.
    + reflexivity.
  - destruct (proj1 retry_backs_off_unless_rethrown_at_once
                unit unit Sample.notFound 3 Sample.freshApi)
      as (evs & Ht & _ & _ & _ & _ & _ & Hall).
    rewrite Ht. cbn [Sample.freshApi Eff.trace app].
    apply Hall.
    vm_compute in Ht. subst evs. reflexivity.
Defined.

(** C2 (counterexample).  An operation that fails with the error of a 404
    response, a failure of none of the four named classes, is invoked
    three times, with the three waits. *)
Lemma retry_repeats_other_failures :
  attemptsIn (Eff.trace (snd (GmailAPI.retryWithBackoff Sample.notFound 3 Sample.freshApi)))
  = [Some "HTTP 404"; Some "HTTP 404"; Some "HTTP 404"]
  /\ sleepsIn (Eff.trace (snd (GmailAPI.retryWithBackoff Sample.notFound 3 Sample.freshApi)))
     = [1000; 2000; 4000]
  /\ fst (GmailAPI.retryWithBackoff Sample.notFound 3 Sample.freshApi)
     = Throw (ThrownError "HTTP 404")
  /\ List.length
       (attemptsIn (Eff.trace (snd (GmailAPI.retryWithBackoff Sample.notFound 3
                                      Sample.freshApi))))
     <> 1%nat.
Proof. repeat split. vm_compute. discriminate. Qed.

(** The message of a 401 response does not have the at-once mark: it ends
    in another case of the noun than the mark does. *)
Remark auth_message_lacks_the_mark :
  forall body cache,
    GmailAPI.rethrowsAtOnce (fst (GmailAPI.handleError 401 body cache)) = false.
Proof. reflexivity. Qed.

(* ================================================================= *)
(** ** The paginated enumeration *)

Lemma truthy_token_param tok :
  tok = None \/ Js.truthyOpt tok = true ->
  (if Js.truthyOpt tok then tok else None) = tok.
Proof. intros [-> | ->]; reflexivity. Qed.

Lemma pushIds_app ids data : Background.pushIds ids data = (ids ++ idsOf data)%list.
Proof.
  unfold Background.pushIds, idsOf. destruct (messagesOf data); auto.
  now rewrite app_nil_r.
Qed.

Lemma pushMessages_app ids data :
  GmailAPI.pushMessages ids data = (ids ++ idsOf data)%list.
Proof.
  unfold GmailAPI.pushMessages, idsOf. destruct (messagesOf data); auto.
  now rewrite app_nil_r.
Qed.

Section BackgroundPaging.
Context {Remote : Type}.
Variable transport : Request -> Remote -> (string + Response) * Remote.
Implicit Types (w : Eff.World Remote (option Background.Analysis)).



End BackgroundPaging.

Section ApiPaging.
Context {Remote : Type}.
Variable transport : Request -> Remote -> (string + Response) * Remote.
Implicit Types (w : Eff.World Remote GmailAPI.TokenCache).

Lemma min_page_nonzero cap n :
  n < cap -> (Z.min 100 (cap - n) =? 0) = false.
Proof. intros H. apply Z.eqb_neq. lia. Qed.



End ApiPaging.

Section BackgroundPagingSteps.
Context {Remote : Type}.
Variable transport : Request -> Remote -> (string + Response) * Remote.
Implicit Types (w : Eff.World Remote (option Background.Analysis)).


End BackgroundPagingSteps.

Section Scenario.
Variables (ids1 ids2 ids3 : list string) (t1 t2 : string).
Hypothesis size1 : List.length ids1 = 100%nat.
Hypothesis size2 : List.length ids2 = 100%nat.
Hypothesis cursor1 : Js.truthy t1 = true.
Hypothesis cursor2 : Js.truthy t2 = true.



End Scenario.

Section ApiPagingSteps.
Context {Remote : Type}.
Variable transport : Request -> Remote -> (string + Response) * Remote.
Implicit Types (w : Eff.World Remote GmailAPI.TokenCache).


End ApiPagingSteps.

Section ScenarioApi.
Variables (ids1 ids2 ids3 : list string) (t1 t2 : string).
Hypothesis size1 : List.length ids1 = 100%nat.
Hypothesis size2 : List.length ids2 = 100%nat.
Hypothesis cursor1 : Js.truthy t1 = true.
Hypothesis cursor2 : Js.truthy t2 = true.



End ScenarioApi.



(* ================================================================= *)
(** ** The delete flow *)

Section DeleteFlow.
Context {Remote : Type}.
Variable transport : Request -> Remote -> (string + Response) * Remote.
Implicit Types (w : Eff.World Remote (option Background.Analysis)).

Lemma findAllFrom_quiet fuel : forall email acc tok w out w',
  Background.findAllFrom transport fuel email acc tok w = (out, w') ->
  Eff.store w' = Eff.store w
  /\ exists evs,
       Eff.trace w' = (Eff.trace w ++ evs)%list /\ deletedIn evs = [].
Proof.
  induction fuel as [|fuel IH]; intros email acc tok w out w' H;
    cbn [Background.findAllFrom] in H.
  - inversion H; subst. split; auto. exists []. now rewrite app_nil_r.
  - apply bind_inv in H.
    destruct H as [(data & w1 & Hc & H) | [(e & Hc & ->) | (Hc & ->)]];
      apply call_inv in Hc; destruct Hc as (res & r' & _ & Hw & Ho).
    + subst w1. destruct (Js.truthyOpt (nextPageTokenOf data)).
      * apply bind_inv in H.
        destruct H as [(u & w2 & Hs & H) | [(e & Hs & He) | (Hs & He)]];
          apply sleep_inv in Hs; destruct Hs as [Hs ->]; try discriminate.
        apply IH in H. cbn [Eff.store Eff.trace] in H.
        destruct H as (Hst & evs & Ht & Hd). split; auto.
        eexists. split.
        -- rewrite Ht, <- !app_assoc. reflexivity.
        -- cbn [app deletedIn]. exact Hd.
      * apply ret_inv in H. destruct H as [_ ->]. cbn [Eff.store Eff.trace].
        split; auto. eexists. split; reflexivity.
    + subst w'. cbn [Eff.store Eff.trace]. split; auto.
      eexists. split; reflexivity.
    + destruct res; discriminate.
Qed.

Lemma delete_nothing_found fuel email w w1 :
  Background.findAllFrom transport fuel email [] None w = (Ret [], w1) ->
  Background.deleteEmailsFromSender transport fuel email w
  = (Throw (ThrownError Background.NothingToDelete), w1).
Proof.
  intros H. unfold Background.deleteEmailsFromSender, Eff.bind at 1.
  rewrite H. reflexivity.
Qed.

End DeleteFlow.

Section DeleteLoop.
Context {Remote : Type}.
Variable transport : Request -> Remote -> (string + Response) * Remote.
Implicit Types (w : Eff.World Remote (option Background.Analysis)).

(** The bound [deleteEmailsFromSender] gives its delete loop, one
    iteration per id, always lets the loop end. *)
Lemma deleteBatches_ends fuel : forall i ids w,
  (List.length ids - i <= fuel)%nat ->
  fst (Background.deleteBatches transport fuel i ids w) <> Diverge.
Proof.
  induction fuel as [|fuel IH]; intros i ids w Hfuel;
    cbn [Background.deleteBatches];
    destruct (Nat.ltb i (List.length ids)) eqn:Elt; cbn [negb];
    try (unfold Eff.ret; cbn [fst]; discriminate).
  - apply Nat.ltb_lt in Elt. lia.
  - apply Nat.ltb_lt in Elt.
    unfold Eff.bind at 1. unfold Background.gmailApiRequest, Eff.call.
    destruct (transport _ (Eff.remote w)) as [[m|data] r']; cbn [fst].
    + discriminate.
    + unfold Eff.bind at 1.
      destruct (Nat.ltb (i + 1000) (List.length ids));
        unfold Eff.sleep, Eff.emit, Eff.ret; apply IH; lia.
Qed.

End DeleteLoop.

(** C7.  When the search for the messages of a sender returns no id,
    [deleteEmailsFromSender] fails with the NothingToDelete error, the
    only calls made are those of the search (no batch delete is sent), and
    the cached analysis is what it was. *)
Theorem delete_of_nothing_fails_and_keeps_cache :
  forall (Remote : Type)
         (transport : Request -> Remote -> (string + Response) * Remote)
         fuel email (w w1 : Eff.World Remote (option Background.Analysis)),
    Background.findAllFrom transport fuel email [] None w = (Ret [], w1) ->
    fst (Background.deleteEmailsFromSender transport fuel email w)
    = Throw (ThrownError Background.NothingToDelete)
    /\ Eff.store (snd (Background.deleteEmailsFromSender transport fuel email w))
       = Eff.store w
    /\ exists evs,
         Eff.trace (snd (Background.deleteEmailsFromSender transport fuel email w))
         = (Eff.trace w ++ evs)%list
         /\ deletedIn evs = [].
Proof.
  intros Remote transport fuel email w w1 H.
  rewrite (delete_nothing_found transport fuel email w w1 H). cbn [fst snd].
  split; auto. eapply findAllFrom_quiet; eauto.
Qed.

Lemma delete_of_nothing_fails_and_keeps_cache_witness :
  fst (Background.deleteEmailsFromSender scripted 5 "news@x.com" Sample.nothingFound)
  = Throw (ThrownError Background.NothingToDelete)
  /\ Eff.store (snd (Background.deleteEmailsFromSender scripted 5 "news@x.com"
                       Sample.nothingFound))
     = Eff.store Sample.nothingFound
  /\ exists evs,
       Eff.trace (snd (Background.deleteEmailsFromSender scripted 5 "news@x.com"
                         Sample.nothingFound))
       = (Eff.trace Sample.nothingFound ++ evs)%list
       /\ deletedIn evs = [].
Proof.
  eapply (delete_of_nothing_fails_and_keeps_cache _ scripted 5%nat "news@x.com"
            Sample.nothingFound).
  reflexivity.
Defined.

(* ================================================================= *)
(** * Further properties of the code *)

(* ================================================================= *)
(** ** What a sender record holds *)

Lemma countZ_snoc {A} (p : A -> bool) l x :
  countZ p (l ++ [x]) = countZ p l + (if p x then 1 else 0).
Proof.
  unfold countZ. rewrite filter_app, length_app. cbn [filter].
  destruct (p x); cbn [List.length]; lia.
Qed.

Lemma firstLink_none_or_truthy links :
  firstLink links = None \/ Js.truthyOpt (firstLink links) = true.
Proof.
  unfold firstLink. destruct (find Js.truthyOpt links) as [l|] eqn:E; auto.
  right. now apply find_some in E.
Qed.

Lemma firstLink_snoc links link :
  firstLink (links ++ [link])
  = if Js.truthyOpt (firstLink links) then firstLink links
    else if Js.truthyOpt link then link else None.
Proof.
  unfold firstLink. induction links as [|l links IH]; cbn [app find].
  - destruct (Js.truthyOpt link); reflexivity.
  - destruct (Js.truthyOpt l) eqn:El.
    + now rewrite El.
    + exact IH.
Qed.

Lemma Parser_scan_snoc pre m :
  Parser.scan (pre ++ [m]) = Parser.step (Parser.scan pre) m.
Proof. rewrite Parser_scan_app. reflexivity. Qed.

Lemma Background_scan_snoc pre m :
  Background.scan (pre ++ [m]) = Background.step (Background.scan pre) m.
Proof. rewrite Background_scan_app. reflexivity. Qed.

Lemma Parser_filedUnder_snoc e pre m :
  Parser_filedUnder e (pre ++ [m])
  = (Parser_filedUnder e pre
     ++ match m, Parser_senderOf m with
        | Some message, Some e' => if String.eqb e' e then [message] else []
        | _, _ => []
        end)%list.
Proof.
  induction pre as [|x pre IH]; cbn [app Parser_filedUnder].
  - destruct m as [message|]; [|reflexivity].
    destruct (Parser_senderOf (Some message)) as [e'|]; [|reflexivity].
    destruct (String.eqb e' e); reflexivity.
  - rewrite IH. destruct x as [mx|]; [|reflexivity].
    destruct (Parser_senderOf (Some mx)) as [ex|]; [|reflexivity].
    destruct (String.eqb ex e); reflexivity.
Qed.

Lemma Background_filedUnder_snoc e pre m :
  Background_filedUnder e (pre ++ [m])
  = (Background_filedUnder e pre
     ++ match Background_senderOf m with
        | Some e' => if String.eqb e' e then [m] else []
        | None => []
        end)%list.
Proof.
  induction pre as [|x pre IH]; cbn [app Background_filedUnder].
  - destruct (Background_senderOf m) as [e'|]; [|reflexivity].
    destruct (String.eqb e' e); reflexivity.
  - rewrite IH. destruct (Background_senderOf x) as [ex|]; [|reflexivity].
    destruct (String.eqb ex e); reflexivity.
Qed.

Lemma Parser_recordOf_first e message name :
  name = snd (Parser.extractSenderInfo message) ->
  Parser_recordOf e [message]
    (Parser.foldInto message (Parser.extractUnsubscribeLink message)
       (Parser.newSender e name)).
Proof.
  intros ->. unfold Parser_recordOf, firstLink, countZ.
  cbn [Parser.foldInto Parser.newSender Parser.email Parser.senderName
       Parser.totalCount Parser.unreadCount Parser.messageIds
       Parser.unsubscribeLink Parser.isNewsletter map find existsb filter
       List.length app Js.truthyOpt negb].
  rewrite andb_true_r, orb_false_r.
  repeat split.
  - destruct (isUnread message); reflexivity.
  - destruct (Js.truthyOpt (Parser.extractUnsubscribeLink message)); reflexivity.
  - destruct (Parser.isNewsletterMessage message); reflexivity.
Qed.

Lemma Parser_recordOf_next e filed message r :
  filed <> [] ->
  Parser_recordOf e filed r ->
  Parser_recordOf e (filed ++ [message])
    (Parser.foldInto message (Parser.extractUnsubscribeLink message) r).
Proof.
  intros Hne (He & Hn & Ht & Hu & Hi & Hl & Hnl). unfold Parser_recordOf.
  cbn [Parser.foldInto Parser.email Parser.senderName Parser.totalCount
       Parser.unreadCount Parser.messageIds Parser.unsubscribeLink
       Parser.isNewsletter].
  rewrite He, Hn, Ht, Hu, Hi, Hl, Hnl.
  rewrite !map_app. cbn [map].
  rewrite countZ_snoc, length_app, existsb_app, firstLink_snoc.
  cbn [List.length existsb].
  repeat split.
  - destruct filed; [congruence|reflexivity].
  - lia.
  - destruct (isUnread message); lia.
  - destruct (firstLink_none_or_truthy
                (map Parser.extractUnsubscribeLink filed)) as [E|E]; rewrite E.
    + cbn [Js.truthyOpt negb]. rewrite andb_true_r.
      destruct (Js.truthyOpt (Parser.extractUnsubscribeLink message)); reflexivity.
    + cbn [negb]. now rewrite andb_false_r.
  - rewrite orb_false_r.
    destruct (Parser.isNewsletterMessage message);
      [now rewrite orb_true_r|now rewrite orb_false_r].
Qed.

Lemma Parser_senderOf_some_message m e :
  Parser_senderOf m = Some e -> exists message, m = Some message.
Proof. destruct m; [eauto|discriminate]. Qed.

Lemma Parser_record_characterised messages : forall e,
  match JsMap.get e (Parser.sendersMap (Parser.scan messages)) with
  | Some r =>
      Parser_filedUnder e messages <> []
      /\ Parser_recordOf e (Parser_filedUnder e messages) r
  | None => Parser_filedUnder e messages = []
  end.
Proof.
  induction messages as [|m pre IH] using rev_ind; intros e.
  - reflexivity.
  - rewrite Parser_scan_snoc, Parser_filedUnder_snoc.
    specialize (IH e).
    destruct (Parser_senderOf m) as [e'|] eqn:Hs.
    + destruct (Parser_step_file (Parser.scan pre) m e' Hs)
        as (message & s0 & -> & Hmap & _).
      rewrite ?Hs.
      destruct (String.eqb e' e) eqn:Ee; cbv beta iota.
      * apply String.eqb_eq in Ee. subst e'.
        destruct Hmap as [[Hg Hmap] | (Hg & Hs0 & Hmap)];
          rewrite Hmap, JsMap_get_set_same; rewrite Hg in IH.
        -- destruct IH as [Hne Hrec]. split.
           ++ intros H. apply app_eq_nil in H. destruct H; discriminate.
           ++ now apply Parser_recordOf_next.
        -- rewrite IH. cbn [app]. split; [discriminate|].
           subst s0. now apply Parser_recordOf_first.
      * assert (Hne : e' <> e) by (now apply String.eqb_neq).
        rewrite app_nil_r.
        destruct Hmap as [[_ Hmap] | (_ & _ & Hmap)]; rewrite Hmap;
          rewrite ?JsMap_get_set_other by auto; exact IH.
    + destruct (Parser_step_skip (Parser.scan pre) m Hs) as (Hmap & _).
      rewrite Hmap.
      destruct m as [message|]; rewrite ?Hs, app_nil_r; exact IH.
Qed.

Lemma Background_recordOf_first e message n :
  match Background.findHeader message "From" with
  | Some fromHeader => n = Background.extractName (value fromHeader)
  | None => False
  end ->
  Background_recordOf e [message]
    (Background.foldInto message (Background_linkOf message)
       (Background.mkSender e n 0 0 [] (Background_linkOf message))).
Proof.
  intros Hn. unfold Background_recordOf, firstLink, countZ.
  cbn [Background.foldInto Background.email Background.senderName
       Background.totalCount Background.unreadCount Background.messageIds
       Background.unsubscribeLink map find filter List.length app].
  repeat split.
  - destruct (Background.findHeader message "From"); [exact Hn|contradiction].
  - destruct (isUnread message); reflexivity.
  - destruct (Js.truthyOpt (Background_linkOf message)) eqn:E;
      cbn [negb andb]; [reflexivity|].
    destruct (Background_linkOf_ok message) as [H|H]; congruence.
Qed.

Lemma Background_recordOf_next e filed message r :
  filed <> [] ->
  Background_recordOf e filed r ->
  Background_recordOf e (filed ++ [message])
    (Background.foldInto message (Background_linkOf message) r).
Proof.
  intros Hne (He & Hn & Ht & Hu & Hi & Hl). unfold Background_recordOf.
  cbn [Background.foldInto Background.email Background.senderName
       Background.totalCount Background.unreadCount Background.messageIds
       Background.unsubscribeLink].
  rewrite He, Hn, Ht, Hu, Hi, Hl.
  rewrite !map_app. cbn [map].
  rewrite countZ_snoc, length_app, firstLink_snoc.
  cbn [List.length].
  repeat split.
  - destruct filed; [congruence|reflexivity].
  - lia.
  - destruct (isUnread message); lia.
  - destruct (firstLink_none_or_truthy (map Background_linkOf filed)) as [E|E];
      rewrite E.
    + cbn [Js.truthyOpt negb]. rewrite andb_true_r.
      destruct (Js.truthyOpt (Background_linkOf message)); reflexivity.
    + cbn [negb]. now rewrite andb_false_r.
Qed.

Lemma Background_step_file_name acc message e :
  Background_senderOf message = Some e ->
  JsMap.get e (Background.sendersMap acc) = None ->
  exists n,
    match Background.findHeader message "From" with
    | Some fromHeader => n = Background.extractName (value fromHeader)
    | None => False
    end
    /\ Background.sendersMap (Background.step acc message)
       = JsMap.set e
           (Background.foldInto message (Background_linkOf message)
              (Background.mkSender e n 0 0 [] (Background_linkOf message)))
           (JsMap.set e
              (Background.mkSender e n 0 0 [] (Background_linkOf message))
              (Background.sendersMap acc)).
Proof.
  unfold Background_senderOf, Background.step, Background_linkOf.
  destruct (Background.findHeader message "From") as [h|]; [|discriminate].
  destruct (Background.extractEmail (value h)) as [e'|]; [|discriminate].
  destruct (Js.truthy e') eqn:Ht; [|discriminate].
  intros H Hg; inversion H; subst e'. cbn [negb].
  unfold JsMap.has. rewrite Hg. cbn [negb].
  rewrite JsMap_get_set_same. cbn [Background.sendersMap].
  eexists. split; reflexivity.
Qed.

Lemma Background_record_characterised messages : forall e,
  match JsMap.get e (Background.sendersMap (Background.scan messages)) with
  | Some r =>
      Background_filedUnder e messages <> []
      /\ Background_recordOf e (Background_filedUnder e messages) r
  | None => Background_filedUnder e messages = []
  end.
Proof.
  induction messages as [|m pre IH] using rev_ind; intros e.
  - reflexivity.
  - rewrite Background_scan_snoc, Background_filedUnder_snoc.
    specialize (IH e).
    destruct (Background_senderOf m) as [e'|] eqn:Hs.
    + destruct (String.eqb e' e) eqn:Ee; cbv beta iota.
      * apply String.eqb_eq in Ee. subst e'.
        destruct (JsMap.get e (Background.sendersMap (Background.scan pre)))
          as [s0|] eqn:Hg.
        -- destruct (Background_step_file (Background.scan pre) m e Hs)
             as (s1 & Hmap & _).
           destruct Hmap as [[Hg' Hmap] | (Hg' & _)]; [|congruence].
           rewrite Hmap, JsMap_get_set_same.
           assert (s1 = s0) by congruence. subst s1.
           destruct IH as [Hne Hrec]. split.
           ++ intros H. apply app_eq_nil in H. destruct H; discriminate.
           ++ now apply Background_recordOf_next.
        -- destruct (Background_step_file_name (Background.scan pre) m e Hs Hg)
             as (n & Hn & Hmap).
           rewrite Hmap, JsMap_get_set_same, IH. cbn [app].
           split; [discriminate|]. now apply Background_recordOf_first.
      * assert (Hne : e' <> e) by (now apply String.eqb_neq).
        rewrite app_nil_r.
        destruct (Background_step_file (Background.scan pre) m e' Hs)
          as (s1 & Hmap & _).
        destruct Hmap as [[_ Hmap] | (_ & _ & Hmap)]; rewrite Hmap;
          rewrite ?JsMap_get_set_other by auto; exact IH.
    + destruct (Background_step_skip (Background.scan pre) m Hs) as (Hmap & _).
      rewrite Hmap, app_nil_r. exact IH.
Qed.

(* ================================================================= *)
(** ** One record per sender *)

Section JsMapKeys.
Context {V : Type}.
Implicit Types (m : list (string * V)) (k : string) (v : V).

Lemma JsMap_keys_set k v m :
  map fst (JsMap.set k v m)
  = if JsMap.has k m then map fst m else (map fst m ++ [k])%list.
Proof.
  unfold JsMap.has. induction m as [|[k' v'] m IH]; cbn [JsMap.set JsMap.get map fst app].
  - reflexivity.
  - destruct (String.eqb k k') eqn:E; cbn [map fst].
    + reflexivity.
    + rewrite IH. destruct (JsMap.get k m); reflexivity.
Qed.

Lemma JsMap_get_none_keys k m : JsMap.get k m = None -> ~ In k (map fst m).
Proof.
  induction m as [|[k' v'] m IH]; cbn [JsMap.get map fst]; intros H; [tauto|].
  destruct (String.eqb k k') eqn:E; [discriminate|].
  apply String.eqb_neq in E. intros [Hk|Hk]; [congruence|now apply IH].
Qed.

Lemma JsMap_get_some_keys k v m : JsMap.get k m = Some v -> In k (map fst m).
Proof.
  induction m as [|[k' v'] m IH]; cbn [JsMap.get map fst]; intros H;
    [discriminate|].
  destruct (String.eqb k k') eqn:E.
  - apply String.eqb_eq in E. now left.
  - right. now apply IH.
Qed.

Lemma JsMap_NoDup_set k v m :
  NoDup (map fst m) -> NoDup (map fst (JsMap.set k v m)).
Proof.
  intros H. rewrite JsMap_keys_set.
  destruct (JsMap.has k m) eqn:E; auto.
  apply JsMap_has_false in E. apply JsMap_get_none_keys in E.
  apply NoDup_app; auto.
  - constructor; [tauto|constructor].
  - intros x Hx [<-|[]]. tauto.
Qed.

Lemma JsMap_values_get v m :
  NoDup (map fst m) -> In v (JsMap.values m) ->
  exists k, JsMap.get k m = Some v.
Proof.
  unfold JsMap.values.
  induction m as [|[k' v'] m IH]; cbn [map fst snd JsMap.get]; intros Hnd Hin;
    [contradiction|].
  inversion Hnd as [|? ? Hk Hnd']; subst.
  destruct Hin as [->|Hin].
  - exists k'. now rewrite String.eqb_refl.
  - destruct (IH Hnd' Hin) as (k & Hg). exists k.
    destruct (String.eqb k k') eqn:E; auto.
    apply String.eqb_eq in E. subst k'.
    exfalso. apply Hk. eapply JsMap_get_some_keys; eauto.
Qed.

End JsMapKeys.

(* ================================================================= *)
(** ** Lower case and trimming *)

















Lemma Parser_scan_keys messages :
  NoDup (map fst (Parser.sendersMap (Parser.scan messages))).
Proof.
  induction messages as [|m pre IH] using rev_ind.
  - constructor.
  - rewrite Parser_scan_snoc.
    destruct (Parser_senderOf m) as [e|] eqn:Hs.
    + destruct (Parser_step_file (Parser.scan pre) m e Hs)
        as (message & s0 & _ & Hmap & _).
      destruct Hmap as [[_ Hmap] | (_ & _ & Hmap)]; rewrite Hmap;
        auto using JsMap_NoDup_set.
    + destruct (Parser_step_skip (Parser.scan pre) m Hs) as (Hmap & _).
      now rewrite Hmap.
Qed.

Lemma Background_scan_keys messages :
  NoDup (map fst (Background.sendersMap (Background.scan messages))).
Proof.
  induction messages as [|m pre IH] using rev_ind.
  - constructor.
  - rewrite Background_scan_snoc.
    destruct (Background_senderOf m) as [e|] eqn:Hs.
    + destruct (Background_step_file (Background.scan pre) m e Hs)
        as (s0 & Hmap & _).
      destruct Hmap as [[_ Hmap] | (_ & _ & Hmap)]; rewrite Hmap;
        auto using JsMap_NoDup_set.
    + destruct (Background_step_skip (Background.scan pre) m Hs) as (Hmap & _).
      now rewrite Hmap.
Qed.

(* ================================================================= *)
(** ** The order of the result *)

Section SortOrder.
Context {A : Type} (key : A -> Z).

Lemma insertDesc_perm x l : Permutation (insertDesc key x l) (x :: l).
Proof.
  induction l as [|y l IH]; cbn [insertDesc]; auto.
  destruct (key x <? key y); auto.
  rewrite IH. apply perm_swap.
Qed.

Lemma sortDesc_perm l : Permutation (sortDesc key l) l.
Proof.
  induction l as [|x l IH]; cbn [sortDesc fold_right]; auto.
  fold (sortDesc key l). rewrite insertDesc_perm. now constructor.
Qed.

Lemma insertDesc_sorted x l :
  StronglySorted (fun a b => key b <= key a) l ->
  StronglySorted (fun a b => key b <= key a) (insertDesc key x l).
Proof.
  induction 1 as [|y l Hs IH Hy]; cbn [insertDesc].
  - repeat constructor.
  - destruct (key x <? key y) eqn:E.
    + apply Z.ltb_lt in E. constructor; auto.
      rewrite Forall_forall in *. intros z Hz.
      apply insertDesc_In in Hz. destruct Hz as [->|Hz]; [lia|auto].
    + apply Z.ltb_ge in E. constructor; [constructor; auto|].
      constructor; auto.
      rewrite Forall_forall in *. intros z Hz. specialize (Hy z Hz). lia.
Qed.

Lemma sortDesc_sorted l :
  StronglySorted (fun a b => key b <= key a) (sortDesc key l).
Proof.
  induction l as [|x l IH]; cbn [sortDesc fold_right]; [constructor|].
  now apply insertDesc_sorted.
Qed.

Lemma insertDesc_stable k x l :
  filter (fun a => key a =? k) (insertDesc key x l)
  = filter (fun a => key a =? k) (x :: l).
Proof.
  induction l as [|y l IH]; cbn [insertDesc]; auto.
  destruct (key x <? key y) eqn:E; auto.
  apply Z.ltb_lt in E. cbn [filter] in IH |- *. rewrite IH.
  destruct (key x =? k) eqn:Ex; auto.
  apply Z.eqb_eq in Ex.
  destruct (key y =? k) eqn:Ey; auto.
  apply Z.eqb_eq in Ey. lia.
Qed.

Lemma sortDesc_stable k l :
  filter (fun a => key a =? k) (sortDesc key l) = filter (fun a => key a =? k) l.
Proof.
  induction l as [|x l IH]; cbn [sortDesc fold_right]; auto.
  fold (sortDesc key l). rewrite insertDesc_stable. cbn [filter].
  now rewrite IH.
Qed.

End SortOrder.






Lemma Parser_sender_in_result messages s :
  In s (Parser.senders (Parser.analyzeMessages messages)) <->
  JsMap.get (Parser.email s) (Parser.sendersMap (Parser.scan messages)) = Some s.
Proof.
  unfold Parser.analyzeMessages, Parser.finish. cbn [Parser.senders].
  rewrite sortDesc_In. split.
  - intros Hin.
    destruct (JsMap_values_get _ _ (Parser_scan_keys messages) Hin) as (k & Hg).
    pose proof (Parser_record_characterised messages k) as Hc.
    rewrite Hg in Hc. destruct Hc as [_ Hrec].
    destruct Hrec as [He _]. now rewrite He.
  - apply JsMap_get_In.
Qed.

Lemma Background_sender_in_result messages s :
  In s (Background.senders (Background.analyzeMessages messages)) <->
  JsMap.get (Background.email s)
    (Background.sendersMap (Background.scan messages)) = Some s.
Proof.
  unfold Background.analyzeMessages, Background.finish. cbn [Background.senders].
  rewrite sortDesc_In. split.
  - intros Hin.
    destruct (JsMap_values_get _ _ (Background_scan_keys messages) Hin) as (k & Hg).
    pose proof (Background_record_characterised messages k) as Hc.
    rewrite Hg in Hc. destruct Hc as [_ Hrec].
    destruct Hrec as [He _]. now rewrite He.
  - apply JsMap_get_In.
Qed.

(** X1.  The result of [analyzeMessages] of [parser.js] has a record for a
    sender exactly when some message is filed under it, and the record
    holds what those messages give, in input order: their number, the
    number of unread ones, their ids, the name read off the first one,
    the first non-empty unsubscribe link, and the newsletter flag of any
    of them. *)
Theorem parser_record_holds_what_was_filed :
  forall messages : list (option Message),
    (forall s,
       In s (Parser.senders (Parser.analyzeMessages messages)) ->
       Parser_filedUnder (Parser.email s) messages <> []
       /\ Parser_recordOf (Parser.email s)
            (Parser_filedUnder (Parser.email s) messages) s)
    /\ (forall e,
          Parser_filedUnder e messages <> [] ->
          exists s,
            In s (Parser.senders (Parser.analyzeMessages messages))
            /\ Parser.email s = e).
Proof.
  intros messages. split.
  - intros s Hin. apply Parser_sender_in_result in Hin.
    pose proof (Parser_record_characterised messages (Parser.email s)) as Hc.
    now rewrite Hin in Hc.
  - intros e Hne.
    pose proof (Parser_record_characterised messages e) as Hc.
    destruct (JsMap.get e (Parser.sendersMap (Parser.scan messages)))
      as [s|] eqn:Hg; [|contradiction].
    destruct Hc as [_ Hrec]. exists s.
    assert (He : Parser.email s = e) by apply Hrec.
    split; auto. apply Parser_sender_in_result. now rewrite He.
Qed.

Lemma parser_record_holds_what_was_filed_witness :
  exists s,
    In s (Parser.senders
            (Parser.analyzeMessages [Some Sample.news1; Some Sample.news2]))
    /\ Parser.email s = "news@x.com".
Proof.
  apply (proj2 (parser_record_holds_what_was_filed
                  [Some Sample.news1; Some Sample.news2]) "news@x.com").
  vm_compute. discriminate.
Defined.

(** X2.  The same for [analyzeMessages] of [background.js]: a record for a
    sender exactly when some message is filed under it, holding the
    number of those messages, the number of unread ones, their ids in
    input order, the name read off the first one and the first non-empty
    http(s) unsubscribe link. *)
Theorem background_record_holds_what_was_filed :
  forall messages : list Message,
    (forall s,
       In s (Background.senders (Background.analyzeMessages messages)) ->
       Background_filedUnder (Background.email s) messages <> []
       /\ Background_recordOf (Background.email s)
            (Background_filedUnder (Background.email s) messages) s)
    /\ (forall e,
          Background_filedUnder e messages <> [] ->
          exists s,
            In s (Background.senders (Background.analyzeMessages messages))
            /\ Background.email s = e).
Proof.
  intros messages. split.
  - intros s Hin. apply Background_sender_in_result in Hin.
    pose proof (Background_record_characterised messages (Background.email s)) as Hc.
    now rewrite Hin in Hc.
  - intros e Hne.
    pose proof (Background_record_characterised messages e) as Hc.
    destruct (JsMap.get e (Background.sendersMap (Background.scan messages)))
      as [s|] eqn:Hg; [|contradiction].
    destruct Hc as [_ Hrec]. exists s.
    assert (He : Background.email s = e) by apply Hrec.
    split; auto. apply Background_sender_in_result. now rewrite He.
Qed.

Lemma background_record_holds_what_was_filed_witness :
  exists s,
    In s (Background.senders
            (Background.analyzeMessages [Sample.news1; Sample.news2]))
    /\ Background.email s = "news@x.com".
Proof.
  apply (proj2 (background_record_holds_what_was_filed
                  [Sample.news1; Sample.news2]) "news@x.com").
  vm_compute. discriminate.
Defined.

Lemma In_keys_get {V} (m : list (string * V)) k :
  In k (map fst m) -> exists v, JsMap.get k m = Some v.
Proof.
  induction m as [|[k' v'] m IH]; cbn [map fst JsMap.get]; [contradiction|].
  destruct (String.eqb k k') eqn:E; [eauto|].
  apply String.eqb_neq in E. intros [H|H]; [congruence|auto].
Qed.


(** X4.  The senders of a result are the records of the map in descending
    order of [totalCount], and records with the same [totalCount] keep the
    order in which the map first saw their senders. *)
Theorem senders_sorted_by_count_ties_in_first_seen_order :
  (forall messages : list (option Message),
     let records := JsMap.values (Parser.sendersMap (Parser.scan messages)) in
     let result := Parser.senders (Parser.analyzeMessages messages) in
     Permutation result records
     /\ StronglySorted
          (fun a b => Parser.totalCount b <= Parser.totalCount a) result
     /\ forall n,
          filter (fun s => Parser.totalCount s =? n) result
          = filter (fun s => Parser.totalCount s =? n) records)
  /\
  (forall messages : list Message,
     let records :=
       JsMap.values (Background.sendersMap (Background.scan messages)) in
     let result := Background.senders (Background.analyzeMessages messages) in
     Permutation result records
     /\ StronglySorted
          (fun a b => Background.totalCount b <= Background.totalCount a) result
     /\ forall n,
          filter (fun s => Background.totalCount s =? n) result
          = filter (fun s => Background.totalCount s =? n) records).
Proof.
  split; intros messages records result; subst records result;
    (split; [apply sortDesc_perm|split; [apply sortDesc_sorted|]]);
    intros n; apply sortDesc_stable.
Qed.


(* ================================================================= *)
(** ** The order of the input *)

Lemma Parser_filedUnder_perm e l l' :
  Permutation l l' ->
  Permutation (Parser_filedUnder e l) (Parser_filedUnder e l').
Proof.
  induction 1 as [|x l l' Hp IH|x y l|l l' l'' H1 IH1 H2 IH2];
    cbn [Parser_filedUnder].
  - constructor.
  - destruct x as [mx|]; auto.
    destruct (Parser_senderOf (Some mx)) as [ex|]; auto.
    destruct (String.eqb ex e); auto.
  - destruct y as [my|], x as [mx|]; auto;
      try (destruct (Parser_senderOf (Some my)) as [ey|]; auto;
           destruct (String.eqb ey e); auto);
      try (destruct (Parser_senderOf (Some mx)) as [ex|]; auto;
           destruct (String.eqb ex e); auto).
    apply perm_swap.
  - etransitivity; eauto.
Qed.

Lemma Background_filedUnder_perm e l l' :
  Permutation l l' ->
  Permutation (Background_filedUnder e l) (Background_filedUnder e l').
Proof.
  induction 1 as [|x l l' Hp IH|x y l|l l' l'' H1 IH1 H2 IH2];
    cbn [Background_filedUnder].
  - constructor.
  - destruct (Background_senderOf x) as [ex|]; auto.
    destruct (String.eqb ex e); auto.
  - destruct (Background_senderOf y) as [ey|];
      [destruct (String.eqb ey e)|];
      (destruct (Background_senderOf x) as [ex|];
       [destruct (String.eqb ex e)|]); auto.
    apply perm_swap.
  - etransitivity; eauto.
Qed.

Lemma filter_perm {A} (p : A -> bool) l l' :
  Permutation l l' -> Permutation (filter p l) (filter p l').
Proof.
  induction 1 as [|x l l' Hp IH|x y l|l l' l'' H1 IH1 H2 IH2]; cbn [filter].
  - constructor.
  - destruct (p x); auto.
  - destruct (p y), (p x); auto. apply perm_swap.
  - etransitivity; eauto.
Qed.

Lemma countZ_perm {A} (p : A -> bool) l l' :
  Permutation l l' -> countZ p l = countZ p l'.
Proof.
  intros H. unfold countZ. f_equal. apply Permutation_length.
  now apply filter_perm.
Qed.

Lemma existsb_perm {A} (p : A -> bool) l l' :
  Permutation l l' -> existsb p l = existsb p l'.
Proof.
  intros H. apply eq_true_iff_eq. rewrite !existsb_exists.
  split; intros (x & Hx & Hp); exists x; split; auto.
  - eapply Permutation_in; eauto.
  - eapply Permutation_in; [symmetry|]; eauto.
Qed.

Lemma Parser_accTotal_counts messages :
  Parser.accTotal (Parser.scan messages) = countZ Parser_scanned messages
  /\ Parser.accUnread (Parser.scan messages)
     = countZ (fun m => (Parser_scanned m && Parser_unread m)%bool) messages.
Proof.
  induction messages as [|m pre [IHt IHu]] using rev_ind.
  - split; reflexivity.
  - rewrite Parser_scan_snoc, !countZ_snoc.
    destruct (Parser_senderOf m) as [e|] eqn:Hs.
    + destruct (Parser_step_file (Parser.scan pre) m e Hs)
        as (message & s0 & -> & _ & Ht & Hu).
      assert (Hsc : Parser_scanned (Some message) = true).
      { unfold Parser_senderOf in Hs. unfold Parser_scanned.
        destruct (payload message); [reflexivity|discriminate]. }
      rewrite Ht, Hu, Hsc, IHt, IHu. cbn [andb Parser_unread]. auto.
    + destruct (Parser_step_skip (Parser.scan pre) m Hs) as (_ & Ht & Hu).
      rewrite Ht, Hu, IHt, IHu. auto.
Qed.

Lemma Background_accTotal_counts messages :
  Background.accTotal (Background.scan messages) = Z.of_nat (List.length messages)
  /\ Background.accUnread (Background.scan messages) = countZ isUnread messages.
Proof.
  induction messages as [|m pre [IHt IHu]] using rev_ind.
  - split; reflexivity.
  - rewrite Background_scan_snoc, countZ_snoc, length_app. cbn [List.length].
    destruct (Background_senderOf m) as [e|] eqn:Hs.
    + destruct (Background_step_file (Background.scan pre) m e Hs)
        as (s0 & _ & Ht & Hu).
      rewrite Ht, Hu, IHt, IHu. split; lia.
    + destruct (Background_step_skip (Background.scan pre) m Hs) as (_ & Ht & Hu).
      rewrite Ht, Hu, IHt, IHu. split; lia.
Qed.

Lemma perm_nil_iff {A} (l l' : list A) :
  Permutation l l' -> (l = [] <-> l' = []).
Proof.
  intros H. split; intros ->.
  - now apply Permutation_nil.
  - apply Permutation_nil. now symmetry.
Qed.

Lemma Parser_keys_filed messages k :
  In k (map fst (Parser.sendersMap (Parser.scan messages)))
  <-> Parser_filedUnder k messages <> [].
Proof.
  pose proof (Parser_record_characterised messages k) as Hc. split.
  - intros Hin. apply In_keys_get in Hin. destruct Hin as (v & Hg).
    rewrite Hg in Hc. tauto.
  - intros Hne.
    destruct (JsMap.get k (Parser.sendersMap (Parser.scan messages))) eqn:Hg;
      [|contradiction].
    eapply JsMap_get_some_keys; eauto.
Qed.

Lemma Background_keys_filed messages k :
  In k (map fst (Background.sendersMap (Background.scan messages)))
  <-> Background_filedUnder k messages <> [].
Proof.
  pose proof (Background_record_characterised messages k) as Hc. split.
  - intros Hin. apply In_keys_get in Hin. destruct Hin as (v & Hg).
    rewrite Hg in Hc. tauto.
  - intros Hne.
    destruct (JsMap.get k (Background.sendersMap (Background.scan messages))) eqn:Hg;
      [|contradiction].
    eapply JsMap_get_some_keys; eauto.
Qed.

Lemma Parser_keys_perm l l' :
  Permutation l l' ->
  Permutation (map fst (Parser.sendersMap (Parser.scan l)))
              (map fst (Parser.sendersMap (Parser.scan l'))).
Proof.
  intros Hp. apply NoDup_Permutation; try apply Parser_scan_keys.
  intros k. rewrite !Parser_keys_filed.
  pose proof (perm_nil_iff _ _ (Parser_filedUnder_perm k _ _ Hp)). tauto.
Qed.

Lemma Background_keys_perm l l' :
  Permutation l l' ->
  Permutation (map fst (Background.sendersMap (Background.scan l)))
              (map fst (Background.sendersMap (Background.scan l'))).
Proof.
  intros Hp. apply NoDup_Permutation; try apply Background_scan_keys.
  intros k. rewrite !Background_keys_filed.
  pose proof (perm_nil_iff _ _ (Background_filedUnder_perm k _ _ Hp)). tauto.
Qed.

(** X5.  The order of the input does not change the totals: permuting
    the messages gives, for every sender of the result, a sender with the
    same address, [totalCount], [unreadCount] (and newsletter flag in
    [parser.js]), and the same [totalEmails], [unreadEmails] and
    [totalSenders]. *)
Theorem totals_do_not_depend_on_input_order :
  (forall l l' : list (option Message),
     Permutation l l' ->
     (forall s,
        In s (Parser.senders (Parser.analyzeMessages l)) ->
        exists s',
          In s' (Parser.senders (Parser.analyzeMessages l'))
          /\ Parser.email s' = Parser.email s
          /\ Parser.totalCount s' = Parser.totalCount s
          /\ Parser.unreadCount s' = Parser.unreadCount s
          /\ Parser.isNewsletter s' = Parser.isNewsletter s)
     /\ Parser.totalEmails (Parser.stats (Parser.analyzeMessages l'))
        = Parser.totalEmails (Parser.stats (Parser.analyzeMessages l))
     /\ Parser.unreadEmails (Parser.stats (Parser.analyzeMessages l'))
        = Parser.unreadEmails (Parser.stats (Parser.analyzeMessages l))
     /\ Parser.totalSenders (Parser.stats (Parser.analyzeMessages l'))
        = Parser.totalSenders (Parser.stats (Parser.analyzeMessages l)))
  /\
  (forall l l' : list Message,
     Permutation l l' ->
     (forall s,
        In s (Background.senders (Background.analyzeMessages l)) ->
        exists s',
          In s' (Background.senders (Background.analyzeMessages l'))
          /\ Background.email s' = Background.email s
          /\ Background.totalCount s' = Background.totalCount s
          /\ Background.unreadCount s' = Background.unreadCount s)
     /\ Background.totalEmails (Background.stats (Background.analyzeMessages l'))
        = Background.totalEmails (Background.stats (Background.analyzeMessages l))
     /\ Background.unreadEmails (Background.stats (Background.analyzeMessages l'))
        = Background.unreadEmails (Background.stats (Background.analyzeMessages l))
     /\ Background.totalSenders (Background.stats (Background.analyzeMessages l'))
        = Background.totalSenders (Background.stats (Background.analyzeMessages l))).
Proof.
  split; intros l l' Hp; (split; [|split; [|split]]).
  - intros s Hin. apply Parser_sender_in_result in Hin.
    pose proof (Parser_record_characterised l (Parser.email s)) as Hc.
    rewrite Hin in Hc. destruct Hc as [Hne Hrec].
    pose proof (Parser_filedUnder_perm (Parser.email s) _ _ Hp) as Hf.
    pose proof (Parser_record_characterised l' (Parser.email s)) as Hc'.
    destruct (JsMap.get (Parser.email s) (Parser.sendersMap (Parser.scan l')))
      as [s'|] eqn:Hg'.
    + destruct Hc' as [_ Hrec']. exists s'.
      destruct Hrec as (_ & _ & Ht & Hu & _ & _ & Hn).
      destruct Hrec' as (He' & _ & Ht' & Hu' & _ & _ & Hn').
      split; [apply Parser_sender_in_result; now rewrite He'|].
      split; [exact He'|]. split; [|split].
      * rewrite Ht, Ht'. f_equal. symmetry. now apply Permutation_length.
      * rewrite Hu, Hu'. symmetry. now apply countZ_perm.
      * rewrite Hn, Hn'. symmetry. now apply existsb_perm.
    + exfalso. apply Hne. apply (perm_nil_iff _ _ Hf). exact Hc'.
  - unfold Parser.analyzeMessages, Parser.finish.
    cbn [Parser.stats Parser.totalEmails].
    rewrite (proj1 (Parser_accTotal_counts l)), (proj1 (Parser_accTotal_counts l')).
    symmetry. now apply countZ_perm.
  - unfold Parser.analyzeMessages, Parser.finish.
    cbn [Parser.stats Parser.unreadEmails].
    rewrite (proj2 (Parser_accTotal_counts l)), (proj2 (Parser_accTotal_counts l')).
    symmetry. now apply countZ_perm.
  - unfold Parser.analyzeMessages, Parser.finish.
    cbn [Parser.stats Parser.totalSenders].
    f_equal. rewrite !(Permutation_length (sortDesc_perm _ _)).
    unfold JsMap.values. rewrite !length_map.
    rewrite <- !(length_map fst). symmetry.
    apply Permutation_length. now apply Parser_keys_perm.
  - intros s Hin. apply Background_sender_in_result in Hin.
    pose proof (Background_record_characterised l (Background.email s)) as Hc.
    rewrite Hin in Hc. destruct Hc as [Hne Hrec].
    pose proof (Background_filedUnder_perm (Background.email s) _ _ Hp) as Hf.
    pose proof (Background_record_characterised l' (Background.email s)) as Hc'.
    destruct (JsMap.get (Background.email s)
                (Background.sendersMap (Background.scan l')))
      as [s'|] eqn:Hg'.
    + destruct Hc' as [_ Hrec']. exists s'.
      destruct Hrec as (_ & _ & Ht & Hu & _ & _).
      destruct Hrec' as (He' & _ & Ht' & Hu' & _ & _).
      split; [apply Background_sender_in_result; now rewrite He'|].
      split; [exact He'|]. split.
      * rewrite Ht, Ht'. f_equal. symmetry. now apply Permutation_length.
      * rewrite Hu, Hu'. symmetry. now apply countZ_perm.
    + exfalso. apply Hne. apply (perm_nil_iff _ _ Hf). exact Hc'.
  - unfold Background.analyzeMessages, Background.finish.
    cbn [Background.stats Background.totalEmails].
    rewrite (proj1 (Background_accTotal_counts l)),
            (proj1 (Background_accTotal_counts l')).
    f_equal. symmetry. now apply Permutation_length.
  - unfold Background.analyzeMessages, Background.finish.
    cbn [Background.stats Background.unreadEmails].
    rewrite (proj2 (Background_accTotal_counts l)),
            (proj2 (Background_accTotal_counts l')).
    symmetry. now apply countZ_perm.
  - unfold Background.analyzeMessages, Background.finish.
    cbn [Background.stats Background.totalSenders].
    f_equal. rewrite !(Permutation_length (sortDesc_perm _ _)).
    unfold JsMap.values. rewrite !length_map.
    rewrite <- !(length_map fst). symmetry.
    apply Permutation_length. now apply Background_keys_perm.
Qed.

Lemma totals_do_not_depend_on_input_order_witness :
  Parser.totalEmails
    (Parser.stats (Parser.analyzeMessages [Some Sample.noFrom; Some Sample.news1]))
  = Parser.totalEmails
      (Parser.stats (Parser.analyzeMessages [Some Sample.news1; Some Sample.noFrom])).
Proof.
  apply (proj1 totals_do_not_depend_on_input_order
           [Some Sample.news1; Some Sample.noFrom]
           [Some Sample.noFrom; Some Sample.news1]).
  apply perm_swap.
Defined.

(* ================================================================= *)
(** ** The delete flow, to its end *)

Section PatchCache.
Implicit Types (l : list Background.Sender) (e : string).





End PatchCache.





Section DeleteFlowEnd.
Context {Remote : Type}.
Variable transport : Request -> Remote -> (string + Response) * Remote.
Implicit Types (w : Eff.World Remote (option Background.Analysis)).

Lemma findAllFrom_pages fuel : forall email acc tok w ids w',
  tok = None \/ Js.truthyOpt tok = true ->
  Background.findAllFrom transport fuel email acc tok w = (Ret ids, w') ->
  exists evs more,
    Eff.trace w' = (Eff.trace w ++ evs)%list
    /\ ids = (acc ++ more)%list
    /\ AllPages (Some ("from:" ++ email)) tok evs more.
Proof.
  induction fuel as [|fuel IH]; intros email acc tok w ids w' Htok H;
    cbn [Background.findAllFrom] in H; [discriminate|].
  apply bind_inv in H.
  destruct H as [(data & w1 & Hc & H) | [(e & Hc & He) | (Hc & He)]];
    try discriminate.
  apply call_inv in Hc. destruct Hc as (res & r' & _ & -> & Ho).
  destruct res as [m|d]; [discriminate|]. inversion Ho; subst d.
  unfold Background.tokenParam in H. rewrite (truthy_token_param _ Htok) in H.
  rewrite pushIds_app in H.
  destruct (Js.truthyOpt (nextPageTokenOf data)) eqn:Ecur.
  - apply bind_inv in H.
    destruct H as [(u & w2 & Hs & H) | [(e & Hs & He) | (Hs & He)]];
      apply sleep_inv in Hs; destruct Hs as [Hs ->]; try discriminate.
    apply IH in H; [|now right].
    destruct H as (evs & more & Ht & Hi & Hp).
    eexists. exists (idsOf data ++ more)%list. split; [|split].
    + rewrite Ht. cbn [Eff.trace]. rewrite <- !app_assoc. reflexivity.
    + rewrite Hi. now rewrite <- app_assoc.
    + apply pages_more; auto. unfold cursorAbsent. now rewrite Ecur.
  - apply ret_inv in H. destruct H as [H ->]. inversion H; subst.
    eexists. exists (idsOf data). split; [reflexivity|]. split; auto.
    apply pages_last. unfold cursorAbsent. now rewrite Ecur.
Qed.

Lemma deleteBatches_trace fuel : forall i ids w out w',
  Background.deleteBatches transport fuel i ids w = (out, w') ->
  Eff.store w' = Eff.store w
  /\ exists evs,
       Eff.trace w' = (Eff.trace w ++ evs)%list
       /\ Forall (chunkOk 1000) (deletedIn evs)
       /\ (exists unsent,
             skipn i ids = (List.concat (deletedIn evs) ++ unsent)%list)
       /\ (out = Ret tt -> List.concat (deletedIn evs) = skipn i ids).
Proof.
  induction fuel as [|fuel IH]; intros i ids w out w' H;
    cbn [Background.deleteBatches] in H;
    destruct (Nat.ltb i (List.length ids)) eqn:Elt; cbn [negb] in H;
    try (apply ret_inv in H; destruct H as [-> ->]; apply Nat.ltb_ge in Elt;
         split; auto; exists []; rewrite app_nil_r;
         rewrite (skipn_all2 ids Elt); repeat split; auto; now exists []).
  - inversion H; subst. split; auto. exists []. rewrite app_nil_r.
    repeat split; auto; [now exists (skipn i ids)|discriminate].
  - apply Nat.ltb_lt in Elt.
    apply bind_inv in H.
    destruct H as [(data & w1 & Hc & H) | [(e & Hc & ->) | (Hc & ->)]];
      apply call_inv in Hc; destruct Hc as (res & r' & _ & Hw & Ho).
    + assert (Hw2 : exists evs0 w2,
                 Eff.trace w2
                 = (Eff.trace w
                    ++ EvRequest (BatchDelete (slice i (i + 1000) ids)) res
                    :: evs0)%list
                 /\ deletedIn evs0 = []
                 /\ Eff.store w2 = Eff.store w
                 /\ Background.deleteBatches transport fuel (i + 1000) ids w2
                    = (out, w')).
      { apply bind_inv in H.
        destruct H as [(u & w2 & Hs & H) | [(e & Hs & ->) | (Hs & ->)]];
          destruct (Nat.ltb (i + 1000) (List.length ids));
          try (apply sleep_inv in Hs; destruct Hs as [Hs ->]);
          try (apply ret_inv in Hs; destruct Hs as [Hs ->]);
          try discriminate.
        - exists [EvSleep Background.RATE_LIMIT_DELAY]. eexists.
          split; [|split; [|split; [|exact H]]].
          + subst w1. cbn [Eff.trace]. now rewrite <- app_assoc.
          + reflexivity.
          + subst w1. reflexivity.
        - exists []. eexists. split; [|split; [|split; [|exact H]]].
          + subst w1. reflexivity.
          + reflexivity.
          + subst w1. reflexivity. }
      destruct Hw2 as (evs0 & w2 & Ht2 & Hd0 & Hst2 & H2).
      destruct (IH _ _ _ _ _ H2) as (Hst & evs & Ht & Hok & [unsent Hu] & Hr).
      split; [congruence|].
      exists (EvRequest (BatchDelete (slice i (i + 1000) ids)) res
              :: evs0 ++ evs)%list.
      cbn [deletedIn]. rewrite deletedIn_app, Hd0. cbn [app List.concat].
      split; [|split; [|split]].
      * rewrite Ht, Ht2. rewrite <- app_assoc. reflexivity.
      * constructor; auto. apply slice_ok; [lia|auto].
      * exists unsent. rewrite <- app_assoc, <- Hu. symmetry.
        apply slice_then_rest.
      * intros Hret. rewrite (Hr Hret). apply slice_then_rest.
    + subst w'. cbn [Eff.store Eff.trace]. split; auto.
      exists [EvRequest (BatchDelete (slice i (i + 1000) ids)) res].
      cbn [deletedIn List.concat]. rewrite app_nil_r.
      split; [reflexivity|]. split; [|split].
      * constructor; auto. apply slice_ok; [lia|auto].
      * exists (skipn (i + 1000) ids). symmetry. apply slice_then_rest.
      * discriminate.
    + destruct res; discriminate.
Qed.

Lemma delete_flow_outcome fuel email w out w' :
  Background.deleteEmailsFromSender transport fuel email w = (out, w') ->
  (forall b, out = Ret b ->
     b = true
     /\ Eff.store w' = option_map (Background.patchCache email) (Eff.store w)
     /\ exists ids w1 evs,
          Background.findAllFrom transport fuel email [] None w = (Ret ids, w1)
          /\ ids <> []
          /\ Eff.trace w' = (Eff.trace w1 ++ evs)%list
          /\ Forall (chunkOk 1000) (deletedIn evs)
          /\ List.concat (deletedIn evs) = ids)
  /\ ((forall b, out <> Ret b) -> Eff.store w' = Eff.store w).
Proof.
  unfold Background.deleteEmailsFromSender. intros H.
  apply bind_inv in H.
  destruct H as [(ids & w1 & Hf & H) | [(e & Hf & ->) | (Hf & ->)]].
  - pose proof (findAllFrom_quiet transport _ _ _ _ _ _ _ Hf) as [Hst1 _].
    destruct (Nat.eqb (List.length ids) 0) eqn:E0.
    + apply throw_inv in H. destruct H as [-> ->].
      split; [discriminate|]. auto.
    + apply Nat.eqb_neq in E0.
      apply bind_inv in H.
      destruct H as [(u & w2 & Hd & H) | [(e & Hd & ->) | (Hd & ->)]];
        destruct (deleteBatches_trace _ _ _ _ _ _ Hd)
          as (Hst2 & evs & Ht & Hok & _ & Hr);
        try (split; [discriminate|]; intros _; congruence).
      destruct u.
      apply bind_inv in H.
      destruct H as [(u & w3 & Hu & H) | [(e & Hu & ->) | (Hu & ->)]].
      * apply ret_inv in H. destruct H as [-> ->].
        unfold Background.updateCache, Eff.bind, Eff.getStore in Hu.
        assert (Hw3 : Eff.store w3
                      = option_map (Background.patchCache email) (Eff.store w)
                      /\ Eff.trace w3 = Eff.trace w2).
        { rewrite <- Hst1, <- Hst2.
          destruct (Eff.store w2) eqn:Es; inversion Hu; subst; cbn; auto. }
        destruct Hw3 as [Hs3 Ht3].
        split; [|intros Hn; exfalso; now apply (Hn true)].
        intros b Hb. inversion Hb; subst b. split; auto. split; auto.
        exists ids, w1, evs. split; auto. split.
        { intros ->. apply E0. reflexivity. }
        split; [congruence|]. split; auto.
      * exfalso. unfold Background.updateCache, Eff.bind, Eff.getStore in Hu.
        destruct (Eff.store w2); inversion Hu.
      * exfalso. unfold Background.updateCache, Eff.bind, Eff.getStore in Hu.
        destruct (Eff.store w2); inversion Hu.
  - pose proof (findAllFrom_quiet transport _ _ _ _ _ _ _ Hf) as [Hst1 _].
    split; [discriminate|auto].
  - pose proof (findAllFrom_quiet transport _ _ _ _ _ _ _ Hf) as [Hst1 _].
    split; [discriminate|auto].
Qed.

End DeleteFlowEnd.

(** X7.  The delete flow changes the cache only at its very end: when
    [deleteEmailsFromSender] does not return (the search fails or finds
    nothing, or a batch delete fails), the cached analysis is what it
    was; when it returns, it returns [true], every id the search found
    was sent, in order, in batch deletes of one to 1000 ids, and the
    cached analysis (if there is one) is the patched one. *)
Theorem delete_flow_patches_cache_only_on_success :
  forall (Remote : Type)
         (transport : Request -> Remote -> (string + Response) * Remote)
         fuel email (w : Eff.World Remote (option Background.Analysis)),
    let run := Background.deleteEmailsFromSender transport fuel email w in
    (forall b, fst run = Ret b ->
       b = true
       /\ Eff.store (snd run)
          = option_map (Background.patchCache email) (Eff.store w)
       /\ exists ids w1 evs,
            Background.findAllFrom transport fuel email [] None w = (Ret ids, w1)
            /\ ids <> []
            /\ Eff.trace (snd run) = (Eff.trace w1 ++ evs)%list
            /\ Forall (chunkOk 1000) (deletedIn evs)
            /\ List.concat (deletedIn evs) = ids)
    /\ ((forall b, fst run <> Ret b) -> Eff.store (snd run) = Eff.store w).
Proof.
  intros Remote transport fuel email w run. subst run.
  destruct (Background.deleteEmailsFromSender transport fuel email w)
    as [out w'] eqn:H.
  cbn [fst snd]. eapply delete_flow_outcome; eauto.
Qed.

Lemma delete_flow_patches_cache_only_on_success_witness :
  Eff.store (snd (Background.deleteEmailsFromSender scripted 5 "news@x.com"
                    Sample.twoFound))
  = option_map (Background.patchCache "news@x.com") (Eff.store Sample.twoFound).
Proof.
  apply (proj1 (delete_flow_patches_cache_only_on_success _ scripted 5%nat
                  "news@x.com" Sample.twoFound) true).
  reflexivity.
Defined.

(** X8.  The search of the delete flow has no cap: a search that returns
    has asked for up to 500 matches of [from:<email>] per call, starting
    without a cursor and following the cursor of each page after the
    inter-page delay, until a page without a cursor; it returns the ids
    of all these pages, in order. *)
Theorem delete_search_reads_every_page :
  forall (Remote : Type)
         (transport : Request -> Remote -> (string + Response) * Remote)
         fuel email (w : Eff.World Remote (option Background.Analysis)) ids w',
    Background.findAllFrom transport fuel email [] None w = (Ret ids, w') ->
    exists evs,
      Eff.trace w' = (Eff.trace w ++ evs)%list
      /\ AllPages (Some ("from:" ++ email)) None evs ids.
Proof.
  intros Remote transport fuel email w ids w' H.
  destruct (findAllFrom_pages transport _ _ _ _ _ _ _ (or_introl eq_refl) H)
    as (evs & more & Ht & Hi & Hp).
  exists evs. split; auto. cbn [app] in Hi. now subst ids.
Qed.

Lemma delete_search_reads_every_page_witness :
  exists evs,
    Eff.trace (snd (Background.findAllFrom scripted 5 "news@x.com" [] None
                      Sample.twoFound))
    = (Eff.trace Sample.twoFound ++ evs)%list
    /\ AllPages (Some "from:news@x.com") None evs ["m1"; "m2"].
Proof.
  apply (delete_search_reads_every_page _ scripted 5%nat "news@x.com"
           Sample.twoFound).
  reflexivity.
Defined.

(* ================================================================= *)
(** ** The cap of the enumeration *)

Section CapBound.
Context {Remote : Type}.
Variable transport : Request -> Remote -> (string + Response) * Remote.
Hypothesis honours : honoursLimit transport.

Lemma getAllLoop_within_cap fuel :
  forall cap acc tok (w : Eff.World Remote (option Background.Analysis)) ids w',
  Z.of_nat (List.length acc) <= Z.max 0 cap ->
  Background.getAllLoop transport fuel cap acc tok w = (Ret ids, w') ->
  Z.of_nat (List.length ids) <= Z.max 0 cap.
Proof.
  induction fuel as [|fuel IH]; intros cap acc tok w ids w' Hacc H;
    cbn [Background.getAllLoop] in H;
    destruct (Z.of_nat (List.length acc) <? cap) eqn:Elt; cbn [negb] in H;
    try (apply ret_inv in H; destruct H as [H ->]; inversion H; subst; auto).
  - discriminate.
  - apply Z.ltb_lt in Elt.
    apply bind_inv in H.
    destruct H as [(data & w1 & Hc & H) | [(e & Hc & He) | (Hc & He)]];
      try discriminate.
    apply call_inv in Hc. destruct Hc as (res & r' & Htr & -> & Ho).
    destruct res as [m|d]; [discriminate|]. inversion Ho; subst d.
    pose proof (honours None
                  (Z.min Background.BATCH_SIZE (cap - Z.of_nat (List.length acc)))
                  (Background.tokenParam tok) (Eff.remote w)) as Hh.
    rewrite Htr in Hh. cbn [fst] in Hh.
    rewrite pushIds_app in H.
    assert (Hnew : Z.of_nat (List.length (acc ++ idsOf data)) <= Z.max 0 cap)
      by (rewrite length_app; lia).
    destruct (negb (Js.truthyOpt (nextPageTokenOf data))
              || (cap <=? Z.of_nat (List.length (acc ++ idsOf data))))%bool.
    + apply ret_inv in H. destruct H as [H ->]. inversion H; subst. auto.
    + apply bind_inv in H.
      destruct H as [(u & w2 & Hs & H) | [(e & Hs & He) | (Hs & He)]];
        apply sleep_inv in Hs; destruct Hs as [Hs ->]; try discriminate.
      eapply IH; eauto.
Qed.

Lemma searchLoop_within_cap fuel :
  forall query cap acc tok (w : Eff.World Remote GmailAPI.TokenCache) ids w',
  Z.of_nat (List.length acc) <= Z.max 0 cap ->
  GmailAPI.searchLoop transport fuel query cap acc tok w = (Ret ids, w') ->
  Z.of_nat (List.length ids) <= Z.max 0 cap.
Proof.
  induction fuel as [|fuel IH]; intros query cap acc tok w ids w' Hacc H;
    cbn [GmailAPI.searchLoop] in H;
    destruct (Z.of_nat (List.length acc) <? cap) eqn:Elt; cbn [negb] in H;
    try (apply ret_inv in H; destruct H as [H ->]; inversion H; subst; auto).
  - discriminate.
  - pose proof (min_page_nonzero _ _ (proj1 (Z.ltb_lt _ _) Elt)) as Hmin.
    apply Z.ltb_lt in Elt.
    apply bind_inv in H.
    destruct H as [(data & w1 & Hc & H) | [(e & Hc & He) | (Hc & He)]];
      try discriminate.
    unfold GmailAPI.getMessages, GmailAPI.request in Hc.
    rewrite Hmin in Hc.
    apply call_inv in Hc. destruct Hc as (res & r' & Htr & -> & Ho).
    destruct res as [m|d]; [discriminate|]. inversion Ho; subst d.
    match type of Htr with
    | transport (ListMessages ?q ?mr ?pt) _ = _ =>
        pose proof (honours q mr pt (Eff.remote w)) as Hh
    end.
    rewrite Htr in Hh. cbn [fst] in Hh.
    rewrite pushMessages_app in H.
    assert (Hnew : Z.of_nat (List.length (acc ++ idsOf data)) <= Z.max 0 cap)
      by (rewrite length_app; lia).
    destruct (negb (Js.truthyOpt (nextPageTokenOf data))
              || (cap <=? Z.of_nat (List.length (acc ++ idsOf data))))%bool.
    + apply ret_inv in H. destruct H as [H ->]. inversion H; subst. auto.
    + apply bind_inv in H.
      destruct H as [(u & w2 & Hs & H) | [(e & Hs & He) | (Hs & He)]];
        apply sleep_inv in Hs; destruct Hs as [Hs ->]; try discriminate.
      eapply IH; eauto.
Qed.

End CapBound.

(** X9.  Against a provider whose listing never returns more ids than it
    is asked for, the enumerators never return more ids than the cap
    (none for a cap that is not positive). *)
Theorem enumeration_stays_within_cap :
  forall (Remote : Type)
         (transport : Request -> Remote -> (string + Response) * Remote),
    honoursLimit transport ->
    (forall fuel cap (w : Eff.World Remote (option Background.Analysis)) ids w',
       Background.getAllMessageIds transport fuel cap w = (Ret ids, w') ->
       Z.of_nat (List.length ids) <= Z.max 0 cap)
    /\ (forall fuel query cap (w : Eff.World Remote GmailAPI.TokenCache) ids w',
          GmailAPI.searchMessages transport fuel query cap w = (Ret ids, w') ->
          Z.of_nat (List.length ids) <= Z.max 0 cap).
Proof.
  intros Remote transport Hh. split.
  - intros fuel cap w ids w' H.
    eapply getAllLoop_within_cap; eauto. simpl. lia.
  - intros fuel query cap w ids w' H.
    eapply searchLoop_within_cap; eauto. simpl. lia.
Qed.

Lemma smallMailbox_honours : honoursLimit Sample.smallMailbox.
Proof.
  intros q maxResults pageToken r. cbn [Sample.smallMailbox fst idsOf messagesOf].
  rewrite length_firstn. cbn [List.length]. lia.
Qed.

Lemma enumeration_stays_within_cap_witness :
  Z.of_nat (List.length ["m1"; "m2"]) <= Z.max 0 2.
Proof.
  apply (proj1 (enumeration_stays_within_cap unit Sample.smallMailbox
                  smallMailbox_honours)
           3%nat 2 Sample.freshWorker ["m1"; "m2"]
           (snd (Background.getAllMessageIds Sample.smallMailbox 3 2
                   Sample.freshWorker))).
  reflexivity.
Defined.

(* ================================================================= *)
(** ** Fetching the details *)

Lemma requestsIn_app evs1 evs2 :
  requestsIn (evs1 ++ evs2) = (requestsIn evs1 ++ requestsIn evs2)%list.
Proof.
  induction evs1 as [|ev evs1 IH]; cbn [app requestsIn]; auto.
  destruct ev; cbn [app]; now rewrite ?IH.
Qed.

Lemma answersIn_app evs1 evs2 :
  answersIn (evs1 ++ evs2) = (answersIn evs1 ++ answersIn evs2)%list.
Proof.
  induction evs1 as [|ev evs1 IH]; cbn [app answersIn]; auto.
  destruct ev as [req [m|d]|ms|f]; cbn [app]; now rewrite ?IH.
Qed.

Lemma failuresIn_app evs1 evs2 :
  failuresIn (evs1 ++ evs2) = (failuresIn evs1 ++ failuresIn evs2)%list.
Proof.
  induction evs1 as [|ev evs1 IH]; cbn [app failuresIn]; auto.
  destruct ev as [req [m|d]|ms|f]; cbn [app]; now rewrite ?IH.
Qed.

Lemma sleepsIn_app evs1 evs2 :
  sleepsIn (evs1 ++ evs2) = (sleepsIn evs1 ++ sleepsIn evs2)%list.
Proof.
  induction evs1 as [|ev evs1 IH]; cbn [app sleepsIn]; auto.
  destruct ev; cbn [app]; now rewrite ?IH.
Qed.

Lemma countZ_app {A} (p : A -> bool) l1 l2 :
  countZ p (l1 ++ l2) = countZ p l1 + countZ p l2.
Proof. unfold countZ. rewrite filter_app, length_app. lia. Qed.

Lemma try_call_inv {Remote Store : Type}
    (transport : Request -> Remote -> (string + Response) * Remote)
    req (w : Eff.World Remote Store) out w' :
  Eff.try (Eff.call transport req) w = (out, w') ->
  exists res r',
    transport req (Eff.remote w) = (res, r')
    /\ w' = Eff.mkWorld r' (Eff.store w) (Eff.trace w ++ [EvRequest req res])
    /\ out = Ret match res with
                 | inr data => inr data
                 | inl message => inl (ThrownError message)
                 end.
Proof.
  unfold Eff.try. destruct (Eff.call transport req w) as [o w1] eqn:Ec.
  apply call_inv in Ec. destruct Ec as (res & r' & Ht & -> & ->).
  intros H. exists res, r'. destruct res; inversion H; subst; auto.
Qed.

Lemma waitsOf_app ms evs1 evs2 :
  waitsOf ms (evs1 ++ evs2) = waitsOf ms evs1 + waitsOf ms evs2.
Proof. unfold waitsOf. now rewrite sleepsIn_app, countZ_app. Qed.

Section Fetch.
Context {Remote : Type}.
Variable transport : Request -> Remote -> (string + Response) * Remote.
Implicit Types (w : Eff.World Remote (option Background.Analysis)).

Lemma loadEach_fetched batch : forall messages w out w',
  Background.loadEach transport batch messages w = (out, w') ->
  fetched batch messages 0 w out w'.
Proof.
  unfold fetched. change Background.RATE_LIMIT_DELAY with 500.
  induction batch as [|id' rest IH]; intros messages w out w' Hrun;
    cbn [Background.loadEach] in Hrun.
  - apply ret_inv in Hrun. destruct Hrun as [-> ->]. split; auto.
    exists []. rewrite !app_nil_r. repeat split.
  - apply bind_inv in Hrun.
    destruct Hrun as [(res & w1 & Hc & Hk)|[(e & Hc & _)|(Hc & _)]];
      unfold Background.gmailApiRequest in Hc;
      apply try_call_inv in Hc; destruct Hc as (ans & r' & Htr & Hw1 & Hres);
      try discriminate.
    injection Hres as ->. destruct ans as [m|data].
    + apply bind_inv in Hk.
      assert (Hw2 : forall o w2,
                 (if Js.includes m "лимит" then Eff.sleep 2000 else Eff.ret tt) w1
                 = (o, w2) ->
                 o = Ret tt /\ exists evs0,
                   w2 = Eff.mkWorld r' (Eff.store w)
                          (Eff.trace w ++ EvRequest (GetMessage id') (inl m) :: evs0)
                   /\ requestsIn evs0 = [] /\ answersIn evs0 = []
                   /\ failuresIn evs0 = []
                   /\ waitsOf 500 evs0 = 0 /\ waitsOf 200 evs0 = 0
                   /\ waitsOf 2000 evs0 = if namesLimit m then 1 else 0).
      { intros o w2 H. unfold namesLimit. destruct (Js.includes m "лимит").
        - apply sleep_inv in H. destruct H as [-> ->]. split; auto.
          exists [EvSleep 2000]. subst w1. cbn [Eff.remote Eff.store Eff.trace].
          rewrite <- app_assoc. repeat split.
        - apply ret_inv in H. destruct H as [-> ->]. split; auto.
          exists []. subst w1. repeat split. }
      destruct Hk as [([] & w2 & Hc & Hk)|[(e & Hc & _)|(Hc & _)]];
        apply Hw2 in Hc;
        destruct Hc as (Ho & evs0 & Hw & Hrq & Han & Hfl & H5 & H2 & H20);
        try discriminate.
      apply IH in Hk.
      destruct Hk as (Hst' & evs & Ht' & Ho' & Hr & H5' & H2' & H20').
      subst w2. cbn [Eff.store Eff.trace] in Hst', Ht'.
      split; [exact Hst'|].
      exists (EvRequest (GetMessage id') (inl m) :: evs0 ++ evs)%list.
      change (EvRequest (GetMessage id') (inl m) :: evs0 ++ evs)%list
        with (([EvRequest (GetMessage id') (inl m)] ++ evs0) ++ evs)%list.
      rewrite requestsIn_app, answersIn_app, failuresIn_app, !waitsOf_app.
      cbn [app requestsIn answersIn failuresIn].
      rewrite Hrq, Han, Hfl, H5, H2, H20, H5', H2', H20'.
      cbn [app]. rewrite countZ_cons.
      split; [rewrite Ht', <- app_assoc; reflexivity|].
      split; [exact Ho'|]. split; [now rewrite Hr|].
      unfold waitsOf. cbn [sleepsIn countZ]. repeat split.
    + apply bind_inv in Hk.
      destruct Hk as [([] & w2 & Hc & Hk)|[(e & Hc & _)|(Hc & _)]];
        apply sleep_inv in Hc; destruct Hc as [Ho Hw2]; try discriminate.
      apply IH in Hk.
      destruct Hk as (Hst' & evs & Ht' & Ho' & Hr & H5' & H2' & H20').
      subst w2 w1. cbn [Eff.store Eff.trace Eff.remote] in Hst', Ht'.
      split; [exact Hst'|].
      exists ([EvRequest (GetMessage id') (inr data); EvSleep 200] ++ evs)%list.
      rewrite requestsIn_app, answersIn_app, failuresIn_app, !waitsOf_app,
        length_app.
      cbn [app requestsIn answersIn failuresIn List.length].
      split; [rewrite Ht', <- !app_assoc; reflexivity|].
      split; [rewrite Ho', <- app_assoc; reflexivity|].
      split; [now rewrite Hr|].
      rewrite H5', H2', H20'. unfold waitsOf. cbn [sleepsIn].
      rewrite !countZ_cons. unfold countZ. cbn [filter List.length Z.eqb Pos.eqb].
      repeat split; lia.
Qed.

Lemma gaps_step n : (10 < n)%nat -> ((n - 1) / 10 = S ((n - 10 - 1) / 10))%nat.
Proof.
  intros H. replace (n - 1)%nat with ((n - 10 - 1) + 1 * 10)%nat by lia.
  rewrite Nat.div_add by lia. lia.
Qed.

Lemma gaps_last n : (n <= 10)%nat -> ((n - 1) / 10 = 0)%nat.
Proof. intros H. apply Nat.div_small. lia. Qed.

Lemma loadBatches_fetched fuel : forall i ids messages w out w',
  (List.length ids - i <= fuel)%nat ->
  Background.loadBatches transport fuel i ids messages w = (out, w') ->
  fetched (skipn i ids) messages
    (Z.of_nat ((List.length ids - i - 1) / 10)) w out w'.
Proof.
  assert (Hdone : forall i ids messages w out w',
             (List.length ids <= i)%nat ->
             Eff.ret messages w = (out, w') ->
             fetched (skipn i ids) messages
               (Z.of_nat ((List.length ids - i - 1) / 10)) w out w').
  { intros i ids messages w out w' Hi H. apply ret_inv in H.
    destruct H as [-> ->]. split; auto. exists []. rewrite !app_nil_r.
    rewrite (skipn_all2 ids Hi).
    replace (List.length ids - i - 1)%nat with 0%nat by lia.
    repeat split. }
  unfold fetched in *. change Background.RATE_LIMIT_DELAY with 500 in *.
  induction fuel as [|fuel IH]; intros i ids messages w out w' Hfuel Hrun;
    cbn [Background.loadBatches] in Hrun;
    destruct (Nat.ltb i (List.length ids)) eqn:Elt; cbn [negb] in Hrun;
    try (apply Nat.ltb_ge in Elt; now apply Hdone).
  - apply Nat.ltb_lt in Elt. lia.
  - apply Nat.ltb_lt in Elt. cbv zeta in Hrun. apply bind_inv in Hrun.
    destruct Hrun as [(msgs1 & w1 & Hc & Hk)|[(e & Hc & _)|(Hc & _)]];
      apply loadEach_fetched in Hc;
      destruct Hc as (Hst1 & evs1 & Ht1 & Ho1 & Hr1 & H51 & H21 & H201);
      try discriminate.
    injection Ho1 as ->. change Background.RATE_LIMIT_DELAY with 500 in H51.
    apply bind_inv in Hk.
    assert (Hgap : forall o w2,
               (if Nat.ltb (i + 10) (List.length ids)
                then Eff.sleep 500 else Eff.ret tt) w1
               = (o, w2) ->
               o = Ret tt /\ exists evs0,
                 w2 = Eff.mkWorld (Eff.remote w1) (Eff.store w1)
                        (Eff.trace w1 ++ evs0)
                 /\ requestsIn evs0 = [] /\ answersIn evs0 = []
                 /\ failuresIn evs0 = []
                 /\ waitsOf 200 evs0 = 0 /\ waitsOf 2000 evs0 = 0
                 /\ waitsOf 500 evs0
                    + Z.of_nat ((List.length ids - (i + 10) - 1) / 10)
                    = Z.of_nat ((List.length ids - i - 1) / 10)).
    { intros o w2 H. destruct (Nat.ltb (i + 10) (List.length ids)) eqn:Emore.
      - apply Nat.ltb_lt in Emore. apply sleep_inv in H.
        destruct H as [-> ->]. split; auto. exists [EvSleep 500].
        repeat split.
        rewrite (gaps_step (List.length ids - i)) by lia.
        replace (List.length ids - (i + 10) - 1)%nat
          with (List.length ids - i - 10 - 1)%nat by lia.
        generalize ((List.length ids - i - 10 - 1) / 10)%nat. intros q.
        change (waitsOf 500 [EvSleep 500]) with 1. lia.
      - apply Nat.ltb_ge in Emore. apply ret_inv in H.
        destruct H as [-> ->]. split; auto. exists [].
        rewrite app_nil_r. split; [now destruct w1|]. repeat split.
        rewrite (gaps_last (List.length ids - i)) by lia.
        replace (List.length ids - (i + 10) - 1)%nat with 0%nat by lia.
        reflexivity. }
    destruct Hk as [([] & w2 & Hc & Hk)|[(e & Hc & _)|(Hc & _)]];
      apply Hgap in Hc;
      destruct Hc as (Ho & evs0 & Hw2 & Hrq & Han & Hfl & H2 & H20 & H5);
      try discriminate.
    apply IH in Hk; [|lia].
    destruct Hk as (Hst & evs & Ht & Ho' & Hr & H5' & H2' & H20').
    subst w2. cbn [Eff.store Eff.trace] in Hst, Ht.
    split; [congruence|].
    exists ((evs1 ++ evs0) ++ evs)%list.
    rewrite !requestsIn_app, !answersIn_app, !failuresIn_app, !waitsOf_app,
      !length_app, !countZ_app.
    rewrite Hrq, Han, Hfl, H2, H20, H21, H2', H201, H20', H51, Hr1, Hr.
    cbn [List.length]. rewrite !app_nil_r.
    split; [rewrite Ht, Ht1, <- !app_assoc; reflexivity|].
    split; [rewrite Ho', <- app_assoc; reflexivity|].
    split; [rewrite <- map_app, slice_then_rest; reflexivity|].
    change (countZ namesLimit []) with 0. repeat split; lia.
Qed.

End Fetch.

(** X10.  [loadMessagesBatch] is best effort and never fails: it asks for
    every id exactly once, in order, and returns the answers it got, in
    order, whatever became of the other requests.  It waits 200 ms after
    each answer, 2000 ms after each failure whose message names the rate
    limit, and 500 ms between two batches of 10; and it leaves the cache
    alone. *)
Theorem detail_fetch_skips_failures :
  forall (Remote : Type)
         (transport : Request -> Remote -> (string + Response) * Remote)
         (ids : list string) (w : Eff.World Remote (option Background.Analysis)),
    let run := Background.loadMessagesBatch transport ids w in
    Eff.store (snd run) = Eff.store w
    /\ exists evs,
         Eff.trace (snd run) = (Eff.trace w ++ evs)%list
         /\ fst run = Ret (answersIn evs)
         /\ requestsIn evs = map GetMessage ids
         /\ waitsOf 500 evs = Z.of_nat ((List.length ids - 1) / 10)
         /\ waitsOf 200 evs = Z.of_nat (List.length (answersIn evs))
         /\ waitsOf 2000 evs = countZ namesLimit (failuresIn evs).
Proof.
  intros Remote transport ids w run. subst run.
  unfold Background.loadMessagesBatch.
  destruct (Background.loadBatches transport (List.length ids) 0 ids [] w)
    as [out w'] eqn:Hrun.
  apply loadBatches_fetched in Hrun; [|lia].
  unfold fetched in Hrun. change Background.RATE_LIMIT_DELAY with 500 in Hrun.
  rewrite Nat.sub_0_r in Hrun.
  cbn [skipn app] in Hrun. exact Hrun.
Qed.

(* ================================================================= *)
(** ** Loading and analysing *)

Lemma answers_at_most_requests evs :
  (List.length (answersIn evs) <= List.length (requestsIn evs))%nat.
Proof.
  induction evs as [|[req [m|d]|ms|f] evs IH];
    cbn [answersIn requestsIn List.length]; lia.
Qed.

Section Load.
Context {Remote : Type}.
Variable transport : Request -> Remote -> (string + Response) * Remote.
Implicit Types (w : Eff.World Remote (option Background.Analysis)).

Lemma getAllLoop_only_lists fuel : forall cap acc tok w out w',
  Background.getAllLoop transport fuel cap acc tok w = (out, w') ->
  Eff.store w' = Eff.store w
  /\ exists evs,
       Eff.trace w' = (Eff.trace w ++ evs)%list
       /\ forallb isListing (requestsIn evs) = true.
Proof.
  induction fuel as [|fuel IH]; intros cap acc tok w out w' H;
    cbn [Background.getAllLoop] in H;
    destruct (Z.of_nat (List.length acc) <? cap); cbn [negb] in H;
    try (apply ret_inv in H; destruct H as [_ ->]; split; auto;
         exists []; now rewrite app_nil_r).
  - inversion H; subst. split; auto. exists []. now rewrite app_nil_r.
  - apply bind_inv in H.
    destruct H as [(data & w1 & Hc & H) | [(e & Hc & _) | (Hc & _)]];
      unfold Background.gmailApiRequest in Hc;
      apply call_inv in Hc; destruct Hc as (res & r' & _ & Hw1 & _);
      try (subst w'; cbn [Eff.store Eff.trace]; split; auto;
           eexists; split; reflexivity).
    destruct (negb (Js.truthyOpt (nextPageTokenOf data))
              || (cap <=? Z.of_nat
                    (List.length (Background.pushIds acc data))))%bool.
    + apply ret_inv in H. destruct H as [_ ->]. subst w1.
      cbn [Eff.store Eff.trace]. split; auto. eexists; split; reflexivity.
    + apply bind_inv in H.
      destruct H as [([] & w2 & Hs & H) | [(e & Hs & He) | (Hs & He)]];
        apply sleep_inv in Hs; destruct Hs as [Hs Hw2]; try discriminate.
      apply IH in H. destruct H as (Hst & evs & Ht & Hl).
      subst w2 w1. cbn [Eff.store Eff.trace Eff.remote] in Hst, Ht.
      split; auto.
      exists ([EvRequest
                 (ListMessages None
                    (Z.min Background.BATCH_SIZE (cap - Z.of_nat (List.length acc)))
                    (Background.tokenParam tok)) res;
               EvSleep Background.RATE_LIMIT_DELAY] ++ evs)%list.
      split; [rewrite Ht, <- !app_assoc; reflexivity|].
      rewrite requestsIn_app, forallb_app, Hl. reflexivity.
Qed.

(** The run of [loadAndAnalyzeEmails], cut at the end of the enumeration. *)
Lemma loadAndAnalyze_run fuel cap w out w' :
  Background.loadAndAnalyzeEmails transport fuel cap w = (out, w') ->
  exists out1 evs1 evs2,
    fst (Background.getAllMessageIds transport fuel cap w) = out1
    /\ Eff.trace w' = (Eff.trace w ++ evs1 ++ evs2)%list
    /\ forallb isListing (requestsIn evs1) = true
    /\ match out1 with
       | Ret ids =>
           requestsIn evs2 = map GetMessage ids
           /\ out = Ret (Background.analyzeMessages
                           (map Background.asMessage (answersIn evs2)))
           /\ Eff.store w'
              = Some (Background.analyzeMessages
                        (map Background.asMessage (answersIn evs2)))
       | Throw e => out = Throw e /\ evs2 = [] /\ Eff.store w' = Eff.store w
       | Diverge => out = Diverge /\ evs2 = [] /\ Eff.store w' = Eff.store w
       end.
Proof.
  unfold Background.loadAndAnalyzeEmails. intros H.
  destruct (Background.getAllMessageIds transport fuel cap w) as [out1 w1] eqn:E1.
  pose proof E1 as Hl. unfold Background.getAllMessageIds in Hl.
  apply getAllLoop_only_lists in Hl. destruct Hl as (Hst1 & evs1 & Ht1 & Hl1).
  exists out1, evs1. cbn [fst].
  apply bind_inv in H.
  destruct H as [(ids & w1' & Hc & H) | [(e & Hc & ->) | (Hc & ->)]];
    rewrite E1 in Hc; inversion Hc; subst;
    [|exists []; rewrite app_nil_r; repeat split; auto ..].
  apply bind_inv in H.
  destruct (Background.loadMessagesBatch transport ids w1') as [out2 w2] eqn:E2.
  unfold Background.loadMessagesBatch in E2.
  apply loadBatches_fetched in E2; [|lia].
  destruct E2 as (Hst2 & evs2 & Ht2 & Ho2 & Hr2 & _).
  cbn [skipn app] in Ho2, Hr2. subst out2.
  destruct H as [(msgs & w2' & Hc2 & H) | [(e & Hc2 & _) | (Hc2 & _)]];
    inversion Hc2; subst.
  cbv zeta in H. apply bind_inv in H.
  destruct H as [([] & w3 & Hc3 & H) | [(e & Hc3 & _) | (Hc3 & _)]];
    unfold Background.cacheAnalysis, Eff.setStore in Hc3;
    inversion Hc3; subst.
  apply ret_inv in H. destruct H as [-> ->]. cbn [Eff.store Eff.trace].
  exists evs2. split; auto. split; [rewrite Ht2, Ht1, <- app_assoc; reflexivity|].
  repeat split; auto.
Qed.

End Load.

(** X11.  [loadAndAnalyzeEmails] first pages through the listing and then
    asks for the details of exactly the enumerated ids.  When it returns,
    the analysis is that of the details that arrived, it is what the cache
    then holds, and its [totalEmails] is the number of those details; the
    storage write is taken to succeed.  When it fails, it is the
    enumeration that failed: no detail was asked for and the cache is as it
    was. *)
Theorem load_caches_the_analysis_of_what_arrived :
  forall (Remote : Type)
         (transport : Request -> Remote -> (string + Response) * Remote)
         (fuel : nat) (cap : Z)
         (w : Eff.World Remote (option Background.Analysis)),
    let run := Background.loadAndAnalyzeEmails transport fuel cap w in
    exists evs1 evs2,
      Eff.trace (snd run) = (Eff.trace w ++ evs1 ++ evs2)%list
      /\ forallb isListing (requestsIn evs1) = true
      /\ match fst run with
         | Ret analysis =>
             (exists ids,
                fst (Background.getAllMessageIds transport fuel cap w) = Ret ids
                /\ requestsIn evs2 = map GetMessage ids)
             /\ analysis = Background.analyzeMessages
                             (map Background.asMessage (answersIn evs2))
             /\ Eff.store (snd run) = Some analysis
             /\ Background.totalEmails (Background.stats analysis)
                = Z.of_nat (List.length (answersIn evs2))
         | _ =>
             evs2 = [] /\ Eff.store (snd run) = Eff.store w
             /\ (forall ids,
                   fst (Background.getAllMessageIds transport fuel cap w)
                   <> Ret ids)
         end.
Proof.
  intros Remote transport fuel cap w run. subst run.
  destruct (Background.loadAndAnalyzeEmails transport fuel cap w)
    as [out w'] eqn:Hrun.
  apply loadAndAnalyze_run in Hrun.
  destruct Hrun as (out1 & evs1 & evs2 & H1 & Ht & Hl & Hm).
  exists evs1, evs2. cbn [fst snd]. split; auto. split; auto.
  rewrite H1. destruct out1 as [ids|e|].
  - destruct Hm as (Hr & -> & Hst). repeat split; eauto.
    unfold Background.analyzeMessages, Background.finish.
    cbn [Background.stats Background.totalEmails].
    rewrite (proj1 (Background_accTotal_counts _)). now rewrite length_map.
  - destruct Hm as (-> & -> & Hst). repeat split; auto. discriminate.
  - destruct Hm as (-> & -> & Hst). repeat split; auto. discriminate.
Qed.

(** X12.  Against a provider whose listing never returns more ids than it
    is asked for, the analysis [loadAndAnalyzeEmails] returns counts no
    more emails than the cap. *)
Theorem load_counts_at_most_the_cap :
  forall (Remote : Type)
         (transport : Request -> Remote -> (string + Response) * Remote)
         (fuel : nat) (cap : Z)
         (w : Eff.World Remote (option Background.Analysis)) analysis w',
    honoursLimit transport ->
    Background.loadAndAnalyzeEmails transport fuel cap w = (Ret analysis, w') ->
    Background.totalEmails (Background.stats analysis) <= Z.max 0 cap.
Proof.
  intros Remote transport fuel cap w analysis w' Hh Hrun.
  apply loadAndAnalyze_run in Hrun.
  destruct Hrun as (out1 & evs1 & evs2 & H1 & Ht & Hl & Hm).
  destruct out1 as [ids|e|]; try (destruct Hm as (Hm & _); discriminate).
  destruct Hm as (Hr & Ho & _). injection Ho as ->.
  unfold Background.analyzeMessages, Background.finish.
  cbn [Background.stats Background.totalEmails].
  rewrite (proj1 (Background_accTotal_counts _)), length_map.
  destruct (Background.getAllMessageIds transport fuel cap w) as [o w1] eqn:E1.
  cbn [fst] in H1. subst o. unfold Background.getAllMessageIds in E1.
  apply (getAllLoop_within_cap transport Hh) in E1; [|simpl; lia].
  pose proof (answers_at_most_requests evs2) as Hle.
  rewrite Hr, length_map in Hle. lia.
Qed.

Lemma load_counts_at_most_the_cap_witness :
  exists analysis,
    fst (Background.loadAndAnalyzeEmails Sample.smallMailbox 3 2
           Sample.freshWorker) = Ret analysis
    /\ Background.totalEmails (Background.stats analysis) <= Z.max 0 2.
Proof.
  eexists. split; [reflexivity|].
  apply (load_counts_at_most_the_cap unit Sample.smallMailbox 3%nat 2
           Sample.freshWorker _
           (snd (Background.loadAndAnalyzeEmails Sample.smallMailbox 3 2
                   Sample.freshWorker))
           smallMailbox_honours).
  reflexivity.
Defined.

(* ================================================================= *)
(** ** Sorting the senders again *)

Section SortWithFacts.
Context {A : Type} (key : A -> Z).

Lemma sortWith_desc l :
  sortWith (fun a b => 1 * (key b - key a)) l = sortDesc key l.
Proof.
  unfold sortWith, sortDesc. induction l as [|x l IH]; cbn [fold_right]; auto.
  rewrite IH. generalize (fold_right (insertDesc key) [] l). intros s.
  induction s as [|y s IHs]; cbn [insertWith insertDesc]; auto.
  replace (0 <? 1 * (key y - key x)) with (key x <? key y)
    by (destruct (Z.ltb_spec (key x) (key y)), (Z.ltb_spec 0 (1 * (key y - key x)));
        auto; lia).
  now rewrite IHs.
Qed.

Lemma sortWith_asc l :
  sortWith (fun a b => -1 * (key b - key a)) l = sortDesc (fun a => - key a) l.
Proof.
  unfold sortWith, sortDesc. induction l as [|x l IH]; cbn [fold_right]; auto.
  rewrite IH. generalize (fold_right (insertDesc (fun a => - key a)) [] l).
  intros s.
  induction s as [|y s IHs]; cbn [insertWith insertDesc]; auto.
  replace (0 <? -1 * (key y - key x)) with (- key x <? - key y)
    by (destruct (Z.ltb_spec (- key x) (- key y)),
                 (Z.ltb_spec 0 (-1 * (key y - key x))); auto; lia).
  now rewrite IHs.
Qed.

Lemma sortDesc_of_sorted l :
  StronglySorted (fun a b => key b <= key a) l -> sortDesc key l = l.
Proof.
  induction 1 as [|x l Hs IH Hx]; auto.
  cbn [sortDesc fold_right]. fold (sortDesc key l). rewrite IH.
  destruct l as [|y l]; auto. cbn [insertDesc].
  inversion Hx as [|? ? Hy _]; subst.
  destruct (Z.ltb_spec (key x) (key y)); [lia|reflexivity].
Qed.

End SortWithFacts.

Lemma StronglySorted_weaken {A} (R R' : A -> A -> Prop) l :
  (forall a b, R a b -> R' a b) -> StronglySorted R l -> StronglySorted R' l.
Proof.
  intros HR. induction 1 as [|x l Hs IH Hx]; constructor; auto.
  eapply Forall_impl; [|exact Hx]. auto.
Qed.

(** X13.  [sortSenders] on a numeric property returns the same senders,
    stably sorted, but in the order opposite to the one asked for: ['asc']
    gives descending values, and ['desc'], the default, or any other word
    gives ascending values.  So ['asc'] by [totalCount] leaves the senders
    of an analysis as they are. *)
Theorem sortSenders_numeric_order_is_reversed :
  (forall (senders : list Parser.Sender) (key : Parser.Sender -> Z)
          (sortOrder : string),
     let sorted := Parser.sortSenders senders key sortOrder in
     Permutation sorted senders
     /\ (if String.eqb sortOrder "asc"
         then StronglySorted (fun a b => key b <= key a) sorted
         else StronglySorted (fun a b => key a <= key b) sorted)
     /\ forall n,
          filter (fun s => key s =? n) sorted
          = filter (fun s => key s =? n) senders)
  /\ (forall messages : list (option Message),
        let senders := Parser.senders (Parser.analyzeMessages messages) in
        Parser.sortSenders senders Parser.totalCount "asc" = senders).
Proof.
  split.
  - intros senders key sortOrder sorted. subst sorted.
    unfold Parser.sortSenders. destruct (String.eqb sortOrder "asc").
    + rewrite sortWith_desc. split; [apply sortDesc_perm|].
      split; [apply sortDesc_sorted|]. intros n. apply sortDesc_stable.
    + rewrite sortWith_asc. split; [apply sortDesc_perm|]. split.
      * pose proof (sortDesc_sorted (fun a => - key a) senders) as H.
        eapply StronglySorted_weaken; [|exact H].
        intros a b Hab. cbv beta in Hab. lia.
      * intros n.
        pose proof (sortDesc_stable (fun a => - key a) (- n) senders) as H.
        assert (Hext : forall a : Parser.Sender,
                   (key a =? n) = (- key a =? - n)).
        { intros a. destruct (Z.eqb_spec (key a) n),
            (Z.eqb_spec (- key a) (- n)); auto; lia. }
        rewrite !(filter_ext _ _ Hext). exact H.
  - intros messages senders. subst senders.
    unfold Parser.sortSenders. cbn [String.eqb Ascii.eqb Bool.eqb].
    rewrite sortWith_desc. apply sortDesc_of_sorted.
    unfold Parser.analyzeMessages, Parser.finish. cbn [Parser.senders].
    apply sortDesc_sorted.
Qed.

(* ================================================================= *)
(** ** The statistics of a sender list *)

Lemma fold_left_sum {A} (f : A -> Z) l : forall a,
  fold_left (fun sum s => sum + f s) l a = a + sumZ f l.
Proof.
  induction l as [|x l IH]; intros a; cbn [fold_left sumZ fold_right]; [lia|].
  rewrite IH. unfold sumZ. lia.
Qed.

Lemma sumZ_between {A} (f g : A -> Z) l :
  Forall (fun x => 0 <= f x <= g x) l -> 0 <= sumZ f l <= sumZ g l.
Proof.
  induction 1 as [|x l Hx Hl IH]; cbn [sumZ fold_right]; [lia|].
  unfold sumZ in IH. lia.
Qed.

(** X14.  [getSendersStats] on the senders of an analysis agrees with the
    stats of that analysis on the number of senders and of newsletter
    senders; its message totals leave out the summaries that were counted
    but filed under no sender.  Its unread total is at most its total, and
    the senders with an unsubscribe link are at most all. *)
Theorem getSendersStats_against_analysis :
  forall messages : list (option Message),
    let r := Parser.analyzeMessages messages in
    let st := Parser.getSendersStats (Parser.senders r) in
    Parser.SendersStats.totalSenders st = Parser.totalSenders (Parser.stats r)
    /\ Parser.SendersStats.newsletterCount st
       = Parser.newsletterSenders (Parser.stats r)
    /\ Parser.SendersStats.totalEmails st
       = Parser.totalEmails (Parser.stats r) - countZ Parser_skipped messages
    /\ Parser.SendersStats.totalUnread st
       = Parser.unreadEmails (Parser.stats r)
         - countZ (fun m => (Parser_skipped m && Parser_unread m)%bool) messages
    /\ 0 <= Parser.SendersStats.totalUnread st
         <= Parser.SendersStats.totalEmails st
    /\ 0 <= Parser.SendersStats.withUnsubscribe st
         <= Parser.SendersStats.totalSenders st.
Proof.
  intros messages r st. subst r st.
  unfold Parser.getSendersStats.
  cbn [Parser.SendersStats.totalSenders Parser.SendersStats.newsletterCount
       Parser.SendersStats.totalEmails Parser.SendersStats.totalUnread
       Parser.SendersStats.withUnsubscribe].
  rewrite !fold_left_sum, !Z.add_0_l.
  unfold Parser.analyzeMessages, Parser.finish, Parser.scan.
  cbn [Parser.stats Parser.senders Parser.totalEmails Parser.unreadEmails
       Parser.totalSenders Parser.newsletterSenders].
  destruct (Parser_scan_totals messages Parser.emptyAcc) as [Ht Hu].
  cbn in Ht, Hu.
  split; [reflexivity|]. split; [reflexivity|].
  split; [rewrite sumZ_sortDesc; lia|].
  split; [rewrite sumZ_sortDesc; lia|].
  split.
  - apply sumZ_between. apply sortDesc_Forall.
    apply (Parser_fold_counts messages Parser.emptyAcc). constructor.
  - pose proof (filter_length_le
                  (fun s => Js.truthyOpt (Parser.unsubscribeLink s))
                  (sortDesc Parser.totalCount
                     (JsMap.values
                        (Parser.sendersMap
                           (fold_left Parser.step messages Parser.emptyAcc))))).
    lia.
Qed.

(* ================================================================= *)
(** ** Grouping the senders by domain *)

Lemma keyEqb_eq k k' : JsMapU.keyEqb k k' = true <-> k = k'.
Proof.
  destruct k as [s|], k' as [s'|]; cbn [JsMapU.keyEqb];
    try (split; intros H; [discriminate|congruence]); [|tauto].
  rewrite String.eqb_eq. split; congruence.
Qed.

Lemma keyEqb_refl k : JsMapU.keyEqb k k = true.
Proof. now apply keyEqb_eq. Qed.

Lemma keyEqb_neq k k' : k <> k' -> JsMapU.keyEqb k k' = false.
Proof.
  intros H. destruct (JsMapU.keyEqb k k') eqn:E; auto.
  apply keyEqb_eq in E. contradiction.
Qed.

Section JsMapUFacts.
Context {V : Type}.
Implicit Types (m : list (option string * V)) (k : option string) (v : V).

Lemma JsMapU_get_set_same k v m : JsMapU.get k (JsMapU.set k v m) = Some v.
Proof.
  induction m as [|[k' v'] m IH]; cbn [JsMapU.set JsMapU.get].
  - now rewrite keyEqb_refl.
  - destruct (JsMapU.keyEqb k k') eqn:E; cbn [JsMapU.get]; rewrite E; auto.
Qed.

Lemma JsMapU_get_set_other k k' v m :
  k' <> k -> JsMapU.get k' (JsMapU.set k v m) = JsMapU.get k' m.
Proof.
  intros Hne. induction m as [|[k0 v0] m IH]; cbn [JsMapU.set JsMapU.get].
  - now rewrite (keyEqb_neq _ _ Hne).
  - destruct (JsMapU.keyEqb k k0) eqn:E; cbn [JsMapU.get].
    + apply keyEqb_eq in E. subst k0. now rewrite (keyEqb_neq _ _ Hne).
    + now rewrite IH.
Qed.

Lemma JsMapU_keys_set k v m :
  map fst (JsMapU.set k v m)
  = if JsMapU.has k m then map fst m else (map fst m ++ [k])%list.
Proof.
  unfold JsMapU.has.
  induction m as [|[k' v'] m IH]; cbn [JsMapU.set JsMapU.get map fst app].
  - reflexivity.
  - destruct (JsMapU.keyEqb k k') eqn:E; cbn [map fst].
    + reflexivity.
    + rewrite IH. destruct (JsMapU.get k m); reflexivity.
Qed.

Lemma JsMapU_get_none_keys k m : JsMapU.get k m = None -> ~ In k (map fst m).
Proof.
  induction m as [|[k' v'] m IH]; cbn [JsMapU.get map fst]; intros H; [tauto|].
  destruct (JsMapU.keyEqb k k') eqn:E; [discriminate|].
  intros [Hk|Hk]; [|now apply IH].
  subst k'. rewrite keyEqb_refl in E. discriminate.
Qed.

Lemma JsMapU_NoDup_set k v m :
  NoDup (map fst m) -> NoDup (map fst (JsMapU.set k v m)).
Proof.
  intros H. rewrite JsMapU_keys_set. unfold JsMapU.has.
  destruct (JsMapU.get k m) eqn:E; auto.
  apply JsMapU_get_none_keys in E.
  apply NoDup_app; auto.
  - constructor; [tauto|constructor].
  - intros x Hx [<-|[]]. tauto.
Qed.

Lemma JsMapU_In_get k v m :
  NoDup (map fst m) -> In (k, v) m -> JsMapU.get k m = Some v.
Proof.
  induction m as [|[k' v'] m IH]; cbn [map fst JsMapU.get]; intros Hnd Hin;
    [contradiction|].
  inversion Hnd as [|? ? Hk Hnd']; subst.
  destruct Hin as [H|Hin].
  - inversion H; subst. now rewrite keyEqb_refl.
  - destruct (JsMapU.keyEqb k k') eqn:E; auto.
    apply keyEqb_eq in E. subst k'.
    exfalso. apply Hk. apply in_map_iff. now exists (k, v).
Qed.

Lemma JsMapU_get_In k v m : JsMapU.get k m = Some v -> In (k, v) m.
Proof.
  induction m as [|[k' v'] m IH]; cbn [JsMapU.get]; intros H; [discriminate|].
  destruct (JsMapU.keyEqb k k') eqn:E.
  - apply keyEqb_eq in E. inversion H; subst. now left.
  - right. auto.
Qed.

Lemma JsMapU_sum_set (f : V -> Z) k v m :
  sumZ f (JsMapU.values (JsMapU.set k v m))
  = sumZ f (JsMapU.values m) + f v
    - match JsMapU.get k m with Some v0 => f v0 | None => 0 end.
Proof.
  unfold JsMapU.values, sumZ.
  induction m as [|[k' v'] m IH];
    cbn [JsMapU.set JsMapU.get map snd fold_right]; [lia|].
  destruct (JsMapU.keyEqb k k') eqn:E; cbn [map snd fold_right]; lia.
Qed.

End JsMapUFacts.

Lemma sumZ_snoc {A} (f : A -> Z) l x : sumZ f (l ++ [x]) = sumZ f l + f x.
Proof.
  unfold sumZ. induction l as [|y l IH]; cbn [app fold_right]; lia.
Qed.

Lemma Parser_ofDomain_snoc d pre s :
  Parser_ofDomain d (pre ++ [s])
  = (Parser_ofDomain d pre
     ++ if JsMapU.keyEqb (Parser.domainOf s) d then [s] else [])%list.
Proof. unfold Parser_ofDomain. now rewrite filter_app. Qed.

(** The [domains] map after the senders [pre]: one entry per domain met,
    holding the senders of that domain and their totals. *)
Lemma Parser_groups_characterised pre :
  let m := fold_left Parser.groupStep pre [] in
  NoDup (map fst m)
  /\ (forall k,
        JsMapU.get k m
        = match Parser_ofDomain k pre with
          | [] => None
          | _ :: _ => Some (Parser_groupOf k pre)
          end)
  /\ sumZ Parser.Group.totalEmails (JsMapU.values m) = sumZ Parser.totalCount pre
  /\ sumZ Parser.Group.totalUnread (JsMapU.values m) = sumZ Parser.unreadCount pre.
Proof.
  induction pre as [|s pre IH] using rev_ind.
  - cbn. repeat split; auto. constructor.
  - rewrite fold_left_app. cbn [fold_left].
    set (m := fold_left Parser.groupStep pre []) in *. cbv zeta in IH |- *.
    destruct IH as (Hnd & Hget & Hte & Htu).
    rewrite !sumZ_snoc.
    unfold Parser.groupStep. cbv zeta. unfold JsMapU.has.
    set (d := Parser.domainOf s).
    pose proof (Hget d) as Hd.
    destruct (Parser_ofDomain d pre) as [|s0 l0] eqn:Eof.
    + rewrite Hd. cbn [negb]. rewrite JsMapU_get_set_same.
      cbn [Parser.Group.domain Parser.Group.senders Parser.Group.totalEmails
           Parser.Group.totalUnread app].
      split; [now repeat apply JsMapU_NoDup_set|].
      split; [|split].
      * intros k. rewrite Parser_ofDomain_snoc. fold d.
        destruct (JsMapU.keyEqb d k) eqn:Ek.
        -- apply keyEqb_eq in Ek. subst k. rewrite JsMapU_get_set_same.
           unfold Parser_groupOf. rewrite Parser_ofDomain_snoc. fold d.
           rewrite keyEqb_refl, Eof. cbn [app sumZ fold_right].
           f_equal. f_equal; lia.
        -- assert (Hne : k <> d)
             by (intros ->; rewrite keyEqb_refl in Ek; discriminate).
           rewrite !JsMapU_get_set_other by exact Hne.
           rewrite app_nil_r, Hget.
           destruct (Parser_ofDomain k pre) eqn:Ek'; auto.
           unfold Parser_groupOf. rewrite Parser_ofDomain_snoc. fold d.
           now rewrite Ek, app_nil_r, Ek'.
      * rewrite !JsMapU_sum_set, JsMapU_get_set_same, Hd.
        cbn [Parser.Group.totalEmails]. lia.
      * rewrite !JsMapU_sum_set, JsMapU_get_set_same, Hd.
        cbn [Parser.Group.totalUnread]. lia.
    + rewrite Hd. cbn [negb]. rewrite Hd.
      cbn [Parser_groupOf Parser.Group.domain Parser.Group.senders
           Parser.Group.totalEmails Parser.Group.totalUnread].
      split; [now apply JsMapU_NoDup_set|].
      split; [|split].
      * intros k. rewrite Parser_ofDomain_snoc. fold d.
        destruct (JsMapU.keyEqb d k) eqn:Ek.
        -- apply keyEqb_eq in Ek. subst k. rewrite JsMapU_get_set_same.
           rewrite Eof. cbn [app].
           unfold Parser_groupOf. rewrite Parser_ofDomain_snoc. fold d.
           rewrite keyEqb_refl, Eof, !sumZ_snoc. reflexivity.
        -- assert (Hne : k <> d)
             by (intros ->; rewrite keyEqb_refl in Ek; discriminate).
           rewrite JsMapU_get_set_other by exact Hne.
           rewrite app_nil_r, Hget.
           destruct (Parser_ofDomain k pre) eqn:Ek'; auto.
           unfold Parser_groupOf. rewrite Parser_ofDomain_snoc. fold d.
           now rewrite Ek, app_nil_r, Ek'.
      * rewrite JsMapU_sum_set, Hd. unfold Parser_groupOf. rewrite ?Eof.
        cbn [Parser.Group.totalEmails]. lia.
      * rewrite JsMapU_sum_set, Hd. unfold Parser_groupOf. rewrite ?Eof.
        cbn [Parser.Group.totalUnread]. lia.
Qed.

Lemma Parser_group_in_map senders g :
  In g (Parser.groupByDomain senders) ->
  In (Parser.Group.domain g, g) (fold_left Parser.groupStep senders [])
  /\ Parser_ofDomain (Parser.Group.domain g) senders <> []
  /\ g = Parser_groupOf (Parser.Group.domain g) senders.
Proof.
  unfold Parser.groupByDomain. intros Hin. apply sortDesc_In in Hin.
  destruct (Parser_groups_characterised senders) as (Hnd & Hget & _).
  cbv zeta in Hnd, Hget.
  unfold JsMapU.values in Hin. apply in_map_iff in Hin.
  destruct Hin as ([k g'] & Hg & Hin). cbn [snd] in Hg. subst g'.
  pose proof (JsMapU_In_get _ _ _ Hnd Hin) as Hk. rewrite Hget in Hk.
  destruct (Parser_ofDomain k senders) as [|s0 l0] eqn:Eof; [discriminate|].
  injection Hk as Hk. subst g. cbn [Parser_groupOf Parser.Group.domain].
  rewrite Eof. split; [exact Hin|]. split; [discriminate|].
  unfold Parser_groupOf. now rewrite Eof.
Qed.

(** X15.  [groupByDomain] partitions the senders by the domain of their
    address: every group holds exactly the senders of its domain, in the
    order they came, and the sums of their counts; no group is empty, no
    two groups share a domain, every sender has its group, and the groups
    come in descending order of their emails.  So the emails of the groups
    add up to those of the senders. *)
Theorem groupByDomain_partitions_the_senders :
  forall senders : list Parser.Sender,
    let groups := Parser.groupByDomain senders in
    (forall g, In g groups ->
       Parser.Group.senders g = Parser_ofDomain (Parser.Group.domain g) senders
       /\ Parser.Group.senders g <> []
       /\ Parser.Group.totalEmails g
          = sumZ Parser.totalCount (Parser.Group.senders g)
       /\ Parser.Group.totalUnread g
          = sumZ Parser.unreadCount (Parser.Group.senders g))
    /\ NoDup (map Parser.Group.domain groups)
    /\ (forall s, In s senders ->
          exists g, In g groups /\ Parser.Group.domain g = Parser.domainOf s)
    /\ StronglySorted
         (fun a b => Parser.Group.totalEmails b <= Parser.Group.totalEmails a)
         groups
    /\ sumZ Parser.Group.totalEmails groups = sumZ Parser.totalCount senders
    /\ sumZ Parser.Group.totalUnread groups = sumZ Parser.unreadCount senders.
Proof.
  intros senders groups. subst groups.
  destruct (Parser_groups_characterised senders) as (Hnd & Hget & Hte & Htu).
  cbv zeta in Hnd, Hget, Hte, Htu.
  split; [|split; [|split; [|split; [|split]]]].
  - intros g Hin. apply Parser_group_in_map in Hin.
    destruct Hin as (_ & Hne & Hg).
    set (d := Parser.Group.domain g) in *. clearbody d. subst g.
    cbn [Parser_groupOf Parser.Group.senders Parser.Group.totalEmails
         Parser.Group.totalUnread Parser.Group.domain]. auto.
  - unfold Parser.groupByDomain.
    eapply Permutation_NoDup;
      [apply Permutation_map; symmetry; apply sortDesc_perm|].
    assert (Hkeys : map Parser.Group.domain
                      (JsMapU.values (fold_left Parser.groupStep senders []))
                    = map fst (fold_left Parser.groupStep senders [])).
    { unfold JsMapU.values. rewrite map_map. apply map_ext_in.
      intros [k g] Hin. cbn [fst snd].
      pose proof (JsMapU_In_get _ _ _ Hnd Hin) as Hk. rewrite Hget in Hk.
      destruct (Parser_ofDomain k senders); [discriminate|].
      injection Hk as <-. reflexivity. }
    rewrite Hkeys. exact Hnd.
  - intros s Hs.
    pose proof (Hget (Parser.domainOf s)) as Hd.
    assert (Hin : In s (Parser_ofDomain (Parser.domainOf s) senders)).
    { unfold Parser_ofDomain. apply filter_In. split; auto. apply keyEqb_refl. }
    destruct (Parser_ofDomain (Parser.domainOf s) senders) eqn:Eof;
      [contradiction|].
    exists (Parser_groupOf (Parser.domainOf s) senders). split; [|reflexivity].
    unfold Parser.groupByDomain. apply sortDesc_In.
    unfold JsMapU.values. apply in_map_iff.
    exists (Parser.domainOf s, Parser_groupOf (Parser.domainOf s) senders).
    split; [reflexivity|]. now apply JsMapU_get_In.
  - apply sortDesc_sorted.
  - unfold Parser.groupByDomain. now rewrite sumZ_sortDesc.
  - unfold Parser.groupByDomain. now rewrite sumZ_sortDesc.
Qed.

(* ================================================================= *)
(** ** Filtering the senders *)

Lemma filter_filter {A} (p q : A -> bool) l :
  filter q (filter p l) = filter (fun x => (p x && q x)%bool) l.
Proof.
  induction l as [|x l IH]; cbn [filter]; auto.
  destruct (p x); cbn [filter andb]; rewrite ?IH; auto.
Qed.

Lemma filter_true {A} (l : list A) : filter (fun _ => true) l = l.
Proof. induction l as [|x l IH]; cbn [filter]; congruence. Qed.

Lemma filter_when {A} (b : bool) (p : A -> bool) l :
  (if b then filter p l else l) = filter (fun x => if b then p x else true) l.
Proof. destruct b; [reflexivity|]. symmetry. apply filter_true. Qed.

Lemma filter_idem {A} (p : A -> bool) l : filter p (filter p l) = filter p l.
Proof.
  rewrite filter_filter. apply filter_ext. intros x. now destruct (p x).
Qed.

Section FilterSorted.
Context {A : Type} (key : A -> Z) (p : A -> bool).

Lemma insertDesc_front x l :
  Forall (fun y => key y <= key x) l -> insertDesc key x l = x :: l.
Proof.
  intros H. destruct l as [|y l]; auto. cbn [insertDesc].
  inversion H; subst. destruct (Z.ltb_spec (key x) (key y)); [lia|auto].
Qed.

Lemma filter_insertDesc x l :
  StronglySorted (fun a b => key b <= key a) l ->
  filter p (insertDesc key x l)
  = if p x then insertDesc key x (filter p l) else filter p l.
Proof.
  induction 1 as [|y l Hs IH Hy]; cbn [insertDesc filter].
  - now destruct (p x).
  - destruct (Z.ltb_spec (key x) (key y)) as [Hlt|Hge]; cbn [filter].
    + rewrite IH. destruct (p x), (p y); cbn [insertDesc]; auto.
      destruct (Z.ltb_spec (key x) (key y)); [auto|lia].
    + destruct (p x); auto.
      symmetry. apply insertDesc_front.
      apply (incl_Forall (l1 := y :: l)).
      * intros z Hz. change (In z (filter p (y :: l))) in Hz.
        apply filter_In in Hz. tauto.
      * constructor; [lia|]. eapply Forall_impl; [|exact Hy].
        intros z Hz. cbv beta in Hz. lia.
Qed.

Lemma filter_sortDesc l :
  filter p (sortDesc key l) = sortDesc key (filter p l).
Proof.
  induction l as [|x l IH]; auto.
  cbn [sortDesc fold_right filter]. fold (sortDesc key l).
  rewrite filter_insertDesc by apply sortDesc_sorted.
  rewrite IH. destruct (p x); auto.
Qed.

Lemma sortDesc_idem l : sortDesc key (sortDesc key l) = sortDesc key l.
Proof. apply sortDesc_of_sorted, sortDesc_sorted. Qed.

End FilterSorted.

Lemma Parser_sortSenders_as_sortDesc senders key sortOrder :
  Parser.sortSenders senders key sortOrder
  = if String.eqb sortOrder "asc" then sortDesc key senders
    else sortDesc (fun a => - key a) senders.
Proof.
  unfold Parser.sortSenders. destruct (String.eqb sortOrder "asc").
  - apply sortWith_desc.
  - apply sortWith_asc.
Qed.

(** The filters of [filterSenders], applied one after the other, keep what
    passes all of them. *)
Lemma Parser_filterSenders_fused senders filters :
  Parser.filterSenders senders filters
  = match Parser.sortBy filters with
    | Some key =>
        Parser.sortSenders (filter (Parser_passes filters) senders) key
          (Parser_orderOf filters)
    | None => filter (Parser_passes filters) senders
    end.
Proof.
  unfold Parser.filterSenders. cbv zeta. fold (Parser_orderOf filters).
  set (q0 := match Parser.searchQuery filters with
             | Some q =>
                 if Js.truthy q
                 then filter (Parser.matchesQuery (Js.toLowerCase q)) senders
                 else senders
             | None => senders
             end).
  assert (H0 : q0 = filter
                      (fun s => match Parser.searchQuery filters with
                                | Some q =>
                                    if Js.truthy q
                                    then Parser.matchesQuery (Js.toLowerCase q) s
                                    else true
                                | None => true
                                end) senders).
  { subst q0. destruct (Parser.searchQuery filters) as [q|];
      [destruct (Js.truthy q)|]; auto; symmetry; apply filter_true. }
  rewrite H0. clear H0 q0. rewrite !filter_when.
  rewrite !filter_filter.
  assert (H : forall p q : Parser.Sender -> bool,
             (forall x, p x = q x) -> filter p senders = filter q senders)
    by (intros p q Hpq; now apply filter_ext).
  erewrite H; [reflexivity|].
  intros x. unfold Parser_passes.
  destruct (Parser.minEmailCount filters =? 0); cbn [negb];
    rewrite ?andb_assoc; reflexivity.
Qed.

(** X16.  [filterSenders] keeps exactly the senders that pass every filter
    switched on, in their order, and a [sortBy] then sorts them as
    [sortSenders] does; an empty search query and a [minEmailCount] of 0
    switch nothing on.  It returns no sender that was not given, and
    filtering its result again with the same filters changes nothing. *)
Theorem filterSenders_keeps_what_passes :
  forall (senders : list Parser.Sender) (filters : Parser.Filters),
    let result := Parser.filterSenders senders filters in
    result
    = match Parser.sortBy filters with
      | Some key =>
          Parser.sortSenders (filter (Parser_passes filters) senders) key
            (Parser_orderOf filters)
      | None => filter (Parser_passes filters) senders
      end
    /\ Permutation result (filter (Parser_passes filters) senders)
    /\ Forall (fun s => In s senders /\ Parser_passes filters s = true) result
    /\ Parser.filterSenders result filters = result.
Proof.
  intros senders filters result. subst result.
  rewrite !Parser_filterSenders_fused.
  assert (Hperm : Permutation
                    match Parser.sortBy filters with
                    | Some key =>
                        Parser.sortSenders (filter (Parser_passes filters) senders)
                          key (Parser_orderOf filters)
                    | None => filter (Parser_passes filters) senders
                    end
                    (filter (Parser_passes filters) senders)).
  { destruct (Parser.sortBy filters) as [key|]; auto.
    rewrite Parser_sortSenders_as_sortDesc.
    destruct (String.eqb (Parser_orderOf filters) "asc"); apply sortDesc_perm. }
  split; [reflexivity|]. split; [exact Hperm|]. split.
  - apply Forall_forall. intros s Hs.
    apply (Permutation_in _ Hperm) in Hs. apply filter_In in Hs. exact Hs.
  - destruct (Parser.sortBy filters) as [key|]; [|apply filter_idem].
    rewrite !Parser_sortSenders_as_sortDesc.
    destruct (String.eqb (Parser_orderOf filters) "asc");
      rewrite filter_sortDesc, filter_idem; apply sortDesc_idem.
Qed.

(* ================================================================= *)
(** ** The cadence of batch delete *)

Lemma chunkLoop_done {A} fuel (array : list A) size i chunks :
  (List.length array <= i)%nat ->
  GmailAPI.chunkLoop fuel array size i chunks = Some chunks.
Proof.
  intros H. apply Nat.ltb_ge in H.
  destruct fuel; cbn [GmailAPI.chunkLoop]; now rewrite H.
Qed.

Lemma chunkArray_one {A} (array : list A) size :
  array <> [] -> (List.length array <= size)%nat ->
  GmailAPI.chunkArray (List.length array) array size = Some [array].
Proof.
  intros Hne Hle. unfold GmailAPI.chunkArray.
  destruct (List.length array) as [|fuel] eqn:El.
  - destruct array; [contradiction|discriminate].
  - cbn [GmailAPI.chunkLoop]. rewrite El.
    replace (Nat.ltb 0 (S fuel)) with true by (symmetry; apply Nat.ltb_lt; lia).
    cbn [negb app]. rewrite chunkLoop_done by lia.
    rewrite slice_firstn. cbn [skipn]. rewrite firstn_all2 by lia. reflexivity.
Qed.

Lemma chunkArray_several {A} (array : list A) size :
  (1 <= size)%nat -> (size < List.length array)%nat ->
  exists c1 c2 rest,
    GmailAPI.chunkArray (List.length array) array size = Some (c1 :: c2 :: rest).
Proof.
  intros Hs Hlt. unfold GmailAPI.chunkArray.
  destruct (List.length array) as [|[|fuel]] eqn:El; try lia.
  cbn [GmailAPI.chunkLoop]. rewrite El.
  replace (Nat.ltb 0 (S (S fuel))) with true by (symmetry; apply Nat.ltb_lt; lia).
  replace (Nat.ltb (0 + size) (S (S fuel))) with true
    by (symmetry; apply Nat.ltb_lt; lia).
  cbn [negb app].
  destruct (chunkLoop_spec fuel array size (0 + size + size)
              [slice 0 (0 + size) array;
               slice (0 + size) (0 + size + size) array] Hs)
    as (rest & Hr & _); [lia|].
  rewrite Hr. cbn [app]. eauto.
Qed.

Section Cadence.
Context {Remote : Type}.
Variable transport : Request -> Remote -> (string + Response) * Remote.

Lemma deleteChunks_cadence several chunks :
  forall (w : Eff.World Remote GmailAPI.TokenCache) out w',
  GmailAPI.deleteChunks transport several chunks w = (out, w') ->
  exists evs,
    Eff.trace w' = (Eff.trace w ++ evs)%list
    /\ requestsIn evs = map BatchDelete (deletedIn evs)
    /\ sleepsIn evs
       = (if several
          then repeat GmailAPI.rateLimitDelay (List.length (answersIn evs))
          else [])
    /\ firstn 1 (deletedIn evs) = firstn 1 chunks
    /\ match out with
       | Ret _ => failuresIn evs = []
       | Throw e => exists m, e = ThrownError m /\ failuresIn evs = [m]
       | Diverge => False
       end.
Proof.
  induction chunks as [|chunk rest IH]; intros w out w' H.
  - apply ret_inv in H. destruct H as [-> ->].
    exists []. rewrite app_nil_r. repeat split; auto. now destruct several.
  - cbn [GmailAPI.deleteChunks] in H.
    apply bind_inv in H.
    destruct H as [(data & w1 & Hc & H) | [(e & Hc & ->) | (Hc & ->)]];
      unfold GmailAPI.request in Hc;
      apply call_inv in Hc; destruct Hc as (res & r' & _ & Hw & Ho).
    + destruct res as [m|d]; [discriminate|]. injection Ho as ->.
      apply bind_inv in H.
      destruct several.
      * destruct H as [([] & w2 & Hs & H) | [(e & Hs & _) | (Hs & _)]];
          apply sleep_inv in Hs; destruct Hs as [Hs Hw2]; try discriminate.
        apply IH in H. destruct H as (evs & Ht & Hrq & Hsl & _ & Hout).
        exists ([EvRequest (BatchDelete chunk) (inr d);
                 EvSleep GmailAPI.rateLimitDelay] ++ evs)%list.
        subst w2 w1. cbn [Eff.trace Eff.remote Eff.store] in Ht.
        cbn [app requestsIn deletedIn sleepsIn answersIn failuresIn map
             List.length repeat firstn].
        split; [rewrite Ht, <- !app_assoc; reflexivity|].
        split; [now rewrite Hrq|]. split; [now rewrite Hsl|].
        split; [reflexivity|exact Hout].
      * destruct H as [([] & w2 & Hs & H) | [(e & Hs & _) | (Hs & _)]];
          apply ret_inv in Hs; destruct Hs as [Hs Hw2]; try discriminate.
        apply IH in H. destruct H as (evs & Ht & Hrq & Hsl & _ & Hout).
        exists ([EvRequest (BatchDelete chunk) (inr d)] ++ evs)%list.
        subst w2 w1. cbn [Eff.trace Eff.remote Eff.store] in Ht.
        cbn [app requestsIn deletedIn sleepsIn answersIn failuresIn map firstn].
        split; [rewrite Ht, <- !app_assoc; reflexivity|].
        split; [now rewrite Hrq|]. split; [exact Hsl|].
        split; [reflexivity|exact Hout].
    + destruct res as [m|d]; [|discriminate]. injection Ho as ->.
      exists [EvRequest (BatchDelete chunk) (inl m)]. subst w'.
      cbn [Eff.trace requestsIn deletedIn sleepsIn answersIn failuresIn map
           List.length repeat firstn].
      repeat split; eauto. now destruct several.
    + destruct res; discriminate.
Qed.

End Cadence.

(** X17.  [batchDelete] of no ids fails with its own message before any
    request.  Otherwise it sends batch-delete requests only and stops at
    the first that fails, throwing that failure.  Up to 1000 ids go in one
    request, with no wait; above that, it waits [rateLimitDelay] after
    every request that succeeds, the last one too. *)
Theorem batchDelete_waits_after_each_of_several :
  forall (Remote : Type)
         (transport : Request -> Remote -> (string + Response) * Remote)
         (messageIds : list string) (w : Eff.World Remote GmailAPI.TokenCache),
    let run := GmailAPI.batchDelete transport messageIds w in
    exists evs,
      Eff.trace (snd run) = (Eff.trace w ++ evs)%list
      /\ match messageIds with
         | [] =>
             fst run = Throw (ThrownError GmailAPI.msgNothingGiven) /\ evs = []
         | _ :: _ =>
             requestsIn evs = map BatchDelete (deletedIn evs)
             /\ sleepsIn evs
                = (if Nat.leb (List.length messageIds) 1000 then []
                   else repeat GmailAPI.rateLimitDelay
                          (List.length (answersIn evs)))
             /\ (Nat.leb (List.length messageIds) 1000 = true ->
                 deletedIn evs = [messageIds])
             /\ match fst run with
                | Ret _ => failuresIn evs = []
                | Throw e => exists m, e = ThrownError m /\ failuresIn evs = [m]
                | Diverge => False
                end
         end.
Proof.
  intros Remote transport messageIds w run. subst run.
  unfold GmailAPI.batchDelete.
  destruct messageIds as [|id0 ids].
  - exists []. cbn. rewrite app_nil_r. auto.
  - set (messageIds := id0 :: ids).
    replace (Nat.eqb (List.length messageIds) 0) with false by reflexivity.
    destruct (Nat.leb (List.length messageIds) 1000) eqn:Ele.
    + apply Nat.leb_le in Ele.
      rewrite (chunkArray_one messageIds 1000) by (auto; discriminate).
      cbn [List.length Nat.ltb Nat.leb].
      destruct (GmailAPI.deleteChunks transport false [messageIds] w)
        as [out w'] eqn:Hrun.
      pose proof Hrun as Hcad. apply deleteChunks_cadence in Hcad.
      destruct Hcad as (evs & Ht & Hrq & Hsl & Hfirst & Hout).
      exists evs. cbn [fst snd]. repeat split; auto.
      intros _. apply deleteChunks_trace in Hrun.
      destruct Hrun as (evs' & Ht' & [unsent Hu] & Hr).
      assert (evs' = evs) by (rewrite Ht in Ht'; now apply app_inv_head in Ht').
      subst evs'. cbn [firstn] in Hfirst.
      destruct (deletedIn evs) as [|c [|c' l]]; cbn [firstn] in Hfirst;
        [discriminate|now injection Hfirst as ->|].
      cbn [app] in Hu. discriminate.
    + apply Nat.leb_gt in Ele.
      destruct (chunkArray_several messageIds 1000) as (c1 & c2 & rest & Hc);
        [lia|lia|].
      rewrite Hc. cbn [List.length Nat.ltb Nat.leb].
      destruct (GmailAPI.deleteChunks transport true (c1 :: c2 :: rest) w)
        as [out w'] eqn:Hrun.
      apply deleteChunks_cadence in Hrun.
      destruct Hrun as (evs & Ht & Hrq & Hsl & _ & Hout).
      exists evs. cbn [fst snd]. repeat split; auto. discriminate.
Qed.

(* ================================================================= *)
(** ** The domain of an address *)

Lemma split_head c s :
  exists p ps,
    Js.split c s = p :: ps
    /\ p = match beforeFirst c s with Some b => b | None => s end.
Proof.
  induction s as [|d s (p & ps & Hs & Hp)]; cbn [Js.split beforeFirst].
  - eauto.
  - destruct (Ascii.eqb d c); [eauto|].
    rewrite Hs. do 2 eexists. split; [reflexivity|].
    rewrite Hp. now destruct (beforeFirst c s).
Qed.

Lemma split_second c s :
  nth_error (Js.split c s) 1
  = match afterFirst c s with
    | Some r => Some match beforeFirst c r with Some b => b | None => r end
    | None => None
    end.
Proof.
  induction s as [|d s IH]; cbn [Js.split afterFirst]; auto.
  destruct (Ascii.eqb d c).
  - cbn [nth_error]. destruct (split_head c s) as (p & ps & Hs & Hp).
    rewrite Hs. cbn [nth_error]. now rewrite Hp.
  - destruct (split_head c s) as (p & ps & Hs & Hp). rewrite Hs in *.
    cbn [nth_error] in IH |- *. exact IH.
Qed.

(** X18.  The domain [groupByDomain] files a sender under is what stands
    between the first and the second [@] of the address, or after the
    first when there is no second; an address without [@] has the domain
    [undefined]. *)
Theorem domain_is_between_first_and_second_at :
  forall sender : Parser.Sender,
    Parser.domainOf sender
    = match afterFirst "@" (Parser.email sender) with
      | Some r => Some match beforeFirst "@" r with Some b => b | None => r end
      | None => None
      end.
Proof. intros sender. apply split_second. Qed.

(* ================================================================= *)
(** ** The cached token *)

(** X19.  [getAuthToken] of [gmail-api.js] resolves only with a truthy
    token, and a rejection leaves the cache as it was.  A token it got from
    the identity service at the time [now'] is served again, without
    asking, at every time before [now' + 55 min], and from then on the
    service is asked again.  After [handleError] met a 401 the service is
    asked whatever the clock says. *)
Theorem token_is_served_until_it_expires :
  forall (now : Z) (identity : Identity) (now' : Z)
         (cache : GmailAPI.TokenCache),
    let r := GmailAPI.getAuthToken now identity now' cache in
    (forall token, fst r = inr token -> Js.truthyOpt token = true)
    /\ (forall message, fst r = inl message -> snd r = cache)
    /\ (forall token,
          GmailAPI.cachedTokenValid now cache = false ->
          fst r = inr token ->
          0 <= now' ->
          forall later identity2 later',
            (later < now' + 3300000 ->
             GmailAPI.getAuthToken later identity2 later' (snd r)
             = (inr token, snd r))
            /\ (now' + 3300000 <= later ->
                forall message,
                  GmailAPI.getAuthToken later (IdentityError message) later'
                    (snd r)
                  = (inl message, snd r)))
    /\ (forall body,
          GmailAPI.getAuthToken now identity now'
            (snd (GmailAPI.handleError 401 body cache))
          = GmailAPI.getAuthToken now identity now'
              (GmailAPI.mkTokenCache None None)
          /\ forall message,
               GmailAPI.getAuthToken now (IdentityError message) now'
                 (snd (GmailAPI.handleError 401 body cache))
               = (inl message, GmailAPI.mkTokenCache None None)).
Proof.
  intros now identity now' cache r. subst r.
  unfold GmailAPI.getAuthToken.
  split; [|split; [|split]].
  - intros token. destruct (GmailAPI.cachedTokenValid now cache) eqn:Ev.
    + cbn [fst]. intros [= <-]. unfold GmailAPI.cachedTokenValid in Ev.
      now apply andb_true_iff in Ev.
    + destruct identity as [m|t]; cbn [fst]; [discriminate|].
      destruct (Js.truthyOpt t) eqn:Et; cbn [negb fst]; [|discriminate].
      now intros [= <-].
  - intros message. destruct (GmailAPI.cachedTokenValid now cache); [reflexivity|].
    destruct identity as [m|t]; [reflexivity|].
    destruct (Js.truthyOpt t); cbn [negb fst snd]; [discriminate|reflexivity].
  - intros token Ev. rewrite Ev.
    destruct identity as [m|t]; cbn [fst]; [discriminate|].
    destruct (Js.truthyOpt t) eqn:Et; cbn [negb fst snd]; [|discriminate].
    intros [= <-] Hnow later identity2 later'.
    unfold GmailAPI.cachedTokenValid.
    cbn [GmailAPI.accessToken GmailAPI.tokenExpiresAt]. rewrite Et.
    change (55 * 60 * 1000) with 3300000.
    replace (now' + 3300000 =? 0) with false by (symmetry; apply Z.eqb_neq; lia).
    cbn [negb andb]. split; intros Hl.
    + replace (later <? now' + 3300000) with true
        by (symmetry; apply Z.ltb_lt; lia).
      reflexivity.
    + replace (later <? now' + 3300000) with false
        by (symmetry; apply Z.ltb_ge; lia).
      reflexivity.
  - intros body. split; reflexivity.
Qed.

Lemma token_is_served_until_it_expires_witness :
  GmailAPI.getAuthToken 1500 (IdentityError "offline") 1500
    (GmailAPI.mkTokenCache (Some "t1") (Some (1000 + 3300000)))
  = (inr (Some "t1"), GmailAPI.mkTokenCache (Some "t1") (Some (1000 + 3300000))).
Proof.
  assert (H0 : 0 <= 1000) by lia.
  assert (H1 : 1500 < 1000 + 3300000) by lia.
  exact (proj1 (proj1 (proj2 (proj2 (token_is_served_until_it_expires
                                      900 (IdentityToken (Some "t1")) 1000
                                      (GmailAPI.mkTokenCache None None))))
                  (Some "t1") eq_refl eq_refl H0
                  1500 (IdentityError "offline") 1500) H1).
Defined.

(** X20.  In the worker, [checkAuthentication] never answers from the
    cached token: its result is the same whatever was cached.
    [getAuthToken(false)] serves a cached token only if it is truthy, and
    caches what the identity service gives even when that is no token,
    which is then never served.  [getAuthToken(true)] and [authenticate]
    always ask the service, and an error of the service leaves the cache
    empty then, while it leaves the cache as it was for
    [getAuthToken(false)]. *)
Theorem worker_token_cache_edges :
  forall (now : Z) (identity : Identity) (now' : Z)
         (state : Background.TokenState),
    (forall state2,
       Background.checkAuthentication now identity now' state
       = Background.checkAuthentication now identity now' state2)
    /\ (if Background.cachedTokenValid now state
        then Background.getAuthToken false now identity now' state
             = (inr (Background.accessToken state), state)
             /\ Js.truthyOpt (Background.accessToken state) = true
        else match identity with
             | IdentityError message =>
                 Background.getAuthToken false now identity now' state
                 = (inl message, state)
             | IdentityToken token =>
                 Background.getAuthToken false now identity now' state
                 = (inr token,
                    Background.mkTokenState token (Some (now' + 3300000)))
                 /\ (Js.truthyOpt token = false ->
                     forall later,
                       Background.cachedTokenValid later
                         (Background.mkTokenState token (Some (now' + 3300000)))
                       = false)
             end)
    /\ Background.getAuthToken true now identity now' state
       = Background.getAuthToken false now identity now'
           (Background.mkTokenState None None)
    /\ match identity with
       | IdentityError message =>
           Background.authenticate now identity now' state
           = (inl message, Background.mkTokenState None None)
       | IdentityToken token =>
           snd (Background.authenticate now identity now' state)
           = Background.mkTokenState token (Some (now' + 3300000))
           /\ (fst (Background.authenticate now identity now' state) = inr true
               <-> Js.truthyOpt token = true)
       end.
Proof.
  intros now identity now' state.
  split; [|split; [|split]].
  - intros state2. reflexivity.
  - unfold Background.getAuthToken. cbn [negb andb].
    destruct (Background.cachedTokenValid now state) eqn:Ev.
    + split; auto. unfold Background.cachedTokenValid in Ev.
      now apply andb_true_iff in Ev.
    + destruct identity as [m|t]; auto. split; auto.
      intros Ht later. unfold Background.cachedTokenValid.
      cbn [Background.accessToken]. now rewrite Ht.
  - unfold Background.getAuthToken. cbn [negb andb].
    unfold Background.cachedTokenValid. cbn [Background.accessToken Js.truthyOpt andb].
    reflexivity.
  - unfold Background.authenticate, Background.getAuthToken. cbn [negb andb].
    destruct identity as [m|t]; auto.
    destruct (Js.truthyOpt t); cbn [negb fst snd]; split; auto;
      split; auto; discriminate.
Qed.

Lemma worker_token_cache_edges_witness :
  Background.cachedTokenValid 2000
    (Background.mkTokenState None (Some (1000 + 3300000))) = false.
Proof.
  exact (proj2 (proj1 (proj2 (worker_token_cache_edges
                                900 (IdentityToken None) 1000
                                (Background.mkTokenState None None))))
               eq_refl 2000).
Defined.

(* ================================================================= *)
(** ** The time a retried call may wait *)

Lemma backoffDelays_total k : forall from,
  0 <= from ->
  sumZ (fun d => d) (backoffDelays from k)
  = (2 ^ (from + Z.of_nat k) - 2 ^ from) * 1000.
Proof.
  induction k as [|k IH]; intros from Hfrom; cbn [backoffDelays sumZ fold_right].
  - rewrite Z.add_0_r. lia.
  - fold (sumZ (fun d => d) (backoffDelays (from + 1) k)).
    rewrite IH by lia.
    replace (from + Z.of_nat (S k)) with (from + 1 + Z.of_nat k) by lia.
    rewrite (Z.pow_add_r 2 from 1) by lia. lia.
Qed.

Section RetryWaits.
Context {A : Type}.

Lemma RetryRun_waits_and_attempts i n last evs (out : Outcome A) :
  RetryRun i n last evs out ->
  match out with
  | Ret _ => List.length (attemptsIn evs) = S (List.length (sleepsIn evs))
  | _ => (List.length (sleepsIn evs) <= List.length (attemptsIn evs))%nat
  end.
Proof.
  induction 1 as [| | |i n last message evs out Hm Hr IH];
    cbn [attemptsIn sleepsIn List.length]; auto.
  destruct out; lia.
Qed.

End RetryWaits.

(** X21.  The waits of a run of [retryWithBackoff] add up to
    [2^k - 1] seconds, [k] being their number, which is at most the number
    of invocations and so at most [maxRetries]: a run never waits more
    than [2^maxRetries - 1] seconds in all.  A run that returns has waited
    once less than it has invoked [fn].  With no attempt allowed the run
    throws [undefined] at once, without invoking [fn]. *)
Theorem retry_waits_add_up_to_a_power_of_two :
  forall (Remote A : Type) (fn : Remote -> (string + A) * Remote)
         (maxRetries : Z) (w : Eff.World Remote GmailAPI.TokenCache),
    let run := GmailAPI.retryWithBackoff fn maxRetries w in
    exists evs,
      Eff.trace (snd run) = (Eff.trace w ++ evs)%list
      /\ sumZ (fun d => d) (sleepsIn evs)
         = (2 ^ Z.of_nat (List.length (sleepsIn evs)) - 1) * 1000
      /\ (List.length (sleepsIn evs) <= List.length (attemptsIn evs))%nat
      /\ (List.length (attemptsIn evs) <= Z.to_nat maxRetries)%nat
      /\ sumZ (fun d => d) (sleepsIn evs) <= (2 ^ Z.max 0 maxRetries - 1) * 1000
      /\ match fst run with
         | Ret _ => List.length (attemptsIn evs) = S (List.length (sleepsIn evs))
         | _ => True
         end
      /\ (maxRetries <= 0 -> run = (Throw ThrownUndefined, w)).
Proof.
  intros Remote A fn maxRetries w run. subst run.
  destruct (GmailAPI.retryWithBackoff fn maxRetries w) as [out w'] eqn:Hrun.
  pose proof Hrun as Hrun0.
  unfold GmailAPI.retryWithBackoff in Hrun.
  destruct (retryLoop_run fn _ _ _ _ _ _ Hrun) as (evs & Ht & Hr).
  exists evs. cbn [fst snd].
  pose proof (RetryRun_sleeps _ _ _ _ _ Hr) as Hs.
  pose proof (RetryRun_attempts _ _ _ _ _ Hr) as Ha.
  pose proof (RetryRun_waits_and_attempts _ _ _ _ _ Hr) as Hwa.
  assert (Hle : (List.length (sleepsIn evs) <= List.length (attemptsIn evs))%nat)
    by (destruct out; lia).
  assert (Hsum : sumZ (fun d => d) (sleepsIn evs)
                 = (2 ^ Z.of_nat (List.length (sleepsIn evs)) - 1) * 1000).
  { rewrite Hs at 1. rewrite backoffDelays_total by lia.
    rewrite Z.add_0_l. change (2 ^ 0) with 1. reflexivity. }
  split; [exact Ht|]. split; [exact Hsum|]. split; [exact Hle|].
  split; [exact Ha|]. split; [|split].
  - rewrite Hsum.
    assert (2 ^ Z.of_nat (List.length (sleepsIn evs)) <= 2 ^ Z.max 0 maxRetries)
      by (apply Z.pow_le_mono_r; lia).
    lia.
  - destruct out; auto.
  - intros Hz. rewrite <- Hrun0. unfold GmailAPI.retryWithBackoff.
    replace (Z.to_nat maxRetries) with 0%nat by lia. reflexivity.
Qed.
